(** * JobPop backend: job lifecycle, applications, ledger and ratings

    A shallow embedding of the Mongoose models ([Job], [User],
    [Transaction]) and of the Express route handlers that act on them
    (applications, payments, ratings, jobs).

    Conventions of the embedding.
    - An [ObjectId] is a natural number; [a.toString() === b.toString()]
      is [Nat.eqb].
    - A [Date] is an integer (milliseconds); [new Date()] is the [now]
      argument of a handler.
    - Monetary amounts are integers ([Z]): JavaScript numbers are exact on
      them.  [stats.averageRating] is a double ([float]): the handlers
      compute it with the arithmetic of JavaScript numbers.
    - The three collections are lists of documents; [findById] returns the
      first document with the given [_id], [save] replaces it.
    - [save()] validates before it writes.  The validators of the paths
      modelled that a handler can violate are checked ([wallet.balance]
      has [min: 0]; a ledger entry requires [user] and a non-empty
      [description]; [NaN] does not cast to a [Number]); a failed
      validation throws and writes nothing, and the [catch] of the handler
      answers 500.  Stored jobs are taken to satisfy their schema, so
      [job.save()] succeeds.
    - A handler is a function from the store (and the request) to a
      response and the new store.  The request is the one that reaches the
      handler: the [auth] middleware has set [req.user] (the [actor]) and
      the express-validator checks have passed.
    - A freshly generated [_id] is the [newId] argument of a handler. *)

From Stdlib Require Import Floats.
From Stdlib Require Import String List ZArith Bool Lia PeanoNat.
Import ListNotations.
Open Scope Z_scope.

Definition ObjectId := nat.
Bind Scope nat_scope with ObjectId.
Definition Date := Z.

(** ** Models *)

Module Application.
Inductive Status := pending | accepted | rejected | withdrawn.

Definition Status_eqb (a b : Status) : bool :=
  match a, b with
  | pending, pending | accepted, accepted
  | rejected, rejected | withdrawn, withdrawn => true
  | _, _ => false
  end.

Record t := mk {
  _id : ObjectId;
  worker : ObjectId;
  status : Status;
  appliedAt : Date;
  message : option string;
  proposedPay : option Z
}.

Definition set_status (s : Status) (a : t) : t :=
  mk (_id a) (worker a) s (appliedAt a) (message a) (proposedPay a).
End Application.

Module Rating.
Record t := mk {
  rating : option Z;
  review : option string;
  ratedAt : option Date
}.

(** The empty sub-document [{}]. *)
Definition empty : t := mk None None None.
End Rating.

Module Completion.
Record t := mk {
  startedAt : option Date;
  completedAt : option Date;
  workerRating : Rating.t;
  employerRating : Rating.t
}.

Definition set_startedAt (d : Date) (c : t) : t :=
  mk (Some d) (completedAt c) (workerRating c) (employerRating c).
Definition set_completedAt (d : Date) (c : t) : t :=
  mk (startedAt c) (Some d) (workerRating c) (employerRating c).
Definition set_workerRating (r : Rating.t) (c : t) : t :=
  mk (startedAt c) (completedAt c) r (employerRating c).
Definition set_employerRating (r : Rating.t) (c : t) : t :=
  mk (startedAt c) (completedAt c) (workerRating c) r.
End Completion.

Module Payment.
Inductive Status := pending | paid | disputed | refunded.

Record t := mk {
  status : Status;
  paidAt : option Date;
  amount : option Z;
  transactionId : option ObjectId
}.
End Payment.

Module Pay.
Record t := mk {
  amount : Z;
  currency : string
}.
End Pay.

Module Job.
Inductive Status := active | in_progress | completed | cancelled | expired.

Definition Status_eqb (a b : Status) : bool :=
  match a, b with
  | active, active | in_progress, in_progress | completed, completed
  | cancelled, cancelled | expired, expired => true
  | _, _ => false
  end.

Record t := mk {
  _id : ObjectId;
  title : string;
  employer : ObjectId;
  companyName : string;
  pay : Pay.t;
  status : Status;
  applications : list Application.t;
  selectedWorker : option ObjectId;
  completion : Completion.t;
  payment : Payment.t;
  applicationsCount : Z;
  expiresAt : Date
}.

Definition set_title (x : string) (j : t) : t :=
  mk (_id j) x (employer j) (companyName j) (pay j) (status j)
     (applications j) (selectedWorker j) (completion j) (payment j)
     (applicationsCount j) (expiresAt j).
Definition set_employer (x : ObjectId) (j : t) : t :=
  mk (_id j) (title j) x (companyName j) (pay j) (status j)
     (applications j) (selectedWorker j) (completion j) (payment j)
     (applicationsCount j) (expiresAt j).
Definition set_companyName (x : string) (j : t) : t :=
  mk (_id j) (title j) (employer j) x (pay j) (status j)
     (applications j) (selectedWorker j) (completion j) (payment j)
     (applicationsCount j) (expiresAt j).
Definition set_expiresAt (x : Date) (j : t) : t :=
  mk (_id j) (title j) (employer j) (companyName j) (pay j) (status j)
     (applications j) (selectedWorker j) (completion j) (payment j)
     (applicationsCount j) x.
Definition set_pay (x : Pay.t) (j : t) : t :=
  mk (_id j) (title j) (employer j) (companyName j) x (status j)
     (applications j) (selectedWorker j) (completion j) (payment j)
     (applicationsCount j) (expiresAt j).
Definition set_status (x : Status) (j : t) : t :=
  mk (_id j) (title j) (employer j) (companyName j) (pay j) x
     (applications j) (selectedWorker j) (completion j) (payment j)
     (applicationsCount j) (expiresAt j).
Definition set_applications (x : list Application.t) (j : t) : t :=
  mk (_id j) (title j) (employer j) (companyName j) (pay j) (status j)
     x (selectedWorker j) (completion j) (payment j)
     (applicationsCount j) (expiresAt j).
Definition set_selectedWorker (x : option ObjectId) (j : t) : t :=
  mk (_id j) (title j) (employer j) (companyName j) (pay j) (status j)
     (applications j) x (completion j) (payment j)
     (applicationsCount j) (expiresAt j).
Definition set_completion (x : Completion.t) (j : t) : t :=
  mk (_id j) (title j) (employer j) (companyName j) (pay j) (status j)
     (applications j) (selectedWorker j) x (payment j)
     (applicationsCount j) (expiresAt j).
Definition set_payment (x : Payment.t) (j : t) : t :=
  mk (_id j) (title j) (employer j) (companyName j) (pay j) (status j)
     (applications j) (selectedWorker j) (completion j) x
     (applicationsCount j) (expiresAt j).
Definition set_applicationsCount (x : Z) (j : t) : t :=
  mk (_id j) (title j) (employer j) (companyName j) (pay j) (status j)
     (applications j) (selectedWorker j) (completion j) (payment j)
     x (expiresAt j).

(** [this.applications.id(applicationId)] *)
Definition applications_id (j : t) (applicationId : ObjectId)
  : option Application.t :=
  find (fun app => Application._id app =? applicationId)%nat (applications j).

(** Assignment to a field of the sub-document that [applications.id]
    returned: the first element with that [_id] is changed in place. *)
Fixpoint update_application (applicationId : ObjectId)
    (f : Application.t -> Application.t) (apps : list Application.t)
  : list Application.t :=
  match apps with
  | [] => []
  | app :: rest =>
      if (Application._id app =? applicationId)%nat
      then f app :: rest
      else app :: update_application applicationId f rest
  end.

(** Virtual [isExpired]: [new Date() > this.expiresAt]. *)
Definition isExpired (now : Date) (j : t) : bool := now >? expiresAt j.

(** Method [canApply(userId)]. *)
Definition canApply (now : Date) (j : t) (userId : ObjectId) : bool :=
  if negb (Status_eqb (status j) active) then false
  else if isExpired now j then false
  else if (employer j =? userId)%nat then false
  else
    let existingApplication :=
      find (fun app => Application.worker app =? userId)%nat (applications j) in
    match existingApplication with
    | Some _ => false
    | None => true
    end.

(** Method [apply(userId, message, proposedPay)]; [None] is the thrown
    error.  The pushed sub-document gets the schema defaults: a fresh
    [_id], status [pending], [appliedAt] now. *)
Definition apply (now : Date) (newId : ObjectId) (j : t) (userId : ObjectId)
    (message : option string) (proposedPay : option Z) : option t :=
  if negb (canApply now j userId) then None
  else
    let apps := applications j ++
      [Application.mk newId userId Application.pending now message proposedPay] in
    Some (set_applicationsCount (Z.of_nat (length apps))
            (set_applications apps j)).

(** Method [acceptApplication(applicationId)]; [None] is the thrown
    error. *)
Definition acceptApplication (j : t) (applicationId : ObjectId) : option t :=
  match applications_id j applicationId with
  | None => None
  | Some application =>
      let j1 := set_applications
        (update_application applicationId
           (Application.set_status Application.accepted) (applications j)) j in
      let j2 := set_selectedWorker (Some (Application.worker application)) j1 in
      Some (set_status in_progress j2)
  end.

(** Method [complete()]. *)
Definition complete (now : Date) (j : t) : t :=
  set_completion (Completion.set_completedAt now (completion j))
    (set_status completed j).
End Job.

Module PaymentMethod.
Record t := mk {
  _id : ObjectId;
  name : string
}.
End PaymentMethod.

Module Stats.
Record t := mk {
  completedJobs : Z;
  totalEarnings : Z;
  averageRating : float;
  totalReviews : nat
}.
End Stats.

Module Wallet.
Record t := mk {
  balance : Z;
  currency : string
}.
End Wallet.

Module User.
Record t := mk {
  _id : ObjectId;
  wallet : Wallet.t;
  paymentMethods : list PaymentMethod.t;
  stats : Stats.t
}.

Definition set_wallet (x : Wallet.t) (u : t) : t :=
  mk (_id u) x (paymentMethods u) (stats u).
Definition set_stats (x : Stats.t) (u : t) : t :=
  mk (_id u) (wallet u) (paymentMethods u) x.

(** [user.paymentMethods.id(paymentMethodId)] *)
Definition paymentMethods_id (u : t) (paymentMethodId : ObjectId)
  : option PaymentMethod.t :=
  find (fun m => PaymentMethod._id m =? paymentMethodId)%nat (paymentMethods u).
End User.

Module Transaction.
Inductive Kind := earned | withdrawal | refund | bonus | fee.
Inductive Status := pending | completed | failed | cancelled.

Definition Status_eqb (a b : Status) : bool :=
  match a, b with
  | pending, pending | completed, completed
  | failed, failed | cancelled, cancelled => true
  | _, _ => false
  end.

(** The object literal handed to [createTransaction]. *)
Record Data := mkData {
  d_user : option ObjectId;
  d_type : Kind;
  d_amount : Z;
  d_currency : string;
  d_description : string;
  d_job : option ObjectId;
  d_paymentMethod : option ObjectId;
  d_status : Status
}.

Record t := mk {
  _id : ObjectId;
  user : option ObjectId;
  type : Kind;
  amount : Z;
  currency : string;
  description : string;
  job : option ObjectId;
  paymentMethod : option ObjectId;
  status : Status;
  processedAt : option Date;
  failedAt : option Date;
  failureReason : option string
}.

(** [new this(data)] *)
Definition new (newId : ObjectId) (data : Data) : t :=
  mk newId (d_user data) (d_type data) (d_amount data) (d_currency data)
     (d_description data) (d_job data) (d_paymentMethod data)
     (d_status data) None None None.

Definition set_completed (now : Date) (x : t) : t :=
  mk (_id x) (user x) (type x) (amount x) (currency x) (description x)
     (job x) (paymentMethod x) completed (Some now) (failedAt x)
     (failureReason x).
Definition set_failed (now : Date) (reason : string) (x : t) : t :=
  mk (_id x) (user x) (type x) (amount x) (currency x) (description x)
     (job x) (paymentMethod x) failed (processedAt x) (Some now)
     (Some reason).
End Transaction.

(** ** The document store *)

Record Store := mkStore {
  users : list User.t;
  jobs : list Job.t;
  transactions : list Transaction.t
}.

Definition option_eqb (a : option ObjectId) (b : ObjectId) : bool :=
  match a with
  | Some x => (x =? b)%nat
  | None => false
  end.

(** [User.findById], [Job.findById] *)
Definition User_findById (st : Store) (id : ObjectId) : option User.t :=
  find (fun u => User._id u =? id)%nat (users st).
Definition Job_findById (st : Store) (id : ObjectId) : option Job.t :=
  find (fun j => Job._id j =? id)%nat (jobs st).

(** [doc.save()] of a document read from the store: the stored document
    with that [_id] is replaced. *)
Definition User_save (st : Store) (u : User.t) : Store :=
  mkStore
    (map (fun u0 => if (User._id u0 =? User._id u)%nat then u else u0) (users st))
    (jobs st) (transactions st).
Definition Job_save (st : Store) (j : Job.t) : Store :=
  mkStore (users st)
    (map (fun j0 => if (Job._id j0 =? Job._id j)%nat then j else j0) (jobs st))
    (transactions st).
Definition saved_over (x x0 : Transaction.t) : Transaction.t :=
  if (Transaction._id x0 =? Transaction._id x)%nat then x else x0.
Definition Transaction_save (st : Store) (x : Transaction.t) : Store :=
  mkStore (users st) (jobs st) (map (saved_over x) (transactions st)).

(** [save()] of a new document. *)
Definition Transaction_insert (st : Store) (x : Transaction.t) : Store :=
  mkStore (users st) (jobs st) (transactions st ++ [x]).

(** ** Validation on save *)

(** The user schema gives [wallet.balance] a [min: 0]. *)
Definition User_validate (u : User.t) : bool :=
  0 <=? Wallet.balance (User.wallet u).

(** The transaction schema requires [user] and [description]; the
    [required] validator of a string path refuses the empty string.  The
    other required paths, [type] and [amount], are present in every
    record. *)
Definition Transaction_validate (x : Transaction.t) : bool :=
  match Transaction.user x with
  | Some _ => true
  | None => false
  end
  && negb (String.eqb (Transaction.description x) "").

(** [await doc.save()] with its validation: [None] is the
    ValidationError that it throws, and then nothing is written. *)
Definition User_try_save (st : Store) (u : User.t) : option Store :=
  if User_validate u then Some (User_save st u) else None.
Definition Transaction_try_insert (st : Store) (x : Transaction.t)
    : option Store :=
  if Transaction_validate x then Some (Transaction_insert st x) else None.
Definition Transaction_try_save (st : Store) (x : Transaction.t)
    : option Store :=
  if Transaction_validate x then Some (Transaction_save st x) else None.

(** ** Ledger (models/Transaction.js) *)

(** The [$match] stage of [getUserBalance]. *)
Definition completed_of (userId : ObjectId) (x : Transaction.t) : bool :=
  option_eqb (Transaction.user x) userId
  && Transaction.Status_eqb (Transaction.status x) Transaction.completed.

(** The [$group] stage: [$sum] of [amount]. *)
Definition sum_amounts (l : list Transaction.t) : Z :=
  fold_right (fun x acc => Transaction.amount x + acc) 0 l.

(** Static [getUserBalance(userId)]: the sum is [0] when nothing matches. *)
Definition getUserBalance (st : Store) (userId : ObjectId) : Z :=
  sum_amounts (filter (completed_of userId) (transactions st)).

(** The block [const user = await User.findById(id); if (user) { ... }]
    shared by [createTransaction] and [process]; [None] is the error that
    [user.save()] throws when the sum is negative. *)
Definition update_user_balance (st : Store) (owner : option ObjectId)
    : option Store :=
  match owner with
  | None => Some st
  | Some userId =>
      match User_findById st userId with
      | None => Some st
      | Some user =>
          let balance := getUserBalance st userId in
          User_try_save st
            (User.set_wallet
               (Wallet.mk balance (Wallet.currency (User.wallet user))) user)
      end
  end.

(** Static [createTransaction(data)]: save the new entry, then recompute
    the owner's balance.  The second component is the entry returned, or
    [None] when the call throws: before anything is written when the
    entry is not valid, after the entry is written when the user cannot
    be saved. *)
Definition createTransaction (st : Store) (newId : ObjectId)
    (data : Transaction.Data) : Store * option Transaction.t :=
  let transaction := Transaction.new newId data in
  match Transaction_try_insert st transaction with
  | None => (st, None)
  | Some st1 =>
      match update_user_balance st1 (Transaction.d_user data) with
      | None => (st1, None)
      | Some st2 => (st2, Some transaction)
      end
  end.

(** Method [process()] on the in-memory document [this]: the fields are
    set on [this], the balance is recomputed from the stored entries and
    written to the user, and only then [this.save()] writes the entry.
    The second component is the document returned, or [None] when the
    call throws. *)
Definition process (st : Store) (now : Date) (this : Transaction.t)
    : Store * option Transaction.t :=
  let this' := Transaction.set_completed now this in
  match update_user_balance st (Transaction.user this') with
  | None => (st, None)
  | Some st1 =>
      match Transaction_try_save st1 this' with
      | None => (st1, None)
      | Some st2 => (st2, Some this')
      end
  end.

(** Method [fail(reason)]. *)
Definition fail (st : Store) (now : Date) (this : Transaction.t)
    (reason : string) : Store * option Transaction.t :=
  let this' := Transaction.set_failed now reason this in
  match Transaction_try_save st this' with
  | None => (st, None)
  | Some st1 => (st1, Some this')
  end.

(** ** HTTP responses *)

Record Response := res {
  code : nat;
  body_message : string
}.

(** ** routes/applications.js *)

(** [POST /api/applications/:jobId] *)
Definition post_application (st : Store) (actor jobId : ObjectId)
    (message : option string) (proposedPay : option Z)
    (now : Date) (newId : ObjectId) : Response * Store :=
  match Job_findById st jobId with
  | None => (res 404 "Job not found", st)
  | Some job =>
      if negb (Job.canApply now job actor)
      then (res 400 "Cannot apply for this job", st)
      else
        match Job.apply now newId job actor message proposedPay with
        | None => (res 500 "Server error", st)
        | Some job' =>
            (res 201 "Application submitted successfully", Job_save st job')
        end
  end.

Inductive Action := accept | reject | withdraw.

(** [PUT /api/applications/:jobId/:applicationId] *)
Definition put_application (st : Store) (actor jobId applicationId : ObjectId)
    (action : Action) (now : Date) : Response * Store :=
  match Job_findById st jobId with
  | None => (res 404 "Job not found", st)
  | Some job =>
      match Job.applications_id job applicationId with
      | None => (res 404 "Application not found", st)
      | Some application =>
          match action with
          | accept =>
              if negb (Job.employer job =? actor)%nat
              then (res 403 "Only job owner can accept applications", st)
              else if negb (Job.Status_eqb (Job.status job) Job.active)
              then (res 400 "Cannot accept application for inactive job", st)
              else
                match Job.acceptApplication job applicationId with
                | None => (res 500 "Server error", st)
                | Some job1 =>
                    let st1 := Job_save st job1 in
                    let job2 :=
                      Job.set_completion
                        (Completion.set_startedAt now (Job.completion job1))
                        (Job.set_status Job.in_progress job1) in
                    (res 200 "Application accepted successfully",
                     Job_save st1 job2)
                end
          | reject =>
              if negb (Job.employer job =? actor)%nat
              then (res 403 "Only job owner can reject applications", st)
              else
                let job' := Job.set_applications
                  (Job.update_application applicationId
                     (Application.set_status Application.rejected)
                     (Job.applications job)) job in
                (res 200 "Application rejected successfully", Job_save st job')
          | withdraw =>
              if negb (Application.worker application =? actor)%nat
              then (res 403 "Only applicant can withdraw their application", st)
              else
                let job' := Job.set_applications
                  (Job.update_application applicationId
                     (Application.set_status Application.withdrawn)
                     (Job.applications job)) job in
                (res 200 "Application withdrawn successfully", Job_save st job')
          end
      end
  end.

(** [DELETE /api/applications/:jobId] *)
Definition delete_application (st : Store) (actor jobId : ObjectId)
    : Response * Store :=
  match Job_findById st jobId with
  | None => (res 404 "Job not found", st)
  | Some job =>
      let userApplication :=
        find (fun app => Application.worker app =? actor)%nat
          (Job.applications job) in
      match userApplication with
      | None => (res 404 "Application not found", st)
      | Some userApplication =>
          if negb (Application.Status_eqb (Application.status userApplication)
                     Application.pending)
          then (res 400 "Cannot withdraw application that is not pending", st)
          else
            let apps :=
              filter (fun app => negb (Application.worker app =? actor)%nat)
                (Job.applications job) in
            let job' := Job.set_applicationsCount (Z.of_nat (List.length apps))
                          (Job.set_applications apps job) in
            (res 200 "Application withdrawn successfully", Job_save st job')
      end
  end.

(** ** routes/payments.js *)

(** [POST /api/payments/withdraw].  The third component is the
    [transaction] document captured by the [setTimeout] callback, which
    later runs [withdraw_settlement] on it. *)
Definition post_withdraw (st : Store) (actor : ObjectId) (amount : Z)
    (paymentMethodId : ObjectId) (newId : ObjectId)
    : Response * Store * option Transaction.t :=
  match User_findById st actor with
  | None => (res 500 "Server error", st, None)
  | Some user =>
      if Wallet.balance (User.wallet user) <? amount
      then (res 400 "Insufficient balance", st, None)
      else
        match User.paymentMethods_id user paymentMethodId with
        | None => (res 404 "Payment method not found", st, None)
        | Some paymentMethod =>
            match
              createTransaction st newId
                (Transaction.mkData (Some actor) Transaction.withdrawal
                   (- amount) (Wallet.currency (User.wallet user))
                   ("Withdrawal to " ++ PaymentMethod.name paymentMethod)%string
                   None (Some paymentMethodId) Transaction.pending)
            with
            | (st1, Some transaction) =>
                (res 200 "Withdrawal initiated successfully", st1,
                 Some transaction)
            | (st1, None) => (res 500 "Server error", st1, None)
            end
        end
  end.

(** The body of the [setTimeout] callback of the withdraw handler:
    [process()], and [fail('Processing failed')] on the same in-memory
    document, which [process()] has already marked completed, when that
    throws. *)
Definition withdraw_settlement (st : Store) (now : Date)
    (transaction : Transaction.t) : Store :=
  match process st now transaction with
  | (st1, Some _) => st1
  | (st1, None) =>
      fst (fail st1 now (Transaction.set_completed now transaction)
             "Processing failed")
  end.

(** [POST /api/payments/complete-job/:jobId] *)
Definition complete_job (st : Store) (actor jobId : ObjectId)
    (now : Date) (newId : ObjectId) : Response * Store :=
  match Job_findById st jobId with
  | None => (res 404 "Job not found", st)
  | Some job =>
      if negb (Job.employer job =? actor)%nat
      then (res 403 "Only job owner can complete the job", st)
      else if negb (Job.Status_eqb (Job.status job) Job.in_progress)
      then (res 400 "Job must be in progress to complete", st)
      else
        let job1 := Job.set_completion
                      (Completion.set_completedAt now (Job.completion job))
                      (Job.set_status Job.completed job) in
        let st1 := Job_save st job1 in
        let paymentAmount := Pay.amount (Job.pay job1) in
        match
          createTransaction st1 newId
            (Transaction.mkData (Job.selectedWorker job1) Transaction.earned
               paymentAmount (Pay.currency (Job.pay job1))
               (Job.title job1 ++ " - " ++ Job.companyName job1)%string
               (Some (Job._id job1)) None Transaction.completed)
        with
        | (st2, None) => (res 500 "Server error", st2)
        | (st2, Some transaction) =>
            let job2 := Job.set_payment
                          (Payment.mk Payment.paid (Some now)
                             (Some paymentAmount)
                             (Some (Transaction._id transaction))) job1 in
            let st3 := Job_save st2 job2 in
            let ok := res 200 "Job completed and payment processed successfully" in
            match Job.selectedWorker job2 with
            | None => (ok, st3)
            | Some workerId =>
                match User_findById st3 workerId with
                | None => (ok, st3)
                | Some worker =>
                    let s := User.stats worker in
                    match
                      User_try_save st3
                        (User.set_stats
                           (Stats.mk (Stats.completedJobs s + 1)
                              (Stats.totalEarnings s + paymentAmount)
                              (Stats.averageRating s) (Stats.totalReviews s))
                           worker)
                    with
                    | Some st4 => (ok, st4)
                    | None => (res 500 "Server error", st3)
                    end
                end
            end
        end
  end.

(** The job as [complete_job] saves it first, and as it saves it after
    the payment; the entry of the payment. *)
Definition job_completed (now : Date) (job : Job.t) : Job.t :=
  Job.set_completion (Completion.set_completedAt now (Job.completion job))
    (Job.set_status Job.completed job).
Definition job_paid (now : Date) (newId : ObjectId) (job : Job.t) : Job.t :=
  Job.set_payment
    (Payment.mk Payment.paid (Some now) (Some (Pay.amount (Job.pay job)))
       (Some newId)) (job_completed now job).
Definition payment_entry (newId jobId : ObjectId) (job : Job.t)
    : Transaction.t :=
  Transaction.mk newId (Job.selectedWorker job) Transaction.earned
    (Pay.amount (Job.pay job)) (Pay.currency (Job.pay job))
    (Job.title job ++ " - " ++ Job.companyName job)%string
    (Some jobId) None Transaction.completed None None None.

(** ** routes/ratings.js *)

(** The double of an integer of the model: the nearest one, the integer
    itself below [2^53]. *)
Definition Number_of_Z (z : Z) : float :=
  SF2Prim (binary_normalize prec emax z 0 false).

(** [Math.round]: the nearest integer, halves upwards; [NaN], the
    infinities and the zeros are returned as they are, and a negative
    number that rounds to zero gives [-0].  The integer [floor(x + 1/2)] is
    computed exactly from the mantissa and the exponent of [x]. *)
Definition Math_round (x : float) : float :=
  match Prim2SF x with
  | S754_finite s m e =>
      let n := if s then Z.neg m else Z.pos m in
      let r := if 0 <=? e then n * 2 ^ e
               else (2 * n + 2 ^ (- e)) / 2 ^ (1 - e) in
      if r =? 0 then (if s then neg_zero else 0%float) else Number_of_Z r
  | _ => x
  end.

(** [Math.round(x * 10) / 10] *)
Definition round1 (x : float) : float :=
  (Math_round (x * Number_of_Z 10) / Number_of_Z 10)%float.

(** Truthiness of a stored [rating]: [undefined] and [0] are falsy. *)
Definition truthy (r : option Z) : bool :=
  match r with
  | Some x => negb (x =? 0)
  | None => false
  end.

(** The filter [{ selectedWorker: w, 'completion.workerRating.rating':
    { $exists: true, $ne: null } }] of [Job.find]. *)
Definition rated_as_worker (w : ObjectId) (j : Job.t) : bool :=
  option_eqb (Job.selectedWorker j) w
  && match Rating.rating (Completion.workerRating (Job.completion j)) with
     | Some _ => true
     | None => false
     end.

(** [jobs.reduce((sum, j) => sum + j.completion.workerRating.rating, 0)];
    a rating that is [undefined] would make the sum [NaN]. *)
Definition reduce_ratings (js : list Job.t) : float :=
  fold_left
    (fun sum j =>
       (sum + match Rating.rating (Completion.workerRating (Job.completion j)) with
              | Some r => Number_of_Z r
              | None => nan
              end)%float)
    js 0%float.

(** [totalRatingSum / totalRatings] for a count [n]: [0 / 0] is [NaN]. *)
Definition average (sum : float) (n : nat) : float :=
  (sum / Number_of_Z (Z.of_nat n))%float.

(** The statistics computed by the create handler: the running average is
    continued from the stored (rounded) [averageRating]. *)
Definition stats_after_create (s : Stats.t) (rating : Z) : Stats.t :=
  let totalRatings := S (Stats.totalReviews s) in
  let totalRatingSum :=
    (Stats.averageRating s * Number_of_Z (Z.of_nat (Stats.totalReviews s))
     + Number_of_Z rating)%float in
  let newAverageRating :=
    (totalRatingSum / Number_of_Z (Z.of_nat totalRatings))%float in
  Stats.mk (Stats.completedJobs s) (Stats.totalEarnings s)
    (round1 newAverageRating) totalRatings.

(** The statistics computed by the update and delete handlers: recomputed
    from the jobs that [Job.find] returns.  The update handler divides
    without looking at the count ([guarded = false]); the delete handler
    takes [0] when there is no job left ([guarded = true]). *)
Definition stats_recomputed (guarded : bool) (st : Store) (w : ObjectId)
    (s : Stats.t) : Stats.t :=
  let found := filter (rated_as_worker w) (jobs st) in
  let totalRatings := List.length found in
  let averageRating :=
    if guarded && (totalRatings =? 0)%nat then 0%float
    else round1 (average (reduce_ratings found) totalRatings) in
  Stats.mk (Stats.completedJobs s) (Stats.totalEarnings s)
    averageRating totalRatings.

(** The block [const worker = await User.findById(job.selectedWorker);
    if (worker) { ...; await worker.save(); }].  [None] is the error that
    [worker.save()] throws: an average that is [NaN] does not cast to the
    [Number] of [stats.averageRating], and the document is validated. *)
Definition update_worker_stats (st : Store) (w : ObjectId)
    (f : Stats.t -> Stats.t) : option Store :=
  match User_findById st w with
  | None => Some st
  | Some worker =>
      let stats := f (User.stats worker) in
      if is_nan (Stats.averageRating stats) then None
      else User_try_save st (User.set_stats stats worker)
  end.

(** [POST /api/ratings/:jobId] *)
Definition post_rating (st : Store) (actor jobId : ObjectId)
    (rating : Z) (review : option string) (now : Date) : Response * Store :=
  match Job_findById st jobId with
  | None => (res 404 "Job not found", st)
  | Some job =>
      if negb (Job.Status_eqb (Job.status job) Job.completed)
      then (res 400 "Can only rate completed jobs", st)
      else
        match Job.selectedWorker job with
        | None => (res 500 "Server error", st)
        | Some selectedWorker =>
            let isEmployer := (Job.employer job =? actor)%nat in
            let isWorker := (selectedWorker =? actor)%nat in
            if negb isEmployer && negb isWorker
            then (res 403 "Not authorized to rate this job", st)
            else
              let c := Job.completion job in
              let existingRating :=
                if isEmployer
                then Rating.rating (Completion.employerRating c)
                else Rating.rating (Completion.workerRating c) in
              if truthy existingRating
              then (res 400 "You have already rated this job", st)
              else
                let r := Rating.mk (Some rating) review (Some now) in
                let job' :=
                  if isEmployer
                  then Job.set_completion (Completion.set_employerRating r c) job
                  else Job.set_completion (Completion.set_workerRating r c) job in
                let st1 := Job_save st job' in
                let ok := res 200 "Rating submitted successfully" in
                if isEmployer
                then
                  match update_worker_stats st1 selectedWorker
                          (fun s => stats_after_create s rating) with
                  | Some st2 => (ok, st2)
                  | None => (res 500 "Server error", st1)
                  end
                else (ok, st1)
        end
  end.

(** The assignments of the update handler to an existing rating
    sub-document. *)
Definition update_rating (rating : Z) (review : option string) (now : Date)
    (r : Rating.t) : Rating.t :=
  Rating.mk (Some rating)
    (match review with Some _ => review | None => Rating.review r end)
    (Some now).

(** [PUT /api/ratings/:jobId] *)
Definition put_rating (st : Store) (actor jobId : ObjectId)
    (rating : Z) (review : option string) (now : Date) : Response * Store :=
  match Job_findById st jobId with
  | None => (res 404 "Job not found", st)
  | Some job =>
      match Job.selectedWorker job with
      | None => (res 500 "Server error", st)
      | Some selectedWorker =>
          let isEmployer := (Job.employer job =? actor)%nat in
          let isWorker := (selectedWorker =? actor)%nat in
          if negb isEmployer && negb isWorker
          then (res 403 "Not authorized to update rating for this job", st)
          else
            let c := Job.completion job in
            let existingRating :=
              if isEmployer
              then Rating.rating (Completion.employerRating c)
              else Rating.rating (Completion.workerRating c) in
            if negb (truthy existingRating)
            then (res 400 "No existing rating to update", st)
            else
              let job' :=
                if isEmployer
                then Job.set_completion
                       (Completion.set_employerRating
                          (update_rating rating review now
                             (Completion.employerRating c)) c) job
                else Job.set_completion
                       (Completion.set_workerRating
                          (update_rating rating review now
                             (Completion.workerRating c)) c) job in
              let st1 := Job_save st job' in
              let ok := res 200 "Rating updated successfully" in
              if isEmployer
              then
                match update_worker_stats st1 selectedWorker
                        (stats_recomputed false st1 selectedWorker) with
                | Some st2 => (ok, st2)
                | None => (res 500 "Server error", st1)
                end
              else (ok, st1)
      end
  end.

(** [DELETE /api/ratings/:jobId] *)
Definition delete_rating (st : Store) (actor jobId : ObjectId)
    : Response * Store :=
  match Job_findById st jobId with
  | None => (res 404 "Job not found", st)
  | Some job =>
      match Job.selectedWorker job with
      | None => (res 500 "Server error", st)
      | Some selectedWorker =>
          let isEmployer := (Job.employer job =? actor)%nat in
          let isWorker := (selectedWorker =? actor)%nat in
          if negb isEmployer && negb isWorker
          then (res 403 "Not authorized to delete rating for this job", st)
          else
            let c := Job.completion job in
            let existingRating :=
              if isEmployer
              then Rating.rating (Completion.employerRating c)
              else Rating.rating (Completion.workerRating c) in
            if negb (truthy existingRating)
            then (res 400 "No rating to delete", st)
            else
              let job' :=
                if isEmployer
                then Job.set_completion
                       (Completion.set_employerRating Rating.empty c) job
                else Job.set_completion
                       (Completion.set_workerRating Rating.empty c) job in
              let st1 := Job_save st job' in
              let ok := res 200 "Rating deleted successfully" in
              if isEmployer
              then
                match update_worker_stats st1 selectedWorker
                        (stats_recomputed true st1 selectedWorker) with
                | Some st2 => (ok, st2)
                | None => (res 500 "Server error", st1)
                end
              else (ok, st1)
      end
  end.

(** ** routes/jobs.js *)

(** The request body of the job update: any of the paths of the job may
    be present ([_id] apart, which cannot be assigned);
    [findByIdAndUpdate] assigns the ones that are.  A body may carry
    [selectedWorker: null]. *)
Record JobBody := mkJobBody {
  b_title : option string;
  b_employer : option ObjectId;
  b_companyName : option string;
  b_pay : option Pay.t;
  b_status : option Job.Status;
  b_applications : option (list Application.t);
  b_selectedWorker : option (option ObjectId);
  b_completion : option Completion.t;
  b_payment : option Payment.t;
  b_applicationsCount : option Z;
  b_expiresAt : option Date
}.

Definition assign {A B : Type} (v : option A) (set : A -> B -> B) (x : B) : B :=
  match v with
  | Some a => set a x
  | None => x
  end.

(** [Job.findByIdAndUpdate(id, req.body, { new: true, ... })] on the
    document found. *)
Definition findByIdAndUpdate (body : JobBody) (j : Job.t) : Job.t :=
  assign (b_expiresAt body) Job.set_expiresAt
    (assign (b_applicationsCount body) Job.set_applicationsCount
       (assign (b_payment body) Job.set_payment
          (assign (b_completion body) Job.set_completion
             (assign (b_selectedWorker body) Job.set_selectedWorker
                (assign (b_applications body) Job.set_applications
                   (assign (b_status body) Job.set_status
                      (assign (b_pay body) Job.set_pay
                         (assign (b_companyName body) Job.set_companyName
                            (assign (b_employer body) Job.set_employer
                               (assign (b_title body) Job.set_title
                                  j)))))))))).

(** [PUT /api/jobs/:id] *)
Definition put_job (st : Store) (actor id : ObjectId) (body : JobBody)
    : Response * Store :=
  match Job_findById st id with
  | None => (res 404 "Job not found", st)
  | Some job =>
      if negb (Job.employer job =? actor)%nat
      then (res 403 "Not authorized to update this job", st)
      else if negb (Job.Status_eqb (Job.status job) Job.active)
      then (res 400 "Cannot update job that is not active", st)
      else (res 200 "Job updated successfully",
            Job_save st (findByIdAndUpdate body job))
  end.

(** ** Requests *)

(** The requests of the job lifecycle, and the server that handles them
    one after the other. *)
Inductive Request :=
| PostApplication (actor jobId : ObjectId) (message : option string)
    (proposedPay : option Z) (now : Date) (newId : ObjectId)
| PutApplication (actor jobId applicationId : ObjectId) (action : Action)
    (now : Date)
| DeleteApplication (actor jobId : ObjectId)
| CompleteJob (actor jobId : ObjectId) (now : Date) (newId : ObjectId)
| PutJob (actor id : ObjectId) (body : JobBody).

Definition handle (st : Store) (req : Request) : Response * Store :=
  match req with
  | PostApplication actor jobId message proposedPay now newId =>
      post_application st actor jobId message proposedPay now newId
  | PutApplication actor jobId applicationId action now =>
      put_application st actor jobId applicationId action now
  | DeleteApplication actor jobId => delete_application st actor jobId
  | CompleteJob actor jobId now newId => complete_job st actor jobId now newId
  | PutJob actor id body => put_job st actor id body
  end.

Definition serve (st : Store) (reqs : list Request) : Store :=
  fold_left (fun s req => snd (handle s req)) reqs st.

(** The application-mutating requests: apply, accept, reject, withdraw and
    delete-withdraw. *)
Definition application_request (req : Request) : Prop :=
  match req with
  | PostApplication _ _ _ _ _ _ | PutApplication _ _ _ _ _
  | DeleteApplication _ _ => True
  | _ => False
  end.

(** A job update that leaves [status] and [selectedWorker] alone. *)
Definition keeps_lifecycle_fields (req : Request) : Prop :=
  match req with
  | PutJob _ _ body => b_status body = None /\ b_selectedWorker body = None
  | _ => True
  end.

(** ** Invariants of a job *)

(** [applicationsCount == len(applications)] *)
Definition count_ok (j : Job.t) : Prop :=
  Job.applicationsCount j = Z.of_nat (List.length (Job.applications j)).

(** [selectedWorker != null] iff [status] is [in_progress] or
    [completed]. *)
Definition selected_iff (j : Job.t) : Prop :=
  Job.selectedWorker j <> None <->
  (Job.status j = Job.in_progress \/ Job.status j = Job.completed).

(** At most one application per worker on a job. *)
Definition one_per_worker (j : Job.t) : Prop :=
  NoDup (map Application.worker (Job.applications j)).

(** ** Sample data *)

Module Sample.
Definition no_completion : Completion.t :=
  Completion.mk None None Rating.empty Rating.empty.
Definition no_payment : Payment.t :=
  Payment.mk Payment.pending None None None.

(** A job as [POST /api/jobs] creates it: employer 1, pay 25 USD. *)
Definition job (status : Job.Status) (apps : list Application.t)
    (selectedWorker : option ObjectId) : Job.t :=
  Job.mk 1 "Move boxes" 1 "Acme" (Pay.mk 25 "USD") status apps
    selectedWorker no_completion no_payment
    (Z.of_nat (List.length apps)) 1000.

Definition application (status : Application.Status) : Application.t :=
  Application.mk 10 2 status 3 None (Some 30).

Definition user (id : ObjectId) (balance : Z) : User.t :=
  User.mk id (Wallet.mk balance "USD") [PaymentMethod.mk 7 "Bank"]
    (Stats.mk 0 0 0%float 0).

Definition store (j : Job.t) : Store :=
  mkStore [user 1 0; user 2 0] [j] [].

(** A newly created job, without applications. *)
Definition fresh : Store := store (job Job.active [] None).

(** An active job on which worker 2 has a withdrawn application. *)
Definition with_withdrawn : Store :=
  store (job Job.active [application Application.withdrawn] None).

(** An active job on which worker 2 has a pending application. *)
Definition with_pending : Store :=
  store (job Job.active [application Application.pending] None).

(** A job in progress: the application of worker 2 was accepted. *)
Definition with_accepted : Store :=
  store (job Job.in_progress [application Application.accepted] (Some 2%nat)).
End Sample.

Module SampleLedger.
(** Worker 2 has earned 250, and the cached balance says so. *)
Definition earning : Transaction.t :=
  Transaction.mk 20 (Some 2%nat) Transaction.earned 250 "USD" "Earlier job"
    None None Transaction.completed None None None.

Definition ledger : Store :=
  mkStore [Sample.user 1 0; Sample.user 2 250] [] [earning].

(** The job of [Sample.with_accepted], with that ledger. *)
Definition in_progress : Store :=
  mkStore [Sample.user 1 0; Sample.user 2 250]
    (jobs Sample.with_accepted) [earning].

(** The pending entry of a request of worker 2 to withdraw 200. *)
Definition withdrawal (newId : ObjectId) : Transaction.t :=
  Transaction.mk newId (Some 2%nat) Transaction.withdrawal (-200) "USD"
    "Withdrawal to Bank" None (Some 7%nat) Transaction.pending None None None.

(** Worker 2 asks twice to withdraw 200 of the 250 earned, and both
    withdrawals are settled: the completed entries sum to -150. *)
Definition requested_once : Store :=
  snd (fst (post_withdraw in_progress 2 200 7 21)).
End SampleLedger.

Module SampleRatings.
(** The job of worker 2 is completed and nobody has rated yet. *)
Definition completed : Store :=
  Sample.store
    (Sample.job Job.completed [Sample.application Application.accepted]
       (Some 2%nat)).

(** Worker 2 rates with 2, employer 1 rates the worker with 5, then
    changes that rating to 3. *)
Definition worker_rated : Store := snd (post_rating completed 2 1 2 None 10).
Definition both_rated : Store := snd (post_rating worker_rated 1 1 5 None 11).
Definition employer_updated : Store :=
  snd (put_rating both_rated 1 1 3 None 12).
End SampleRatings.

(** The stored statistics of a user. *)
Definition stats_of (st : Store) (id : ObjectId) : option Stats.t :=
  option_map User.stats (User_findById st id).

(** The stored completion record of a job. *)
Definition completion_of (st : Store) (id : ObjectId) : option Completion.t :=
  option_map Job.completion (Job_findById st id).

(** The body [{ status: 'in_progress' }] of a job update. *)
Definition body_status (s : Job.Status) : JobBody :=
  mkJobBody None None None None (Some s) None None None None None None.

(** The body [{ applicationsCount: ... }] of a job update. *)
Definition body_applicationsCount (n : Z) : JobBody :=
  mkJobBody None None None None None None None None None (Some n) None.

(** The body [{ title: ... }] of a job update. *)
Definition body_title (t : string) : JobBody :=
  mkJobBody (Some t) None None None None None None None None None None.

(** * Further handlers *)

From Stdlib Require Import Ascii DecimalString HexadecimalString HexadecimalNat.
From Stdlib Require Import Permutation Sorted.

(** ** routes/jobs.js: deletion *)

(** [Job.findByIdAndDelete(id)]: the first document with that [_id] is
    removed. *)
Fixpoint remove_job (id : ObjectId) (l : list Job.t) : list Job.t :=
  match l with
  | [] => []
  | j :: rest =>
      if (Job._id j =? id)%nat then rest else j :: remove_job id rest
  end.

Definition Job_findByIdAndDelete (st : Store) (id : ObjectId) : Store :=
  mkStore (users st) (remove_job id (jobs st)) (transactions st).

(** [DELETE /api/jobs/:id] *)
Definition delete_job (st : Store) (actor id : ObjectId) : Response * Store :=
  match Job_findById st id with
  | None => (res 404 "Job not found", st)
  | Some job =>
      if negb (Job.employer job =? actor)%nat
      then (res 403 "Not authorized to delete this job", st)
      else if negb (Job.Status_eqb (Job.status job) Job.active)
      then (res 400 "Cannot delete job that is not active", st)
      else (res 200 "Job deleted successfully", Job_findByIdAndDelete st id)
  end.

(** ** The whole API *)

(** Every request modelled, and the deferred settlement of a withdrawal
    (the [setTimeout] callback) as an event of its own. *)
Inductive ApiRequest :=
| Lifecycle (req : Request)
| DeleteJob (actor id : ObjectId)
| PostRating (actor jobId : ObjectId) (rating : Z) (review : option string)
    (now : Date)
| PutRating (actor jobId : ObjectId) (rating : Z) (review : option string)
    (now : Date)
| DeleteRating (actor jobId : ObjectId)
| PostWithdraw (actor : ObjectId) (amount : Z) (paymentMethodId newId : ObjectId)
| Settlement (now : Date) (transaction : Transaction.t).

Definition api_step (st : Store) (req : ApiRequest) : Store :=
  match req with
  | Lifecycle r => snd (handle st r)
  | DeleteJob actor id => snd (delete_job st actor id)
  | PostRating actor jobId rating review now =>
      snd (post_rating st actor jobId rating review now)
  | PutRating actor jobId rating review now =>
      snd (put_rating st actor jobId rating review now)
  | DeleteRating actor jobId => snd (delete_rating st actor jobId)
  | PostWithdraw actor amount paymentMethodId newId =>
      snd (fst (post_withdraw st actor amount paymentMethodId newId))
  | Settlement now transaction => withdraw_settlement st now transaction
  end.

Definition api_serve (st : Store) (reqs : list ApiRequest) : Store :=
  fold_left api_step reqs st.

(** The ledger entries that refer to a job. *)
Definition entries_for_job (st : Store) (id : ObjectId) : list Transaction.t :=
  filter (fun x => option_eqb (Transaction.job x) id) (transactions st).

(** What one request may do to a stored job: nothing to its status and
    selected worker, anything when the job was [active], or the step from
    [in_progress] to [completed] with the selected worker kept. *)
Definition moved (job job' : Job.t) : Prop :=
  Job.status job = Job.active \/
  (Job.status job' = Job.status job /\
   Job.selectedWorker job' = Job.selectedWorker job) \/
  (Job.status job = Job.in_progress /\ Job.status job' = Job.completed /\
   Job.selectedWorker job' = Job.selectedWorker job).

(** The effect of a request on the collection of jobs. *)
Definition jobs_moved (st st' : Store) : Prop :=
  jobs st' = jobs st \/
  (exists job job',
     Job_findById st (Job._id job') = Some job /\
     jobs st' = jobs (Job_save st job') /\ moved job job') \/
  (exists id job,
     Job_findById st id = Some job /\ Job.status job = Job.active /\
     jobs st' = remove_job id (jobs st)).

(** The requests reserved to the employer of the job, with their actor and
    job: accept and reject of an application, completion, update and
    deletion of the job. *)
Definition employer_request (req : ApiRequest) : option (ObjectId * ObjectId) :=
  match req with
  | Lifecycle (PutApplication actor jobId _ accept _)
  | Lifecycle (PutApplication actor jobId _ reject _)
  | Lifecycle (CompleteJob actor jobId _ _)
  | Lifecycle (PutJob actor jobId _)
  | DeleteJob actor jobId => Some (actor, jobId)
  | _ => None
  end.

(** The same withdrawal requested once for every fresh [_id] of the
    list. *)
Definition repeat_withdraw (st : Store) (actor : ObjectId) (amount : Z)
    (paymentMethodId : ObjectId) (newIds : list ObjectId) : Store :=
  fold_left
    (fun s newId => snd (fst (post_withdraw s actor amount paymentMethodId newId)))
    newIds st.

(** The entry that a withdrawal request adds. *)
Definition withdrawal_entry (actor : ObjectId) (amount : Z) (currency : string)
    (paymentMethod : PaymentMethod.t) (newId : ObjectId) : Transaction.t :=
  Transaction.mk newId (Some actor) Transaction.withdrawal (- amount) currency
    ("Withdrawal to " ++ PaymentMethod.name paymentMethod)%string
    None (Some (PaymentMethod._id paymentMethod)) Transaction.pending
    None None None.

(** ** routes/payments.js: payment methods *)

(** The sub-documents of [user.paymentMethods] with all their paths.  The
    three handlers below read the user of the request, work on this array
    and save the user; they are modelled on the array. *)
Module Method.
Inductive Kind := card | bank.

Record t := mk {
  _id : ObjectId;
  type : Kind;
  name : string;
  last4 : string;
  isDefault : bool;
  stripePaymentMethodId : option string
}.

Definition set_name (x : string) (m : t) : t :=
  mk (_id m) (type m) x (last4 m) (isDefault m) (stripePaymentMethodId m).
Definition set_isDefault (x : bool) (m : t) : t :=
  mk (_id m) (type m) (name m) (last4 m) x (stripePaymentMethodId m).

(** [user.paymentMethods.id(id)] *)
Definition id (methods : list t) (i : ObjectId) : option t :=
  find (fun m => _id m =? i)%nat methods.

(** Assignment to a path of the sub-document that [id] returned. *)
Fixpoint update (i : ObjectId) (f : t -> t) (methods : list t) : list t :=
  match methods with
  | [] => []
  | m :: rest =>
      if (_id m =? i)%nat then f m :: rest else m :: update i f rest
  end.
End Method.

(** Truthiness of an optional boolean of the body. *)
Definition truthy_flag (b : option bool) : bool :=
  match b with
  | Some true => true
  | _ => false
  end.

(** [POST /api/payments/add-payment-method].  [isDefault] is bound with
    [const] when the body is destructured; for a user without payment
    methods the handler assigns to it, which throws, and the [catch]
    answers 500 before anything is saved. *)
Definition add_payment_method (methods : list Method.t) (type : Method.Kind)
    (name last4 : string) (stripePaymentMethodId : option string)
    (isDefault : option bool) (newId : ObjectId)
    : Response * list Method.t :=
  if (List.length methods =? 0)%nat
  then (res 500 "Server error", methods)
  else
    let methods1 :=
      if truthy_flag isDefault
      then map (Method.set_isDefault false) methods
      else methods in
    (res 200 "Payment method added successfully",
     methods1 ++
     [Method.mk newId type name last4 (truthy_flag isDefault)
        stripePaymentMethodId]).

(** [user.paymentMethods[0].isDefault = true] *)
Definition set_first_default (methods : list Method.t) : list Method.t :=
  match methods with
  | [] => []
  | m :: rest => Method.set_isDefault true m :: rest
  end.

Inductive MethodRequest :=
| AddMethod (type : Method.Kind) (name last4 : string)
    (stripePaymentMethodId : option string) (isDefault : option bool)
    (newId : ObjectId)
| PutMethod (id : string) (name : option string) (isDefault : option bool)
| DeleteMethod (id : string).

Section PathParameter.

(** The [:id] of a path is a string, and the two handlers below use it in
    two ways.  [paymentMethods.id(req.params.id)] casts it to an ObjectId
    and compares ObjectIds: [castObjectId], which reads hexadecimal
    digits in either case ([None]: the string does not cast, and nothing
    is found).  [method._id.toString() !== req.params.id] compares
    strings: [toString] prints the digits in lower case.  Both belong to
    the driver and are parameters here. *)
Variable toString : ObjectId -> string.
Variable castObjectId : string -> option ObjectId.

(** [user.paymentMethods.id(req.params.id)] *)
Definition paymentMethods_id (methods : list Method.t) (id : string)
    : option Method.t :=
  match castObjectId id with
  | Some i => Method.id methods i
  | None => None
  end.

(** Assignment to a path of the sub-document that [paymentMethods_id]
    returned. *)
Definition paymentMethods_update (id : string) (f : Method.t -> Method.t)
    (methods : list Method.t) : list Method.t :=
  match castObjectId id with
  | Some i => Method.update i f methods
  | None => methods
  end.

(** [PUT /api/payments/payment-method/:id] *)
Definition put_payment_method (methods : list Method.t) (id : string)
    (name : option string) (isDefault : option bool)
    : Response * list Method.t :=
  match paymentMethods_id methods id with
  | None => (res 404 "Payment method not found", methods)
  | Some _ =>
      let methods1 :=
        match name with
        | Some n => paymentMethods_update id (Method.set_name n) methods
        | None => methods
        end in
      let methods2 :=
        match isDefault with
        | None => methods1
        | Some d =>
            paymentMethods_update id (Method.set_isDefault d)
              (if d then map (Method.set_isDefault false) methods1
               else methods1)
        end in
      (res 200 "Payment method updated successfully", methods2)
  end.

(** [DELETE /api/payments/payment-method/:id]: the method is looked up by
    ObjectId and removed by string. *)
Definition delete_payment_method (methods : list Method.t) (id : string)
    : Response * list Method.t :=
  match paymentMethods_id methods id with
  | None => (res 404 "Payment method not found", methods)
  | Some paymentMethod =>
      if Method.isDefault paymentMethod && (1 <? List.length methods)%nat
      then (res 400
              "Cannot delete default payment method. Set another as default first.",
            methods)
      else
        let methods1 :=
          filter
            (fun method =>
               negb (String.eqb (toString (Method._id method)) id))
            methods in
        let methods2 :=
          if (0 <? List.length methods1)%nat
             && negb (existsb Method.isDefault methods1)
          then set_first_default methods1
          else methods1 in
        (res 200 "Payment method removed successfully", methods2)
  end.

Definition handle_method (methods : list Method.t) (req : MethodRequest)
    : Response * list Method.t :=
  match req with
  | AddMethod type name last4 stripe isDefault newId =>
      add_payment_method methods type name last4 stripe isDefault newId
  | PutMethod id name isDefault => put_payment_method methods id name isDefault
  | DeleteMethod id => delete_payment_method methods id
  end.

Definition serve_methods (methods : list Method.t) (reqs : list MethodRequest)
    : list Method.t :=
  fold_left (fun ms req => snd (handle_method ms req)) reqs methods.

End PathParameter.

(** Letters in lower case: route paths are matched, and hexadecimal
    digits are read, without regard to case. *)
Definition lower_ascii (c : Ascii.ascii) : Ascii.ascii :=
  let n := Ascii.nat_of_ascii c in
  if ((65 <=? n) && (n <=? 90))%nat then Ascii.ascii_of_nat (n + 32) else c.

Fixpoint lower (s : string) : string :=
  match s with
  | EmptyString => EmptyString
  | String c rest => String (lower_ascii c) (lower rest)
  end.

(** An instance of the two parameters for the examples: the number of
    an ObjectId printed in hexadecimal with lower-case digits, and read
    back in either case.  (The fixed length of 24 digits is left out.) *)
Definition hex_toString (i : ObjectId) : string :=
  HexadecimalString.NilEmpty.string_of_uint (Nat.to_hex_uint i).
Definition hex_castObjectId (s : string) : option ObjectId :=
  option_map Nat.of_hex_uint
    (HexadecimalString.NilEmpty.uint_of_string (lower s)).

(** The number of default payment methods. *)
Definition defaults (methods : list Method.t) : nat :=
  List.length (filter Method.isDefault methods).

(** ** routes/notifications.js *)

Module Notification.
Record t := mk {
  id : string;
  userId : ObjectId;
  type : string;
  title : string;
  message : string;
  data : string;
  read : bool;
  readAt : option Date;
  createdAt : Date
}.

Definition set_read (now : Date) (n : t) : t :=
  mk (id n) (userId n) (type n) (title n) (message n) (data n) true (Some now)
     (createdAt n).
End Notification.

(** Helper [createNotification(userId, type, title, message, data)]: the
    identifier is [notif_], the clock in decimal, [_] and a random suffix
    ([rnd]); the new notification is pushed and returned. *)
Definition createNotification (notifications : list Notification.t)
    (userId : ObjectId) (type title message data : string)
    (now : Date) (rnd : string)
    : list Notification.t * Notification.t :=
  let notification :=
    Notification.mk
      ("notif_" ++ DecimalString.NilZero.string_of_int (Z.to_int now) ++ "_" ++ rnd)%string
      userId type title message data false None now in
  (notifications ++ [notification], notification).

(** [Array.prototype.slice(start, end)]: a negative index counts from the
    end, and both are clamped to the array. *)
Definition clamp (len : nat) (i : Z) : nat :=
  if i <? 0 then Z.to_nat (Z.max (Z.of_nat len + i) 0)
  else Nat.min (Z.to_nat i) len.

Definition js_slice {A : Type} (start finish : Z) (l : list A) : list A :=
  let from := clamp (List.length l) start in
  let to := clamp (List.length l) finish in
  firstn (to - from) (skipn from l).

(** [Array.prototype.sort] with the comparator [key(b) - key(a)]: a stable
    sort, largest key first. *)
Fixpoint insert_desc {A : Type} (key : A -> Z) (x : A) (l : list A) : list A :=
  match l with
  | [] => [x]
  | y :: rest =>
      if key y <=? key x then x :: y :: rest
      else y :: insert_desc key x rest
  end.

Definition sort_desc {A : Type} (key : A -> Z) (l : list A) : list A :=
  fold_right (insert_desc key) [] l.

(** [Math.ceil(total / limit)]; [None] is a result that is not a finite
    number (division by zero). *)
Definition ceil_div (total : nat) (limit : Z) : option Z :=
  if limit =? 0 then None else Some (- ((- Z.of_nat total) / limit)).

(** The list that [GET /api/notifications] pages through. *)
Definition user_notifications (notifications : list Notification.t)
    (actor : ObjectId) (unreadOnly : bool) : list Notification.t :=
  let userNotifications :=
    filter (fun n => Notification.userId n =? actor)%nat notifications in
  let userNotifications :=
    if unreadOnly
    then filter (fun n => negb (Notification.read n)) userNotifications
    else userNotifications in
  sort_desc Notification.createdAt userNotifications.

(** The numbers that [GET /api/notifications] makes of the query strings
    [page] and [limit] (defaults 1 and 20).  It does so in two ways:
    [(page - 1) * limit] and [total / limit] coerce the strings as
    [Number(...)] does, while the length of the slice is
    [parseInt(limit)].  The record holds the three numbers of a request
    on which they are integers.  On a decimal literal the two readings of
    [limit] agree; on [limit=1e1] they are 10 and 1.  A request on which
    one of them is not an integer ([limit=2.5], [limit=abc]) is outside
    the model. *)
Record Paging := mkPaging {
  Number_page : Z;
  Number_limit : Z;
  parseInt_limit : Z
}.

(** A query string that is a decimal literal of at most 15 digits:
    [Number(s)] and [parseInt(s)] are both the integer that it denotes,
    which is exact as a JavaScript number. *)
Definition decimal (s : string) : option Z :=
  if (String.length s <=? 15)%nat
  then option_map Z.of_uint (DecimalString.NilZero.uint_of_string s)
  else None.

(** The numbers of a request whose [page] and [limit] are absent or
    decimal literals. *)
Definition paging_of_query (page limit : option string) : option Paging :=
  let page := match page with Some s => decimal s | None => Some 1 end in
  let limit := match limit with Some s => decimal s | None => Some 20 end in
  match page, limit with
  | Some p, Some l => Some (mkPaging p l l)
  | _, _ => None
  end.

(** [GET /api/notifications]: the page, [total] and [pages]. *)
Definition get_notifications (notifications : list Notification.t)
    (actor : ObjectId) (query : Paging) (unreadOnly : bool)
    : list Notification.t * nat * option Z :=
  let userNotifications := user_notifications notifications actor unreadOnly in
  let skip := (Number_page query - 1) * Number_limit query in
  let total := List.length userNotifications in
  (js_slice skip (skip + parseInt_limit query) userNotifications, total,
   ceil_div total (Number_limit query)).

(** The test [n.id === id && n.userId === req.user._id.toString()]. *)
Definition is_own (actor : ObjectId) (id : string) (n : Notification.t) : bool :=
  String.eqb (Notification.id n) id && (Notification.userId n =? actor)%nat.

(** Assignment to the element that [find] returned. *)
Fixpoint update_found {A : Type} (p : A -> bool) (f : A -> A) (l : list A)
  : list A :=
  match l with
  | [] => []
  | x :: rest => if p x then f x :: rest else x :: update_found p f rest
  end.

(** [splice(index, 1)] at the index that [findIndex] returned. *)
Fixpoint remove_found {A : Type} (p : A -> bool) (l : list A) : list A :=
  match l with
  | [] => []
  | x :: rest => if p x then rest else x :: remove_found p rest
  end.

(** [PUT /api/notifications/:id/read] *)
Definition mark_read (notifications : list Notification.t) (actor : ObjectId)
    (id : string) (now : Date) : Response * list Notification.t :=
  match find (is_own actor id) notifications with
  | None => (res 404 "Notification not found", notifications)
  | Some _ =>
      (res 200 "Notification marked as read",
       update_found (is_own actor id) (Notification.set_read now) notifications)
  end.

(** [PUT /api/notifications/read-all] *)
Definition read_all (notifications : list Notification.t) (actor : ObjectId)
    (now : Date) : Response * list Notification.t :=
  (res 200 "All notifications marked as read",
   map (fun n => if (Notification.userId n =? actor)%nat
                 then Notification.set_read now n else n) notifications).

(** [DELETE /api/notifications/:id] *)
Definition delete_notification (notifications : list Notification.t)
    (actor : ObjectId) (id : string) : Response * list Notification.t :=
  match find (is_own actor id) notifications with
  | None => (res 404 "Notification not found", notifications)
  | Some _ =>
      (res 200 "Notification deleted successfully",
       remove_found (is_own actor id) notifications)
  end.

(** [DELETE /api/notifications/clear-all] *)
Definition clear_all (notifications : list Notification.t) (actor : ObjectId)
    : Response * list Notification.t :=
  (res 200 "All notifications cleared",
   filter (fun n => negb (Notification.userId n =? actor)%nat) notifications).

(** [GET /api/notifications/unread-count] *)
Definition unread_count (notifications : list Notification.t)
    (actor : ObjectId) : nat :=
  List.length
    (filter (fun n => (Notification.userId n =? actor)%nat
                      && negb (Notification.read n)) notifications).

(** ** Route tables *)

Inductive HttpMethod := GET | POST | PUT | DELETE.

Definition HttpMethod_eqb (a b : HttpMethod) : bool :=
  match a, b with
  | GET, GET | POST, POST | PUT, PUT | DELETE, DELETE => true
  | _, _ => false
  end.

(** A segment of a route path: a literal or a parameter [:name]. *)
Inductive Segment := Lit (s : string) | Param (name : string).

(** A path, as its non-empty segments, against a route path; the result
    is [req.params]. *)
Fixpoint match_path (pattern : list Segment) (path : list string)
  : option (list (string * string)) :=
  match pattern, path with
  | [], [] => Some []
  | Lit s :: pattern', x :: path' =>
      if String.eqb (lower s) (lower x) then match_path pattern' path'
      else None
  | Param name :: pattern', x :: path' =>
      if String.eqb x "" then None
      else option_map (cons (name, x)) (match_path pattern' path')
  | _, _ => None
  end.

(** A router answers with the first route, in the order of registration,
    whose method and path match. *)
Fixpoint dispatch {H : Type} (routes : list (HttpMethod * list Segment * H))
    (method : HttpMethod) (path : list string)
  : option (H * list (string * string)) :=
  match routes with
  | [] => None
  | (m, pattern, h) :: rest =>
      if HttpMethod_eqb m method
      then match match_path pattern path with
           | Some params => Some (h, params)
           | None => dispatch rest method path
           end
      else dispatch rest method path
  end.

Inductive NotificationRoute :=
| NotificationList | NotificationRead | NotificationReadAll
| NotificationDelete | NotificationClearAll | NotificationUnreadCount.

(** The routes of routes/notifications.js, in the order of the file. *)
Definition notification_routes
  : list (HttpMethod * list Segment * NotificationRoute) :=
  [ (GET, [], NotificationList);
    (PUT, [Param "id"; Lit "read"], NotificationRead);
    (PUT, [Lit "read-all"], NotificationReadAll);
    (DELETE, [Param "id"], NotificationDelete);
    (DELETE, [Lit "clear-all"], NotificationClearAll);
    (GET, [Lit "unread-count"], NotificationUnreadCount) ].

Inductive UserRoute :=
| UserProfile | UserPutProfile | UserById | UserJobs | UserUploadAvatar
| UserVerify | UserPreferences | UserDeleteAccount.

(** The routes of routes/users.js, in the order of the file. *)
Definition user_routes : list (HttpMethod * list Segment * UserRoute) :=
  [ (GET, [Lit "profile"], UserProfile);
    (PUT, [Lit "profile"], UserPutProfile);
    (GET, [Param "id"], UserById);
    (GET, [Lit "jobs"], UserJobs);
    (POST, [Lit "upload-avatar"], UserUploadAvatar);
    (POST, [Lit "verify"], UserVerify);
    (PUT, [Lit "preferences"], UserPreferences);
    (DELETE, [Lit "account"], UserDeleteAccount) ].

(** A request to the notifications router: the answer and the
    notifications after the handler that the router selects (the listing
    and the count change nothing; a path without route falls through to
    the 404 of the application). *)
Definition notifications_api (notifications : list Notification.t)
    (actor : ObjectId) (method : HttpMethod) (path : list string) (now : Date)
    : Response * list Notification.t :=
  match dispatch notification_routes method path with
  | None => (res 404 "Route not found", notifications)
  | Some (NotificationList, _) => (res 200 "", notifications)
  | Some (NotificationUnreadCount, _) => (res 200 "", notifications)
  | Some (NotificationRead, params) =>
      match params with
      | (_, id) :: _ => mark_read notifications actor id now
      | [] => (res 500 "Server error", notifications)
      end
  | Some (NotificationReadAll, _) => read_all notifications actor now
  | Some (NotificationDelete, params) =>
      match params with
      | (_, id) :: _ => delete_notification notifications actor id
      | [] => (res 500 "Server error", notifications)
      end
  | Some (NotificationClearAll, _) => clear_all notifications actor
  end.

(** The identifiers that [createNotification] makes start with
    [notif_]. *)
Definition made_here (n : Notification.t) : Prop :=
  String.prefix "notif_" (Notification.id n) = true.

(** ** socket.js: presence *)

Definition SocketId := nat.
Bind Scope nat_scope with SocketId.

(** A JavaScript [Map] with user ids as keys, as the list of its
    entries. *)
Fixpoint Map_set {V : Type} (k : ObjectId) (v : V) (m : list (ObjectId * V))
  : list (ObjectId * V) :=
  match m with
  | [] => [(k, v)]
  | (k', v') :: rest =>
      if (k' =? k)%nat then (k, v) :: rest else (k', v') :: Map_set k v rest
  end.

Definition Map_get {V : Type} (k : ObjectId) (m : list (ObjectId * V))
  : option V :=
  option_map snd (find (fun e => fst e =? k)%nat m).

Definition Map_delete {V : Type} (k : ObjectId) (m : list (ObjectId * V))
  : list (ObjectId * V) :=
  filter (fun e => negb (fst e =? k)%nat) m.

(** The sockets that are open, each with the user that the handshake
    authenticated, and the [connectedUsers] map of the module. *)
Record Presence := mkPresence {
  live : list (SocketId * ObjectId);
  connectedUsers : list (ObjectId * SocketId)
}.

(** [io.on('connection', ...)] for a new socket of a user. *)
Definition on_connection (p : Presence) (socket : SocketId) (user : ObjectId)
  : Presence :=
  mkPresence (live p ++ [(socket, user)])
    (Map_set user socket (connectedUsers p)).

(** [socket.on('disconnect', ...)] of a socket of a user. *)
Definition on_disconnect (p : Presence) (socket : SocketId) (user : ObjectId)
  : Presence :=
  mkPresence
    (filter (fun e => negb (fst e =? socket)%nat) (live p))
    (Map_delete user (connectedUsers p)).

(** [emitToUser(userId, event, data)]: the socket that the event is sent
    to, if any. *)
Definition emitToUser (p : Presence) (userId : ObjectId) : option SocketId :=
  Map_get userId (connectedUsers p).

(** The states of the module: sockets connect with a fresh id and
    disconnect once. *)
Inductive presence_reachable : Presence -> Prop :=
| presence_start : presence_reachable (mkPresence [] [])
| presence_connect p socket user :
    presence_reachable p -> ~ In socket (map fst (live p)) ->
    presence_reachable (on_connection p socket user)
| presence_disconnect p socket user :
    presence_reachable p -> In (socket, user) (live p) ->
    presence_reachable (on_disconnect p socket user).

(** ** middleware/auth.js and the handshake of socket.js *)

Module Account.
Record t := mk {
  _id : ObjectId;
  email : string;
  phone : option string;
  isActive : bool;
  isBanned : bool;
  isVerified : bool
}.
End Account.

Definition Account_findById (accounts : list Account.t) (id : ObjectId)
  : option Account.t :=
  find (fun u => Account._id u =? id)%nat accounts.

(** What [jwt.verify] does with a token: the decoded [userId], or the
    error it throws. *)
Inductive Verified :=
| Decoded (userId : ObjectId)
| JsonWebTokenError
| TokenExpiredError
| OtherError.

(** What a middleware does: call [next()] with [req.user] set, or
    answer. *)
Inductive AuthResult :=
| Next (user : Account.t)
| Reject (code : nat) (message : string).

Definition no_token (token : option string) : bool :=
  match token with
  | None => true
  | Some t => String.eqb t ""
  end.

Section Auth.

Variable verify : string -> Verified.
Variable accounts : list Account.t.

(** Middleware [auth]; [token] is the Authorization header without
    [Bearer ]. *)
Definition auth (token : option string) : AuthResult :=
  match token with
  | None => Reject 401 "Access denied. No token provided."
  | Some t =>
      if String.eqb t "" then Reject 401 "Access denied. No token provided."
      else
        match verify t with
        | JsonWebTokenError => Reject 401 "Invalid token."
        | TokenExpiredError => Reject 401 "Token expired."
        | OtherError => Reject 500 "Internal server error."
        | Decoded userId =>
            match Account_findById accounts userId with
            | None => Reject 401 "Invalid token. User not found."
            | Some user =>
                if negb (Account.isActive user)
                then Reject 401 "Account is deactivated."
                else if Account.isBanned user
                then Reject 403 "Account is banned."
                else Next user
            end
        end
  end.

(** Middleware [optionalAuth]: [req.user] when [next()] is called, which
    is always. *)
Definition optionalAuth (token : option string) : option Account.t :=
  match token with
  | None => None
  | Some t =>
      if String.eqb t "" then None
      else
        match verify t with
        | Decoded userId =>
            match Account_findById accounts userId with
            | Some user =>
                if Account.isActive user && negb (Account.isBanned user)
                then Some user else None
            | None => None
            end
        | _ => None
        end
  end.

(** The middleware of [io.use]: [socket.user] when the handshake is
    accepted, [None] for [Authentication error]. *)
Definition socket_auth (token : option string) : option Account.t :=
  match token with
  | None => None
  | Some t =>
      if String.eqb t "" then None
      else
        match verify t with
        | Decoded userId =>
            match Account_findById accounts userId with
            | None => None
            | Some user =>
                if negb (Account.isActive user) || Account.isBanned user
                then None else Some user
            end
        | _ => None
        end
  end.

(** Middleware [verifiedAuth]. *)
Definition verifiedAuth (token : option string) : AuthResult :=
  match auth token with
  | Next user =>
      if negb (Account.isVerified user)
      then Reject 403 "Account verification required."
      else Next user
  | r => r
  end.

End Auth.

(** ** routes/users.js: account deletion *)

(** The query of the handler: the jobs that are [active] or [in_progress]
    and have the user as employer or as selected worker. *)
Definition engages (userId : ObjectId) (j : Job.t) : bool :=
  let open :=
    Job.Status_eqb (Job.status j) Job.active
    || Job.Status_eqb (Job.status j) Job.in_progress in
  ((Job.employer j =? userId)%nat && open)
  || (option_eqb (Job.selectedWorker j) userId && open).

(** [DELETE /api/users/account] for the authenticated user [reqUser]:
    the account is kept, inactive and with another email. *)
Definition delete_account (accounts : list Account.t) (jobs : list Job.t)
    (reqUser : Account.t) (now : Date) : Response * list Account.t :=
  let activeJobs := filter (engages (Account._id reqUser)) jobs in
  if (0 <? List.length activeJobs)%nat
  then (res 400 "Cannot delete account with active jobs", accounts)
  else
    (res 200 "Account deleted successfully",
     map (fun u =>
            if (Account._id u =? Account._id reqUser)%nat
            then Account.mk (Account._id u)
                   ("deleted_" ++ DecimalString.NilZero.string_of_int (Z.to_int now) ++ "_"
                    ++ Account.email reqUser)%string
                   None false (Account.isBanned u) (Account.isVerified u)
            else u)
       accounts).

(** ** routes/applications.js: the applications of a user *)

(** The [job] object of an item of the listing. *)
Record JobSummary := mkJobSummary {
  s_id : ObjectId;
  s_title : string;
  s_companyName : string;
  s_pay : Pay.t;
  s_status : Job.Status;
  s_employer : ObjectId
}.

(** The query [{ 'applications.worker': actor }], with
    ['applications.status': status] when the request names a status: each
    condition holds when some element of the array meets it. *)
Definition my_filter (actor : ObjectId) (status : option Application.Status)
    (j : Job.t) : bool :=
  existsb (fun app => Application.worker app =? actor)%nat (Job.applications j)
  && match status with
     | Some s =>
         existsb (fun app => Application.Status_eqb (Application.status app) s)
           (Job.applications j)
     | None => true
     end.

(** [GET /api/applications/my]: the items of the page and [total].
    [createdAt] is the creation time of a job document (the model of the
    job does not keep it); [limit(0)] is no limit; a page below 1 makes
    the query fail ([None]). *)
Definition my_applications (createdAt : Job.t -> Date) (st : Store)
    (actor : ObjectId) (status : option Application.Status) (page limit : nat)
    : option (list (JobSummary * option Application.t) * nat) :=
  if (page =? 0)%nat && negb (limit =? 0)%nat then None
  else
    let matching := filter (my_filter actor status) (jobs st) in
    let sorted := sort_desc createdAt matching in
    let skipped := skipn ((page - 1) * limit) sorted in
    let found := if (limit =? 0)%nat then skipped else firstn limit skipped in
    Some
      (map (fun job =>
              (mkJobSummary (Job._id job) (Job.title job) (Job.companyName job)
                 (Job.pay job) (Job.status job) (Job.employer job),
               find (fun app => Application.worker app =? actor)%nat
                 (Job.applications job)))
         found,
       List.length matching).

(** * Properties *)

(** ** The store *)

Section StoreLemmas.

Lemma Job_findById_id st id j :
  Job_findById st id = Some j -> Job._id j = id.
Proof.
  unfold Job_findById. intros H.
  apply find_some in H. destruct H as [_ H].
  now apply Nat.eqb_eq in H.
Qed.

Lemma Job_findById_In st id j :
  Job_findById st id = Some j -> In j (jobs st).
Proof.
  unfold Job_findById. intros H. now apply find_some in H.
Qed.

Lemma User_findById_id st id u :
  User_findById st id = Some u -> User._id u = id.
Proof.
  unfold User_findById. intros H.
  apply find_some in H. destruct H as [_ H].
  now apply Nat.eqb_eq in H.
Qed.

(** A saved job is the one found afterwards under its [_id]. *)
Lemma Job_findById_save st id j j' :
  Job_findById st id = Some j -> Job._id j' = id ->
  Job_findById (Job_save st j') id = Some j'.
Proof.
  unfold Job_findById, Job_save. simpl.
  intros Hf Hid. subst id.
  induction (jobs st) as [|j0 l IH]; simpl in *.
  - discriminate.
  - destruct (Job._id j0 =? Job._id j')%nat eqn:E.
    + now rewrite Nat.eqb_refl.
    + rewrite E. now apply IH.
Qed.

Lemma User_findById_save st id u u' :
  User_findById st id = Some u -> User._id u' = id ->
  User_findById (User_save st u') id = Some u'.
Proof.
  unfold User_findById, User_save. simpl.
  intros Hf Hid. subst id.
  induction (users st) as [|u0 l IH]; simpl in *.
  - discriminate.
  - destruct (User._id u0 =? User._id u')%nat eqn:E.
    + now rewrite Nat.eqb_refl.
    + rewrite E. now apply IH.
Qed.

(** A property of all stored jobs survives the save of a job that has
    it. *)
Lemma Forall_Job_save (P : Job.t -> Prop) st j :
  Forall P (jobs st) -> P j -> Forall P (jobs (Job_save st j)).
Proof.
  intros HF Hj. unfold Job_save. simpl.
  induction HF as [|j0 l Hj0 HF IH]; simpl; constructor; auto.
  now destruct (Job._id j0 =? Job._id j)%nat.
Qed.

Lemma Forall_found (P : Job.t -> Prop) st id j :
  Forall P (jobs st) -> Job_findById st id = Some j -> P j.
Proof.
  intros HF Hf. apply Job_findById_In in Hf.
  rewrite Forall_forall in HF. now apply HF.
Qed.

End StoreLemmas.

(** ** Sub-documents of a job *)

Section ApplicationLemmas.

Lemma update_application_length id f apps :
  List.length (Job.update_application id f apps) = List.length apps.
Proof.
  induction apps as [|a l IH]; simpl; auto.
  destruct (Application._id a =? id)%nat; simpl; congruence.
Qed.



Lemma find_worker_map (w : ObjectId) apps :
  find (fun app => Application.worker app =? w)%nat apps = None <->
  ~ In w (map Application.worker apps).
Proof.
  induction apps as [|a l IH]; simpl.
  - tauto.
  - destruct (Application.worker a =? w)%nat eqn:E.
    + apply Nat.eqb_eq in E. split; [discriminate | tauto].
    + apply Nat.eqb_neq in E. rewrite IH. tauto.
Qed.

End ApplicationLemmas.

(** ** applicationsCount *)

Section ApplicationsCount.

Lemma post_application_count_ok st actor jobId message proposedPay now newId :
  Forall count_ok (jobs st) ->
  Forall count_ok
    (jobs (snd (post_application st actor jobId message proposedPay now newId))).
Proof.
  intros HF. unfold post_application.
  destruct (Job_findById st jobId) as [job|] eqn:Hj; cbn [snd]; auto.
  unfold Job.apply.
  destruct (negb (Job.canApply now job actor)); cbn [snd]; auto.
  apply Forall_Job_save; auto. reflexivity.
Qed.

Lemma put_application_count_ok st actor jobId applicationId action now :
  Forall count_ok (jobs st) ->
  Forall count_ok
    (jobs (snd (put_application st actor jobId applicationId action now))).
Proof.
  intros HF. unfold put_application.
  destruct (Job_findById st jobId) as [job|] eqn:Hj; cbn [snd]; auto.
  assert (Hc : count_ok job) by (eapply Forall_found; eauto).
  destruct (Job.applications_id job applicationId) as [application|] eqn:Ha;
    cbn [snd]; auto.
  destruct action.
  - destruct (negb (Job.employer job =? actor)%nat); cbn [snd]; auto.
    destruct (negb (Job.Status_eqb (Job.status job) Job.active)); cbn [snd]; auto.
    unfold Job.acceptApplication. rewrite Ha. cbn [snd].
    repeat apply Forall_Job_save; auto;
      unfold count_ok in *; simpl; now rewrite update_application_length.
  - destruct (negb (Job.employer job =? actor)%nat); cbn [snd]; auto.
    apply Forall_Job_save; auto.
    unfold count_ok in *; simpl; now rewrite update_application_length.
  - destruct (negb (Application.worker application =? actor)%nat); cbn [snd]; auto.
    apply Forall_Job_save; auto.
    unfold count_ok in *; simpl; now rewrite update_application_length.
Qed.

Lemma delete_application_count_ok st actor jobId :
  Forall count_ok (jobs st) ->
  Forall count_ok (jobs (snd (delete_application st actor jobId))).
Proof.
  intros HF. unfold delete_application.
  destruct (Job_findById st jobId) as [job|] eqn:Hj; cbn [snd]; auto.
  destruct (find _ (Job.applications job)) as [userApplication|]; cbn [snd]; auto.
  destruct (negb _); cbn [snd]; auto.
  apply Forall_Job_save; auto. reflexivity.
Qed.

(** Apply and delete-withdraw assign the length: the job they save has
    the invariant whatever the count was before. *)
Lemma post_application_sets_count
    st actor jobId message proposedPay now newId job' :
  code (fst (post_application st actor jobId message proposedPay now newId))
  = 201%nat ->
  Job_findById
    (snd (post_application st actor jobId message proposedPay now newId)) jobId
  = Some job' ->
  count_ok job'.
Proof.
  unfold post_application.
  destruct (Job_findById st jobId) as [job|] eqn:Hj; [|discriminate].
  unfold Job.apply.
  destruct (negb (Job.canApply now job actor)); [discriminate|].
  cbn [fst snd]. intros _ Hf.
  erewrite Job_findById_save in Hf; eauto.
  - injection Hf as <-. reflexivity.
  - simpl. eapply Job_findById_id; eauto.
Qed.

Lemma delete_application_sets_count st actor jobId job' :
  code (fst (delete_application st actor jobId)) = 200%nat ->
  Job_findById (snd (delete_application st actor jobId)) jobId = Some job' ->
  count_ok job'.
Proof.
  unfold delete_application.
  destruct (Job_findById st jobId) as [job|] eqn:Hj; [|discriminate].
  destruct (find _ (Job.applications job)) as [userApplication|];
    [|discriminate].
  destruct (negb _); [discriminate|].
  cbn [fst snd]. intros _ Hf.
  erewrite Job_findById_save in Hf; eauto.
  - injection Hf as <-. reflexivity.
  - simpl. eapply Job_findById_id; eauto.
Qed.

Lemma handle_count_ok st req :
  application_request req ->
  Forall count_ok (jobs st) -> Forall count_ok (jobs (snd (handle st req))).
Proof.
  destruct req; simpl; intros Hreq HF; try contradiction.
  - now apply post_application_count_ok.
  - now apply put_application_count_ok.
  - now apply delete_application_count_ok.
Qed.

(** C9, the code's rule.  A successful apply appends the application and
    a successful delete-withdraw removes the applications of the worker,
    and both assign the new length to [applicationsCount], whatever it
    was before.  A successful accept, reject or withdraw leaves the
    number of applications and [applicationsCount] as they were.  So a
    store in which every job has [applicationsCount] equal to the length
    of [applications] still has it after any sequence of these
    requests. *)
Theorem applicationsCount_is_length st :
  (forall actor jobId message proposedPay now newId,
     code (fst (post_application st actor jobId message proposedPay now newId))
     = 201%nat ->
     exists job job',
       Job_findById st jobId = Some job /\
       Job_findById
         (snd (post_application st actor jobId message proposedPay now newId))
         jobId = Some job' /\
       Job.applications job'
       = Job.applications job ++
         [Application.mk newId actor Application.pending now
            message proposedPay] /\
       Job.applicationsCount job'
       = Z.of_nat (List.length (Job.applications job'))) /\
  (forall actor jobId,
     code (fst (delete_application st actor jobId)) = 200%nat ->
     exists job job',
       Job_findById st jobId = Some job /\
       Job_findById (snd (delete_application st actor jobId)) jobId
       = Some job' /\
       Job.applications job'
       = filter (fun app => negb (Application.worker app =? actor)%nat)
           (Job.applications job) /\
       Job.applicationsCount job'
       = Z.of_nat (List.length (Job.applications job'))) /\
  (forall actor jobId applicationId action now,
     code (fst (put_application st actor jobId applicationId action now))
     = 200%nat ->
     exists job job',
       Job_findById st jobId = Some job /\
       Job_findById
         (snd (put_application st actor jobId applicationId action now)) jobId
       = Some job' /\
       List.length (Job.applications job')
       = List.length (Job.applications job) /\
       Job.applicationsCount job' = Job.applicationsCount job) /\
  (forall reqs,
     Forall application_request reqs ->
     Forall count_ok (jobs st) ->
     Forall count_ok (jobs (serve st reqs))).
Proof.
  split; [|split; [|split]].
  - intros actor jobId message proposedPay now newId.
    unfold post_application.
    destruct (Job_findById st jobId) as [job|] eqn:Hj; [|discriminate].
    unfold Job.apply.
    destruct (negb (Job.canApply now job actor)); [discriminate|].
    cbn [fst snd]. intros _.
    eexists. eexists. split; [reflexivity|]. split.
    + eapply Job_findById_save; [exact Hj|].
      simpl. eapply Job_findById_id; eauto.
    + split; reflexivity.
  - intros actor jobId. unfold delete_application.
    destruct (Job_findById st jobId) as [job|] eqn:Hj; [|discriminate].
    destruct (find _ (Job.applications job)) as [userApplication|];
      [|discriminate].
    destruct (negb _); [discriminate|].
    cbn [fst snd]. intros _.
    eexists. eexists. split; [reflexivity|]. split.
    + eapply Job_findById_save; [exact Hj|].
      simpl. eapply Job_findById_id; eauto.
    + split; reflexivity.
  - intros actor jobId applicationId action now. unfold put_application.
    destruct (Job_findById st jobId) as [job|] eqn:Hj; [|discriminate].
    pose proof (Job_findById_id _ _ _ Hj) as Hid.
    destruct (Job.applications_id job applicationId) as [application|] eqn:Ha;
      [|discriminate].
    destruct action.
    + destruct (negb (Job.employer job =? actor)%nat); [discriminate|].
      destruct (negb (Job.Status_eqb (Job.status job) Job.active));
        [discriminate|].
      unfold Job.acceptApplication. rewrite Ha. cbn [fst snd]. intros _.
      eexists. eexists. split; [reflexivity|]. split.
      * eapply Job_findById_save; [|exact Hid].
        eapply Job_findById_save; [exact Hj | exact Hid].
      * split; [|reflexivity]. simpl. apply update_application_length.
    + destruct (negb (Job.employer job =? actor)%nat); [discriminate|].
      cbn [fst snd]. intros _.
      eexists. eexists. split; [reflexivity|]. split.
      * eapply Job_findById_save; [exact Hj | exact Hid].
      * split; [|reflexivity]. simpl. apply update_application_length.
    + destruct (negb (Application.worker application =? actor)%nat);
        [discriminate|].
      cbn [fst snd]. intros _.
      eexists. eexists. split; [reflexivity|]. split.
      * eapply Job_findById_save; [exact Hj | exact Hid].
      * split; [|reflexivity]. simpl. apply update_application_length.
  - intros reqs Hreqs. revert st.
    induction Hreqs as [|req reqs Hreq _ IH]; intros st HF; cbn [snd]; auto.
    apply IH. now apply handle_count_ok.
Qed.

End ApplicationsCount.

Lemma applicationsCount_is_length_witness :
  (exists job',
      Job_findById (snd (post_application Sample.fresh 2 1 None (Some 30) 5 10)) 1
      = Some job' /\
      Job.applicationsCount job' = 1) /\
  (exists job',
      Job_findById (snd (delete_application Sample.with_pending 2 1)) 1
      = Some job' /\
      Job.applicationsCount job' = 0) /\
  Forall count_ok
    (jobs (serve Sample.fresh
             [PostApplication 2 1 None (Some 30) 5 10;
              PutApplication 2 1 10 withdraw 6;
              DeleteApplication 2 1;
              PostApplication 3 1 None None 7 11;
              PutApplication 1 1 11 accept 8])).
Proof.
  destruct (applicationsCount_is_length Sample.fresh) as (Hpost & _ & _ & Hinv).
  destruct (applicationsCount_is_length Sample.with_pending)
    as (_ & Hdelete & _ & _).
  split; [|split].
  - destruct (Hpost 2%nat 1%nat None (Some 30) 5 10%nat eq_refl)
      as (job & job' & Hj & Hj' & Ha & Hc).
    exists job'. split; [exact Hj'|]. rewrite Hc, Ha.
    injection Hj as <-. reflexivity.
  - destruct (Hdelete 2%nat 1%nat eq_refl) as (job & job' & Hj & Hj' & Ha & Hc).
    exists job'. split; [exact Hj'|]. rewrite Hc, Ha.
    injection Hj as <-. reflexivity.
  - apply Hinv; repeat constructor.
Defined.

(** The employer of a job with one application sends
    [{ applicationsCount: 5 }] to the job update and then rejects the
    application: the reject succeeds and the job has one application and
    [applicationsCount] 5. *)
Lemma reject_keeps_a_wrong_count :
  let st := serve Sample.fresh
              [PostApplication 2 1 None (Some 30) 5 10;
               PutJob 1 1 (body_applicationsCount 5)] in
  let req := PutApplication 1 1 10 reject 6 in
  application_request req /\
  code (fst (handle st req)) = 200%nat /\
  exists job,
    Job_findById (snd (handle st req)) 1 = Some job /\
    Job.applicationsCount job = 5 /\
    List.length (Job.applications job) = 1%nat /\
    ~ count_ok job.
Proof.
  split; [exact I|]. split; [reflexivity|].
  eexists. split; [reflexivity|]. split; [reflexivity|].
  split; [reflexivity|]. unfold count_ok. simpl. discriminate.
Qed.

(** ** Who may apply *)

Section CanApply.

Lemma Job_Status_eqb_eq a b : Job.Status_eqb a b = true <-> a = b.
Proof. destruct a, b; simpl; split; congruence. Qed.

Lemma Application_Status_eqb_eq a b :
  Application.Status_eqb a b = true <-> a = b.
Proof. destruct a, b; simpl; split; congruence. Qed.

(** [canApply] says yes exactly when the job is active and not expired,
    the user is not the employer and no application of any status
    carries the user as worker. *)
Lemma canApply_true now j userId :
  Job.canApply now j userId = true <->
  Job.status j = Job.active /\ now <= Job.expiresAt j /\
  Job.employer j <> userId /\
  ~ In userId (map Application.worker (Job.applications j)).
Proof.
  unfold Job.canApply, Job.isExpired.
  rewrite <- find_worker_map.
  destruct (Job.Status_eqb (Job.status j) Job.active) eqn:Es; simpl.
  - apply Job_Status_eqb_eq in Es.
    destruct (Z.gtb_spec now (Job.expiresAt j)) as [Hgt|Hle].
    + split; [discriminate | intros (_ & Hx & _); lia].
    + destruct (Nat.eqb_spec (Job.employer j) userId) as [Heq|Hne].
      * split; [discriminate | intros (_ & _ & Hx & _); contradiction].
      * destruct (find _ (Job.applications j)).
        -- split; [discriminate | intros (_ & _ & _ & Hx); discriminate].
        -- repeat split; auto.
  - split; [discriminate|]. intros (H & _).
    apply Job_Status_eqb_eq in H. congruence.
Qed.

(** C3, the code's rule.  An attempt to apply by a worker who has any
    application sub-record on the job, whatever its status, is rejected
    with 400 and changes nothing; a worker with no sub-record on the job
    may apply when the job is active, not past [expiresAt] and the
    worker is not the employer, and the pending application is appended;
    so applying keeps at most one application per worker on the job. *)
Theorem apply_once_per_worker
    st actor jobId message proposedPay now newId job :
  Job_findById st jobId = Some job ->
  let out := post_application st actor jobId message proposedPay now newId in
  (In actor (map Application.worker (Job.applications job)) ->
     out = (res 400 "Cannot apply for this job", st)) /\
  (~ In actor (map Application.worker (Job.applications job)) ->
     Job.status job = Job.active -> now <= Job.expiresAt job ->
     Job.employer job <> actor ->
     exists job',
       out = (res 201 "Application submitted successfully", Job_save st job') /\
       Job_findById (Job_save st job') jobId = Some job' /\
       Job.applications job' = Job.applications job ++
         [Application.mk newId actor Application.pending now
            message proposedPay]) /\
  (one_per_worker job ->
     forall job', Job_findById (snd out) jobId = Some job' ->
     one_per_worker job').
Proof.
  intros Hj out. subst out. unfold post_application. rewrite Hj.
  unfold Job.apply.
  destruct (Job.canApply now job actor) eqn:Ec; simpl negb; cbv iota.
  - apply canApply_true in Ec. destruct Ec as (Hs & He & Hn & Hin).
    split; [intros H; contradiction|].
    assert (Hf : Job_findById (Job_save st
              (Job.set_applicationsCount
                 (Z.of_nat (List.length (Job.applications job ++
                    [Application.mk newId actor Application.pending now
                       message proposedPay])))
                 (Job.set_applications (Job.applications job ++
                    [Application.mk newId actor Application.pending now
                       message proposedPay]) job))) jobId
            = Some (Job.set_applicationsCount
                 (Z.of_nat (List.length (Job.applications job ++
                    [Application.mk newId actor Application.pending now
                       message proposedPay])))
                 (Job.set_applications (Job.applications job ++
                    [Application.mk newId actor Application.pending now
                       message proposedPay]) job))).
    { eapply Job_findById_save; eauto.
      simpl. eapply Job_findById_id; eauto. }
    split.
    + intros _ _ _ _. eexists. split; [reflexivity|]. split; [exact Hf|].
      reflexivity.
    + intros Hnd job' Hj'. cbn [snd] in Hj'. rewrite Hf in Hj'.
      injection Hj' as <-. unfold one_per_worker in *. simpl.
      rewrite map_app. simpl.
      apply NoDup_rev in Hnd. rewrite <- map_rev in Hnd.
      rewrite <- (rev_involutive (map _ _ ++ _)).
      apply NoDup_rev. rewrite rev_app_distr. simpl.
      constructor.
      * rewrite <- in_rev. exact Hin.
      * now rewrite <- map_rev.
  - split; [reflexivity|]. split.
    + intros Hin Hs He Hn.
      assert (Job.canApply now job actor = true)
        by (apply canApply_true; auto).
      congruence.
    + intros Hnd job' Hj'. cbn [snd] in Hj'. congruence.
Qed.

End CanApply.

Lemma apply_once_per_worker_witness :
  post_application Sample.with_withdrawn 2 1 None None 5 11
  = (res 400 "Cannot apply for this job", Sample.with_withdrawn).
Proof.
  refine (proj1 (apply_once_per_worker
                   Sample.with_withdrawn 2 1 None None 5 11 _ eq_refl) _).
  simpl. auto.
Defined.

(** A worker whose only application on an active, unexpired job is
    withdrawn is not let in again: the sub-record is still in the list. *)
Lemma reapply_after_withdrawn_is_rejected :
  ~ (forall st actor jobId message proposedPay now newId job,
       Job_findById st jobId = Some job ->
       Job.status job = Job.active ->
       now <= Job.expiresAt job ->
       Job.employer job <> actor ->
       (forall app, In app (Job.applications job) ->
          Application.worker app = actor ->
          Application.status app = Application.withdrawn) ->
       code (fst (post_application st actor jobId message proposedPay now newId))
       = 201%nat).
Proof.
  intros H.
  specialize (H Sample.with_withdrawn 2%nat 1%nat None None 5 11%nat _
                eq_refl eq_refl).
  simpl in H.
  assert (Hc : 400%nat = 201%nat).
  { apply H.
    - lia.
    - discriminate.
    - intros app [<-|[]] _. reflexivity. }
  discriminate Hc.
Qed.

(** ** The two ways to withdraw *)

Section Withdrawals.







End Withdrawals.


(** ** Accepting an application *)

Section Accept.


End Accept.



(** ** Withdrawing an application that is not pending *)

(** The withdraw branch of the PUT handler does not look at the status of
    the application: for the applicant it always succeeds. *)
Lemma put_withdraw_any_status st jobId applicationId now job application :
  Job_findById st jobId = Some job ->
  Job.applications_id job applicationId = Some application ->
  fst (put_application st (Application.worker application) jobId
         applicationId withdraw now)
  = res 200 "Application withdrawn successfully".
Proof.
  intros Hj Ha. unfold put_application. rewrite Hj, Ha.
  now rewrite Nat.eqb_refl.
Qed.

(** C7.  Worker 2, whose application was accepted on a job now in
    progress, withdraws it through PUT: the request succeeds and the
    application becomes [withdrawn]; the same worker is refused with 400
    by DELETE, and another actor is refused with 403 by PUT. *)
Theorem put_withdraw_ignores_status :
  let out := put_application Sample.with_accepted 2 1 10 withdraw 5 in
  fst out = res 200 "Application withdrawn successfully" /\
  option_map Job.applications (Job_findById (snd out) 1)
  = Some [Sample.application Application.withdrawn] /\
  delete_application Sample.with_accepted 2 1
  = (res 400 "Cannot withdraw application that is not pending",
     Sample.with_accepted) /\
  put_application Sample.with_accepted 3 1 10 withdraw 5
  = (res 403 "Only applicant can withdraw their application",
     Sample.with_accepted).
Proof.
  repeat split.
Qed.

(** ** The ledger *)

Section Ledger.

Lemma update_user_balance_transactions st owner st' :
  update_user_balance st owner = Some st' ->
  transactions st' = transactions st.
Proof.
  unfold update_user_balance, User_try_save. destruct owner as [w|].
  - destruct (User_findById st w); [|now intros [= <-]].
    destruct (User_validate _); [now intros [= <-] | discriminate].
  - now intros [= <-].
Qed.

Lemma update_user_balance_jobs st owner st' :
  update_user_balance st owner = Some st' -> jobs st' = jobs st.
Proof.
  unfold update_user_balance, User_try_save. destruct owner as [w|].
  - destruct (User_findById st w); [|now intros [= <-]].
    destruct (User_validate _); [now intros [= <-] | discriminate].
  - now intros [= <-].
Qed.

Lemma getUserBalance_ext st st' w :
  transactions st = transactions st' ->
  getUserBalance st w = getUserBalance st' w.
Proof. unfold getUserBalance. now intros ->. Qed.

(** The recomputation writes the sum of the stored completed entries
    into the wallet of the owner, when the sum is not negative. *)
Lemma update_user_balance_found st w u :
  User_findById st w = Some u ->
  0 <= getUserBalance st w ->
  exists st' u',
    update_user_balance st (Some w) = Some st' /\
    transactions st' = transactions st /\
    jobs st' = jobs st /\
    User_findById st' w = Some u' /\
    Wallet.balance (User.wallet u') = getUserBalance st w /\
    Wallet.currency (User.wallet u') = Wallet.currency (User.wallet u) /\
    User.paymentMethods u' = User.paymentMethods u /\
    User.stats u' = User.stats u /\
    User._id u' = w.
Proof.
  intros Hu Hb. unfold update_user_balance, User_try_save, User_validate.
  rewrite Hu. cbn [User.wallet User.set_wallet Wallet.balance].
  apply Z.leb_le in Hb. rewrite Hb.
  pose proof (User_findById_id _ _ _ Hu) as Hid.
  eexists. eexists. split; [reflexivity|].
  split; [reflexivity|]. split; [reflexivity|].
  split; [eapply User_findById_save; eauto|].
  repeat split. exact Hid.
Qed.

(** A negative sum is refused by the validation of the user: the
    recomputation throws and writes nothing. *)
Lemma update_user_balance_throws st w u :
  User_findById st w = Some u ->
  getUserBalance st w < 0 ->
  update_user_balance st (Some w) = None.
Proof.
  intros Hu Hb. unfold update_user_balance, User_try_save, User_validate.
  rewrite Hu. cbn [User.wallet User.set_wallet Wallet.balance].
  apply Z.leb_gt in Hb. now rewrite Hb.
Qed.

Lemma update_user_balance_absent st w :
  User_findById st w = None -> update_user_balance st (Some w) = Some st.
Proof. intros Hu. unfold update_user_balance. now rewrite Hu. Qed.

(** An entry with an owner and a description passes the validation. *)
Lemma Transaction_validate_new newId data w :
  Transaction.d_user data = Some w ->
  Transaction.d_description data <> ""%string ->
  Transaction_validate (Transaction.new newId data) = true.
Proof.
  intros Hw Hd. unfold Transaction_validate, Transaction.new. simpl.
  rewrite Hw. apply String.eqb_neq in Hd. now rewrite Hd.
Qed.

Lemma Transaction_validate_set_completed now x :
  Transaction_validate (Transaction.set_completed now x)
  = Transaction_validate x.
Proof. reflexivity. Qed.

Lemma Transaction_validate_set_failed now reason x :
  Transaction_validate (Transaction.set_failed now reason x)
  = Transaction_validate x.
Proof. reflexivity. Qed.


(** What [createTransaction] leaves behind when the entry is valid and
    the owner has an account: the entry is saved in every case; the
    balance of the owner is the new sum when that is not negative, and
    otherwise the call throws with the user as it was. *)
Lemma createTransaction_valid st newId data w u :
  Transaction.d_user data = Some w ->
  Transaction.d_description data <> ""%string ->
  User_findById st w = Some u ->
  let st1 := Transaction_insert st (Transaction.new newId data) in
  (0 <= getUserBalance st1 w ->
   exists st' u',
     createTransaction st newId data = (st', Some (Transaction.new newId data)) /\
     transactions st' = transactions st1 /\
     jobs st' = jobs st /\
     User_findById st' w = Some u' /\
     Wallet.balance (User.wallet u') = getUserBalance st1 w /\
     Wallet.currency (User.wallet u') = Wallet.currency (User.wallet u) /\
     User.paymentMethods u' = User.paymentMethods u /\
     User.stats u' = User.stats u /\
     User._id u' = w) /\
  (getUserBalance st1 w < 0 ->
   createTransaction st newId data = (st1, None)).
Proof.
  intros Hw Hd Hu st1. unfold createTransaction, Transaction_try_insert.
  rewrite (Transaction_validate_new newId data w Hw Hd). fold st1.
  rewrite Hw.
  assert (Hu1 : User_findById st1 w = Some u) by exact Hu.
  split; intros Hb.
  - destruct (update_user_balance_found st1 w u Hu1 Hb)
      as (st' & u' & E & Ht & Hj & Hf & H).
    rewrite E. exists st', u'. repeat split; try tauto.
  - now rewrite (update_user_balance_throws st1 w u Hu1 Hb).
Qed.

(** An entry without owner or without description is refused before
    anything is written. *)
Lemma createTransaction_invalid st newId data :
  Transaction_validate (Transaction.new newId data) = false ->
  createTransaction st newId data = (st, None).
Proof.
  intros H. unfold createTransaction, Transaction_try_insert. now rewrite H.
Qed.

(** The sum of the completed entries after a new entry. *)
Lemma getUserBalance_insert st x w :
  getUserBalance (Transaction_insert st x) w
  = getUserBalance st w + (if completed_of w x then Transaction.amount x else 0).
Proof.
  unfold getUserBalance, sum_amounts. cbn [Transaction_insert transactions].
  rewrite filter_app, fold_right_app. simpl.
  induction (filter (completed_of w) (transactions st)) as [|y l IH]; simpl.
  - destruct (completed_of w x); simpl; lia.
  - rewrite IH. lia.
Qed.

(** [process] recomputes before it saves: the cached balance of the
    owner is the sum of the completed entries of the store as it was
    before the entry became completed. *)
Lemma process_balance_before_save st now this w u :
  Transaction_validate this = true ->
  Transaction.user this = Some w ->
  User_findById st w = Some u ->
  0 <= getUserBalance st w ->
  exists st1 u',
    process st now this
    = (Transaction_save st1 (Transaction.set_completed now this),
       Some (Transaction.set_completed now this)) /\
    transactions st1 = transactions st /\
    jobs st1 = jobs st /\
    User_findById (fst (process st now this)) w = Some u' /\
    Wallet.balance (User.wallet u') = getUserBalance st w.
Proof.
  intros Hv Hw Hu Hb. unfold process, Transaction_try_save.
  rewrite Transaction_validate_set_completed, Hv.
  replace (Transaction.user (Transaction.set_completed now this))
    with (Some w) by (now rewrite <- Hw).
  destruct (update_user_balance_found st w u Hu Hb)
    as (st1 & u' & E & Ht & Hj & Hf & Hbal & _).
  rewrite E. exists st1, u'. cbn [fst]. auto.
Qed.

(** [process] throws on a negative sum, and nothing is written. *)
Lemma process_throws st now this w u :
  Transaction.user this = Some w ->
  User_findById st w = Some u ->
  getUserBalance st w < 0 ->
  process st now this = (st, None).
Proof.
  intros Hw Hu Hb. unfold process.
  replace (Transaction.user (Transaction.set_completed now this))
    with (Some w) by (now rewrite <- Hw).
  now rewrite (update_user_balance_throws st w u Hu Hb).
Qed.

(** C8.  A withdrawal request for more than the cached wallet balance is
    refused with 400 "Insufficient balance" and the store is unchanged;
    with enough cached balance and an existing payment method, one entry
    of type [withdrawal], amount [- amount] (negative, as the validated
    amount is at least 1) and status [pending] is added for the user.
    The entry is added in either case; the answer is 200 when the
    completed entries of the user do not sum below 0, and 500, with the
    user left as it was, when they do. *)
Theorem withdraw_gated_on_cached_balance
    st actor amount paymentMethodId newId user :
  User_findById st actor = Some user ->
  (Wallet.balance (User.wallet user) < amount ->
     post_withdraw st actor amount paymentMethodId newId
     = (res 400 "Insufficient balance", st, None)) /\
  (amount <= Wallet.balance (User.wallet user) ->
   forall paymentMethod,
     User.paymentMethods_id user paymentMethodId = Some paymentMethod ->
     exists r st' t entry,
       post_withdraw st actor amount paymentMethodId newId = (r, st', t) /\
       transactions st' = transactions st ++ [entry] /\
       jobs st' = jobs st /\
       Transaction.user entry = Some actor /\
       Transaction.type entry = Transaction.withdrawal /\
       Transaction.amount entry = - amount /\
       Transaction.status entry = Transaction.pending /\
       (1 <= amount -> Transaction.amount entry < 0) /\
       (0 <= getUserBalance st actor ->
          r = res 200 "Withdrawal initiated successfully" /\
          t = Some entry) /\
       (getUserBalance st actor < 0 ->
          r = res 500 "Server error" /\ t = None /\ users st' = users st)).
Proof.
  intros Hu. unfold post_withdraw. rewrite Hu. split.
  - intros Hlt. apply Z.ltb_lt in Hlt. now rewrite Hlt.
  - intros Hle paymentMethod Hpm. apply Z.ltb_ge in Hle.
    rewrite Hle, Hpm.
    set (data := Transaction.mkData _ _ _ _ _ _ _ _).
    assert (Hd : Transaction.d_description data <> ""%string).
    { unfold data. simpl. discriminate. }
    assert (Hsum : getUserBalance
                     (Transaction_insert st (Transaction.new newId data)) actor
                   = getUserBalance st actor).
    { rewrite getUserBalance_insert. unfold completed_of. simpl.
      rewrite andb_false_r. lia. }
    destruct (createTransaction_valid st newId data actor user eq_refl Hd Hu)
      as [Hok Hthrow].
    rewrite Hsum in Hok, Hthrow.
    destruct (Z.le_gt_cases 0 (getUserBalance st actor)) as [Hb|Hb].
    + destruct (Hok Hb) as (st' & u' & E & Ht & Hj & _).
      rewrite E.
      exists (res 200 "Withdrawal initiated successfully"), st',
        (Some (Transaction.new newId data)), (Transaction.new newId data).
      split; [reflexivity|]. split; [exact Ht|]. split; [exact Hj|].
      cbn. repeat split; try lia.
    + rewrite (Hthrow Hb).
      exists (res 500 "Server error"),
        (Transaction_insert st (Transaction.new newId data)),
        None, (Transaction.new newId data).
      split; [reflexivity|]. split; [reflexivity|]. split; [reflexivity|].
      cbn. repeat split; try lia.
Qed.

End Ledger.

Lemma withdraw_gated_on_cached_balance_witness :
  post_withdraw SampleLedger.ledger 2 300 7 21
  = (res 400 "Insufficient balance", SampleLedger.ledger, None) /\
  exists r st' t entry,
    post_withdraw SampleLedger.ledger 2 50 7 21 = (r, st', t) /\
    Transaction.amount entry = -50 /\
    r = res 200 "Withdrawal initiated successfully" /\ t = Some entry.
Proof.
  split.
  - apply (proj1 (withdraw_gated_on_cached_balance
                    SampleLedger.ledger 2 300 7 21 _ eq_refl)).
    simpl. lia.
  - destruct (proj2 (withdraw_gated_on_cached_balance
                       SampleLedger.ledger 2 50 7 21 _ eq_refl))
      with (paymentMethod := PaymentMethod.mk 7 "Bank")
      as (r & st' & t & entry & H1 & _ & _ & _ & _ & H2 & _ & _ & H3 & _).
    + simpl. lia.
    + reflexivity.
    + exists r, st', t, entry. split; [exact H1|]. split; [exact H2|].
      apply H3. vm_compute. discriminate.
Defined.

(** C1.  Worker 2 has one completed entry of 250 and a cached balance of
    250, and asks to withdraw 50.  The request adds a pending entry of
    -50 and leaves the balance at 250.  When the settlement then marks
    the entry completed through [process], both entries are completed
    and sum to 200, yet the cached balance written by [process] is still
    250: the sum was taken before the entry was saved as completed. *)
Theorem process_leaves_balance_stale :
  exists st1 entry,
    post_withdraw SampleLedger.ledger 2 50 7 21
    = (res 200 "Withdrawal initiated successfully", st1, Some entry) /\
    Transaction.status entry = Transaction.pending /\
    let st2 := withdraw_settlement st1 9 entry in
    map Transaction.status (transactions st2)
    = [Transaction.completed; Transaction.completed] /\
    getUserBalance st2 2 = 200 /\
    option_map (fun u => Wallet.balance (User.wallet u)) (User_findById st2 2)
    = Some 250.
Proof.
  eexists. eexists. split; [reflexivity|]. repeat split.
Qed.

(** ** Completing a job *)

Section CompleteJob.

(** The three ways [createTransaction] ends: the entry is refused and
    nothing is written; the entry is written and the user is refused; the
    entry is written and returned. *)
Lemma createTransaction_cases st newId data :
  let x := Transaction.new newId data in
  createTransaction st newId data = (st, None) \/
  createTransaction st newId data = (Transaction_insert st x, None) \/
  exists st',
    createTransaction st newId data = (st', Some x) /\
    transactions st' = transactions st ++ [x] /\ jobs st' = jobs st.
Proof.
  intros x. unfold createTransaction, Transaction_try_insert. fold x.
  destruct (Transaction_validate x); [|now left].
  destruct (update_user_balance (Transaction_insert st x)
              (Transaction.d_user data)) as [st'|] eqn:E; [|right; now left].
  right. right. exists st'. split; [reflexivity|].
  rewrite (update_user_balance_transactions _ _ _ E),
          (update_user_balance_jobs _ _ _ E). auto.
Qed.


Variables (st : Store) (actor jobId : ObjectId) (now : Date) (newId : ObjectId).
Variable job : Job.t.
Hypothesis job_found : Job_findById st jobId = Some job.
Hypothesis by_employer : Job.employer job = actor.
Hypothesis in_progress : Job.status job = Job.in_progress.


Lemma job_id : Job._id job = jobId.
Proof. eapply Job_findById_id. exact job_found. Qed.

Lemma Job_save_twice s j j' :
  Job._id j = Job._id j' ->
  jobs (Job_save (Job_save s j) j') = jobs (Job_save s j').
Proof.
  unfold Job_save. simpl. intros E. rewrite map_map.
  apply map_ext. intros j0.
  destruct (Nat.eqb_spec (Job._id j0) (Job._id j)) as [E1|E1].
  - rewrite E1, E. now rewrite Nat.eqb_refl.
  - reflexivity.
Qed.

(** The handler, past its checks. *)
Lemma complete_job_body :
  complete_job st actor jobId now newId
  = match
      createTransaction (Job_save st (job_completed now job)) newId
        (Transaction.mkData (Job.selectedWorker job) Transaction.earned
           (Pay.amount (Job.pay job)) (Pay.currency (Job.pay job))
           (Job.title job ++ " - " ++ Job.companyName job)%string
           (Some jobId) None Transaction.completed)
    with
    | (st2, None) => (res 500 "Server error", st2)
    | (st2, Some _) =>
        let st3 := Job_save st2 (job_paid now newId job) in
        let ok := res 200 "Job completed and payment processed successfully" in
        match Job.selectedWorker job with
        | None => (ok, st3)
        | Some workerId =>
            match User_findById st3 workerId with
            | None => (ok, st3)
            | Some worker =>
                let s := User.stats worker in
                match
                  User_try_save st3
                    (User.set_stats
                       (Stats.mk (Stats.completedJobs s + 1)
                          (Stats.totalEarnings s + Pay.amount (Job.pay job))
                          (Stats.averageRating s) (Stats.totalReviews s))
                       worker)
                with
                | Some st4 => (ok, st4)
                | None => (res 500 "Server error", st3)
                end
            end
        end
    end.
Proof.
  unfold complete_job.
  rewrite job_found, by_employer, Nat.eqb_refl, in_progress.
  cbn [negb Job.Status_eqb]. cbv iota zeta.
  cbn [Job.selectedWorker Job.set_payment Job.set_completion Job.set_status
       Job.pay Job.title Job.companyName Job._id].
  rewrite job_id.
  destruct (createTransaction _ _ _) as [st2 [tx|]] eqn:E; [|reflexivity].
  assert (Hid : Transaction._id tx = newId).
  { destruct (createTransaction_cases (Job_save st (job_completed now job)) newId
                (Transaction.mkData (Job.selectedWorker job) Transaction.earned
                   (Pay.amount (Job.pay job)) (Pay.currency (Job.pay job))
                   (Job.title job ++ " - " ++ Job.companyName job)%string
                   (Some jobId) None Transaction.completed))
      as [H|[H|(st' & H & _)]];
      unfold job_completed in H; cbn [Job.set_completion Job.set_status] in H;
      rewrite H in E; try discriminate E.
    injection E as _ <-. reflexivity. }
  now rewrite Hid.
Qed.

(** Whatever happens to the payment, the job is saved as completed, and
    at most the entry of the payment is added to the ledger. *)
Lemma complete_job_cases :
  let out := complete_job st actor jobId now newId in
  (jobs (snd out) = jobs (Job_save st (job_completed now job)) \/
   jobs (snd out) = jobs (Job_save st (job_paid now newId job))) /\
  (transactions (snd out) = transactions st \/
   transactions (snd out) = transactions st ++ [(payment_entry newId jobId job)]).
Proof.
  intros out. subst out. rewrite complete_job_body.
  destruct (createTransaction_cases (Job_save st (job_completed now job)) newId
              (Transaction.mkData (Job.selectedWorker job) Transaction.earned
                 (Pay.amount (Job.pay job)) (Pay.currency (Job.pay job))
                 (Job.title job ++ " - " ++ Job.companyName job)%string
                 (Some jobId) None Transaction.completed))
    as [H|[H|(st' & H & Ht & Hjs)]]; rewrite H; cbn [snd].
  - split; left; reflexivity.
  - split; [left | right]; reflexivity.
  - assert (H3 : jobs (Job_save st' (job_paid now newId job)) = jobs (Job_save st (job_paid now newId job))).
    { transitivity (jobs (Job_save (Job_save st (job_completed now job)) (job_paid now newId job))).
      - unfold Job_save. simpl. now rewrite Hjs.
      - now apply Job_save_twice. }
    assert (Hsame : forall r s4,
              jobs s4 = jobs (Job_save st' (job_paid now newId job)) ->
              transactions s4 = transactions (Job_save st' (job_paid now newId job)) ->
              (jobs (snd (r : Response, s4)) = jobs (Job_save st (job_completed now job)) \/
               jobs (snd (r, s4)) = jobs (Job_save st (job_paid now newId job))) /\
              (transactions (snd (r, s4)) = transactions st \/
               transactions (snd (r, s4)) = transactions st ++ [(payment_entry newId jobId job)])).
    { intros r s4 Hj4 Ht4. cbn [snd]. split; right.
      - now rewrite Hj4.
      - rewrite Ht4. exact Ht. }
    cbv zeta.
    destruct (Job.selectedWorker job) as [w|]; [|now apply Hsame].
    destruct (User_findById (Job_save st' (job_paid now newId job)) w) as [worker|];
      [|now apply Hsame].
    unfold User_try_save. destruct (User_validate _); now apply Hsame.
Qed.

Variables (w : ObjectId) (worker : User.t).
Hypothesis selected : Job.selectedWorker job = Some w.
Hypothesis has_account : User_findById st w = Some worker.



End CompleteJob.

(** A completion is refused and changes nothing, or it saves the job as
    completed, once or twice, and adds at most the entry of the payment. *)
Lemma complete_job_effects st actor jobId now newId :
  let out := complete_job st actor jobId now newId in
  snd out = st \/
  exists job,
    Job_findById st jobId = Some job /\
    Job.employer job = actor /\
    Job.status job = Job.in_progress /\
    (jobs (snd out) = jobs (Job_save st (job_completed now job)) \/
     jobs (snd out) = jobs (Job_save st (job_paid now newId job))) /\
    (transactions (snd out) = transactions st \/
     transactions (snd out)
     = transactions st ++ [payment_entry newId jobId job]).
Proof.
  intros out. subst out.
  destruct (Job_findById st jobId) as [job|] eqn:Hj.
  2:{ left. unfold complete_job. now rewrite Hj. }
  destruct (Nat.eqb_spec (Job.employer job) actor) as [He|He].
  2:{ left. unfold complete_job. rewrite Hj.
      apply Nat.eqb_neq in He. now rewrite He. }
  destruct (Job.Status_eqb (Job.status job) Job.in_progress) eqn:Es.
  2:{ left. unfold complete_job. now rewrite Hj, He, Nat.eqb_refl, Es. }
  apply Job_Status_eqb_eq in Es.
  right. exists job. repeat split; auto;
    apply (complete_job_cases st actor jobId now newId job Hj He Es).
Qed.



(** ** selectedWorker and status *)

Section SelectedWorker.

Lemma selected_iff_same j j' :
  Job.status j' = Job.status j ->
  Job.selectedWorker j' = Job.selectedWorker j ->
  selected_iff j -> selected_iff j'.
Proof. unfold selected_iff. now intros -> ->. Qed.

Lemma selected_iff_chosen j w s :
  Job.selectedWorker j = Some w ->
  Job.status j = s -> s = Job.in_progress \/ s = Job.completed ->
  selected_iff j.
Proof.
  unfold selected_iff. intros -> -> Hs. split; auto. discriminate.
Qed.

Lemma findByIdAndUpdate_keeps body j :
  b_status body = None -> b_selectedWorker body = None ->
  Job.status (findByIdAndUpdate body j) = Job.status j /\
  Job.selectedWorker (findByIdAndUpdate body j) = Job.selectedWorker j.
Proof.
  destruct body as [t e n p s a w c y k x]. simpl. intros -> ->.
  unfold findByIdAndUpdate. simpl.
  destruct t, e, n, p, a, c, y, k, x; simpl; auto.
Qed.

Lemma put_application_selected_iff st actor jobId applicationId action now :
  Forall selected_iff (jobs st) ->
  Forall selected_iff
    (jobs (snd (put_application st actor jobId applicationId action now))).
Proof.
  intros HF. unfold put_application.
  destruct (Job_findById st jobId) as [job|] eqn:Hj; cbn [snd]; auto.
  assert (Hc : selected_iff job) by (eapply Forall_found; eauto).
  destruct (Job.applications_id job applicationId) as [application|] eqn:Ha;
    cbn [snd]; auto.
  destruct action.
  - destruct (negb (Job.employer job =? actor)%nat); cbn [snd]; auto.
    destruct (negb (Job.Status_eqb (Job.status job) Job.active));
      cbn [snd]; auto.
    unfold Job.acceptApplication. rewrite Ha. cbn [snd].
    repeat apply Forall_Job_save; auto;
      eapply selected_iff_chosen; simpl; eauto.
  - destruct (negb (Job.employer job =? actor)%nat); cbn [snd]; auto.
    apply Forall_Job_save; auto.
  - destruct (negb (Application.worker application =? actor)%nat);
      cbn [snd]; auto.
    apply Forall_Job_save; auto.
Qed.

Lemma complete_job_selected_iff st actor jobId now newId :
  Forall selected_iff (jobs st) ->
  Forall selected_iff (jobs (snd (complete_job st actor jobId now newId))).
Proof.
  intros HF.
  destruct (complete_job_effects st actor jobId now newId)
    as [H|(job & Hj & _ & Es & Hjobs & _)]; [now rewrite H|].
  assert (Hc : selected_iff job) by (eapply Forall_found; eauto).
  assert (H1 : selected_iff (job_completed now job)).
  { unfold selected_iff in *. simpl. rewrite Es in Hc.
    split; auto. intros _. apply Hc. auto. }
  destruct Hjobs as [H|H]; rewrite H; apply Forall_Job_save; auto.
Qed.

Lemma handle_selected_iff st req :
  keeps_lifecycle_fields req ->
  Forall selected_iff (jobs st) ->
  Forall selected_iff (jobs (snd (handle st req))).
Proof.
  destruct req; simpl; intros Hreq HF.
  - unfold post_application.
    destruct (Job_findById st jobId) as [job|] eqn:Hj; cbn [snd]; auto.
    unfold Job.apply.
    destruct (negb (Job.canApply now job actor)); cbn [snd]; auto.
    apply Forall_Job_save; auto.
    apply (selected_iff_same job); auto. eapply Forall_found; eauto.
  - now apply put_application_selected_iff.
  - unfold delete_application.
    destruct (Job_findById st jobId) as [job|] eqn:Hj; cbn [snd]; auto.
    destruct (find _ (Job.applications job)) as [userApplication|];
      cbn [snd]; auto.
    destruct (negb _); cbn [snd]; auto.
    apply Forall_Job_save; auto.
    apply (selected_iff_same job); auto. eapply Forall_found; eauto.
  - now apply complete_job_selected_iff.
  - unfold put_job.
    destruct (Job_findById st id) as [job|] eqn:Hj; cbn [snd]; auto.
    destruct (negb (Job.employer job =? actor)%nat); cbn [snd]; auto.
    destruct (negb (Job.Status_eqb (Job.status job) Job.active));
      cbn [snd]; auto.
    destruct Hreq as [Hs Hw].
    destruct (findByIdAndUpdate_keeps body job Hs Hw) as [H1 H2].
    apply Forall_Job_save; auto.
    apply (selected_iff_same job); auto. eapply Forall_found; eauto.
Qed.

(** C4, the code's rule.  Starting from jobs for which [selectedWorker]
    is set exactly when the status is [in_progress] or [completed] (as
    for a job created with the defaults of the schema), this still
    holds after any sequence of apply, accept, reject, withdraw,
    delete-withdraw, complete-job and job-update requests in which no
    job update carries [status] or [selectedWorker] in its body. *)
Theorem selectedWorker_iff_started st reqs :
  Forall keeps_lifecycle_fields reqs ->
  Forall selected_iff (jobs st) ->
  Forall selected_iff (jobs (serve st reqs)).
Proof.
  intros Hreqs. revert st.
  induction Hreqs as [|req reqs Hreq _ IH]; intros st HF; simpl; auto.
  apply IH. now apply handle_selected_iff.
Qed.

End SelectedWorker.

Lemma selectedWorker_iff_started_witness :
  Forall selected_iff
    (jobs (serve Sample.fresh
             [PutJob 1 1 (body_title "Move many boxes");
              PostApplication 2 1 None (Some 30) 5 10;
              PutApplication 1 1 10 accept 6;
              CompleteJob 1 1 7 21])).
Proof.
  apply selectedWorker_iff_started.
  - repeat (constructor; [simpl; auto|]). constructor.
  - constructor; [|constructor]. unfold selected_iff. simpl. split.
    + intros H. congruence.
    + intros [H|H]; discriminate H.
Defined.

(** The employer of a newly created job sends [{ status: 'in_progress' }]
    to the job update: the job is in progress without selected worker. *)
Lemma job_update_sets_status_alone :
  ~ (forall st reqs,
       Forall selected_iff (jobs st) ->
       Forall selected_iff (jobs (serve st reqs))).
Proof.
  intros H.
  specialize (H Sample.fresh [PutJob 1 1 (body_status Job.in_progress)]).
  assert (H0 : Forall selected_iff (jobs Sample.fresh)).
  { constructor; [|constructor]. unfold selected_iff. simpl. split.
    - intros H0. congruence.
    - intros [H0|H0]; discriminate H0. }
  apply H in H0. simpl in H0. inversion H0 as [|j l Hj _]; subst.
  unfold selected_iff in Hj. simpl in Hj.
  destruct Hj as [_ Hj]. apply Hj; auto.
Qed.

(** ** Rating statistics *)

(** The create handler continues the average from the stored, already
    rounded value.  Employers rate a worker 1, 1, 2 and 1 on four jobs:
    the stored average ends at 1.2, while the mean 5/4 rounds to 1.3. *)
Lemma create_average_drifts :
  let s := stats_after_create
             (stats_after_create
                (stats_after_create
                   (stats_after_create (Stats.mk 0 0 0%float 0) 1) 1) 2) 1 in
  Stats.averageRating s = (12 / 10)%float /\
  Stats.totalReviews s = 4%nat /\
  round1 (average (Number_of_Z (1 + 1 + 2 + 1)) 4) = (13 / 10)%float.
Proof.
  vm_compute. repeat split.
Qed.

(** The arithmetic is that of doubles: after the ratings 1, 1, 1, 1, 1,
    1 and 4 the stored average is 1.4, and the rating 1 that follows
    gives [(1.4 * 7 + 1) / 8], which is just below 1.35 in doubles and
    is rounded to 1.3. *)
Lemma create_average_in_doubles :
  let s7 := fold_left stats_after_create [1; 1; 1; 1; 1; 1; 4]
              (Stats.mk 0 0 0%float 0) in
  Stats.averageRating s7 = (14 / 10)%float /\
  Stats.averageRating (stats_after_create s7 1) = (13 / 10)%float.
Proof.
  vm_compute. split; reflexivity.
Qed.

(** The run of the specification: ratings 5, 4 and 3 by employers give
    4.0 and 3 reviews. *)
Lemma create_average_5_4_3 :
  let s := stats_after_create
             (stats_after_create
                (stats_after_create (Stats.mk 0 0 0%float 0) 5) 4) 3 in
  Stats.averageRating s = 4%float /\ Stats.totalReviews s = 3%nat.
Proof.
  vm_compute. split; reflexivity.
Qed.

(** The update handler divides by the number of jobs on which the worker
    has given a rating.  When the employer has rated and the worker has
    not, that number is 0: the average is [NaN], which the user document
    does not take, and the request is answered 500 after the job has been
    saved with the new rating. *)
Lemma put_rating_without_worker_rating :
  let st1 := snd (post_rating SampleRatings.completed 1 1 5 None 10) in
  let out := put_rating st1 1 1 3 None 11 in
  fst out = res 500 "Server error" /\
  option_map (fun c => Rating.rating (Completion.employerRating c))
    (completion_of (snd out) 1) = Some (Some 3) /\
  stats_of (snd out) 2 = stats_of st1 2.
Proof.
  vm_compute. repeat split.
Qed.

(** C6.  On a completed job, worker 2 rates with 2 and employer 1 rates
    the worker with 5: the create handler stores the employer's rating in
    [employerRating] and sets the worker's average to 5 with 1 review.
    The employer then changes the rating to 3: the update handler stores 3
    in [employerRating], but recomputes the worker's statistics from
    [workerRating], the rating the worker gave, so the worker's average
    becomes 2, not 3. *)
Theorem update_recomputes_from_other_rating :
  option_map (fun s => (Stats.averageRating s, Stats.totalReviews s))
    (stats_of SampleRatings.worker_rated 2)
  = Some (0%float, 0%nat) /\
  (exists s, stats_of SampleRatings.both_rated 2 = Some s /\
     Stats.averageRating s = 5%float /\ Stats.totalReviews s = 1%nat) /\
  option_map (fun c => (Rating.rating (Completion.employerRating c),
                        Rating.rating (Completion.workerRating c)))
    (completion_of SampleRatings.employer_updated 1)
  = Some (Some 3, Some 2) /\
  (exists s, stats_of SampleRatings.employer_updated 2 = Some s /\
     Stats.averageRating s = 2%float /\ Stats.totalReviews s = 1%nat).
Proof.
  split; [reflexivity|]. split.
  - eexists. split; [reflexivity|]. split; reflexivity.
  - split; [reflexivity|].
    eexists. split; [reflexivity|]. split; reflexivity.
Qed.

(** ** Settlement of a pending entry, in general *)

Section Settlement.

Variables (now : Date) (this : Transaction.t) (w : ObjectId).
Hypothesis this_pending : Transaction.status this = Transaction.pending.
Hypothesis this_user : Transaction.user this = Some w.
Hypothesis this_valid : Transaction_validate this = true.

Lemma saved_elsewhere l :
  ~ In (Transaction._id this) (map Transaction._id l) ->
  map (saved_over (Transaction.set_completed now this)) l = l.
Proof.
  induction l as [|x l IH]; simpl; intros Hn; auto.
  unfold saved_over at 1. cbn [Transaction._id Transaction.set_completed].
  destruct (Nat.eqb_spec (Transaction._id x) (Transaction._id this)) as [E|E].
  - exfalso. apply Hn. now left.
  - f_equal. apply IH. tauto.
Qed.

Lemma completed_of_pending : completed_of w this = false.
Proof.
  unfold completed_of. rewrite this_pending. apply andb_false_r.
Qed.

Lemma completed_of_set_completed :
  completed_of w (Transaction.set_completed now this) = true.
Proof.
  unfold completed_of. simpl. rewrite this_user. simpl.
  now rewrite Nat.eqb_refl.
Qed.

Lemma sum_after_save l :
  NoDup (map Transaction._id l) -> In this l ->
  sum_amounts
    (filter (completed_of w)
       (map (saved_over (Transaction.set_completed now this)) l))
  = sum_amounts (filter (completed_of w) l) + Transaction.amount this.
Proof.
  unfold sum_amounts.
  induction l as [|x l IH]; simpl; intros Hnd Hin; [contradiction|].
  inversion Hnd as [|? ? Hx Hl]; subst.
  destruct Hin as [->|Hin].
  - rewrite saved_elsewhere by exact Hx.
    unfold saved_over. cbn [Transaction._id Transaction.set_completed].
    rewrite Nat.eqb_refl.
    rewrite completed_of_set_completed, completed_of_pending.
    simpl. lia.
  - assert (E : saved_over (Transaction.set_completed now this) x = x).
    { unfold saved_over. cbn [Transaction._id Transaction.set_completed].
      destruct (Nat.eqb_spec (Transaction._id x) (Transaction._id this))
        as [E|E]; auto.
      exfalso. apply Hx. rewrite E. now apply in_map. }
    rewrite E.
    destruct (completed_of w x); simpl; rewrite IH; auto. lia.
Qed.

(** After [process] on a stored pending entry, the completed entries of
    the owner sum to the cached balance plus the amount of the entry:
    the two agree only when the amount is 0.  ([process] goes through
    when the sum before it is not negative.) *)
Lemma process_balance_off_by_amount st u :
  NoDup (map Transaction._id (transactions st)) ->
  In this (transactions st) ->
  User_findById st w = Some u ->
  0 <= getUserBalance st w ->
  exists u',
    snd (process st now this) = Some (Transaction.set_completed now this) /\
    User_findById (fst (process st now this)) w = Some u' /\
    getUserBalance (fst (process st now this)) w
    = Wallet.balance (User.wallet u') + Transaction.amount this.
Proof.
  intros Hnd Hin Hu Hsum.
  destruct (process_balance_before_save st now this w u this_valid this_user
              Hu Hsum) as (st1 & u' & E & Ht & _ & Hf & Hb).
  exists u'. rewrite E in *. cbn [fst snd] in *.
  split; [reflexivity|]. split; auto. rewrite Hb.
  unfold getUserBalance. cbn [Transaction_save transactions]. rewrite Ht.
  now apply sum_after_save.
Qed.

End Settlement.

(** * Further properties *)

(** ** What a request does to the jobs *)

Section JobsMoved.

Lemma Job_findById_jobs st st' id :
  jobs st = jobs st' -> Job_findById st id = Job_findById st' id.
Proof. unfold Job_findById. now intros ->. Qed.

Lemma Job_save_jobs st st' j :
  jobs st = jobs st' -> jobs (Job_save st j) = jobs (Job_save st' j).
Proof. unfold Job_save. simpl. now intros ->. Qed.

Lemma Job_findById_save_other st j id :
  Job._id j <> id -> Job_findById (Job_save st j) id = Job_findById st id.
Proof.
  unfold Job_findById, Job_save. simpl. intros Hne.
  induction (jobs st) as [|j0 l IH]; simpl; auto.
  destruct (Nat.eqb_spec (Job._id j0) (Job._id j)) as [E|E].
  - destruct (Nat.eqb_spec (Job._id j) id) as [E1|E1]; [contradiction|].
    destruct (Nat.eqb_spec (Job._id j0) id) as [E2|E2]; [congruence|].
    exact IH.
  - destruct (Job._id j0 =? id)%nat; auto.
Qed.

Lemma Job_save_save st j1 j2 :
  Job._id j1 = Job._id j2 ->
  jobs (Job_save (Job_save st j1) j2) = jobs (Job_save st j2).
Proof.
  unfold Job_save. simpl. intros E. rewrite map_map.
  apply map_ext. intros j0.
  destruct (Nat.eqb_spec (Job._id j0) (Job._id j1)) as [E1|E1].
  - rewrite E1, E. now rewrite Nat.eqb_refl.
  - reflexivity.
Qed.

Lemma find_remove_job_other id id' l :
  id <> id' ->
  find (fun j => Job._id j =? id')%nat (remove_job id l)
  = find (fun j => Job._id j =? id')%nat l.
Proof.
  intros Hne. induction l as [|j0 l IH]; simpl; auto.
  destruct (Nat.eqb_spec (Job._id j0) id) as [E|E]; simpl.
  - destruct (Nat.eqb_spec (Job._id j0) id') as [E'|E']; [congruence|].
    reflexivity.
  - now rewrite IH.
Qed.

(** A request of the job lifecycle leaves the jobs alone or saves one
    job, moved as [moved] says. *)
Lemma handle_jobs_saved st req :
  jobs (snd (handle st req)) = jobs st \/
  exists job job',
    Job_findById st (Job._id job') = Some job /\
    jobs (snd (handle st req)) = jobs (Job_save st job') /\ moved job job'.
Proof.
  destruct req; simpl.
  - unfold post_application.
    destruct (Job_findById st jobId) as [job|] eqn:Hj; cbn [snd]; auto.
    unfold Job.apply.
    destruct (negb (Job.canApply now job actor)); cbn [snd]; auto.
    right. eexists job, _. refine (conj _ (conj _ _)); cycle 1.
    + reflexivity.
    + right. left. split; reflexivity.
    + simpl. now rewrite (Job_findById_id _ _ _ Hj).
  - unfold put_application.
    destruct (Job_findById st jobId) as [job|] eqn:Hj; cbn [snd]; auto.
    pose proof (Job_findById_id _ _ _ Hj) as Hid.
    destruct (Job.applications_id job applicationId) as [application|] eqn:Ha;
      cbn [snd]; auto.
    destruct action.
    + destruct (negb (Job.employer job =? actor)%nat); cbn [snd]; auto.
      destruct (Job.Status_eqb (Job.status job) Job.active) eqn:Es;
        cbn [negb snd]; auto.
      apply Job_Status_eqb_eq in Es.
      unfold Job.acceptApplication. rewrite Ha. cbn [snd].
      right. eexists job, _. refine (conj _ (conj _ _)); cycle 1.
      * apply Job_save_save. reflexivity.
      * now left.
      * simpl. now rewrite Hid.
    + destruct (negb (Job.employer job =? actor)%nat); cbn [snd]; auto.
      right. eexists job, _. refine (conj _ (conj _ _)); cycle 1.
      * reflexivity.
      * right. left. split; reflexivity.
      * simpl. now rewrite Hid.
    + destruct (negb (Application.worker application =? actor)%nat);
        cbn [snd]; auto.
      right. eexists job, _. refine (conj _ (conj _ _)); cycle 1.
      * reflexivity.
      * right. left. split; reflexivity.
      * simpl. now rewrite Hid.
  - unfold delete_application.
    destruct (Job_findById st jobId) as [job|] eqn:Hj; cbn [snd]; auto.
    destruct (find _ (Job.applications job)) as [userApplication|];
      cbn [snd]; auto.
    destruct (negb _); cbn [snd]; auto.
    right. eexists job, _. refine (conj _ (conj _ _)); cycle 1.
    + reflexivity.
    + right. left. split; reflexivity.
    + simpl. now rewrite (Job_findById_id _ _ _ Hj).
  - destruct (complete_job_effects st actor jobId now newId)
      as [H|(job & Hj & _ & Es & Hjobs & _)]; [left; now rewrite H|].
    pose proof (Job_findById_id _ _ _ Hj) as Hid.
    right. destruct Hjobs as [H|H].
    + exists job, (job_completed now job). split; [|split].
      * simpl. now rewrite Hid.
      * exact H.
      * right. right. repeat split. exact Es.
    + exists job, (job_paid now newId job). split; [|split].
      * simpl. now rewrite Hid.
      * exact H.
      * right. right. repeat split. exact Es.
  - unfold put_job.
    destruct (Job_findById st id) as [job|] eqn:Hj; cbn [snd]; auto.
    destruct (negb (Job.employer job =? actor)%nat); cbn [snd]; auto.
    destruct (Job.Status_eqb (Job.status job) Job.active) eqn:Es;
      cbn [negb snd]; auto.
    apply Job_Status_eqb_eq in Es.
    right. exists job, (findByIdAndUpdate body job). split; [|split].
    + replace (Job._id (findByIdAndUpdate body job)) with (Job._id job).
      * now rewrite (Job_findById_id _ _ _ Hj).
      * destruct body as [t e n p s a w c y k x]. unfold findByIdAndUpdate.
        simpl. destruct t, e, n, p, s, a, w, c, y, k, x; reflexivity.
    + reflexivity.
    + now left.
Qed.

End JobsMoved.

Section JobsFrozen.

Lemma update_worker_stats_jobs st w f st' :
  update_worker_stats st w f = Some st' -> jobs st' = jobs st.
Proof.
  unfold update_worker_stats, User_try_save.
  destruct (User_findById st w); [|now intros [= <-]].
  destruct (is_nan _); [discriminate|].
  destruct (User_validate _); [now intros [= <-] | discriminate].
Qed.

Lemma update_worker_stats_transactions st w f st' :
  update_worker_stats st w f = Some st' -> transactions st' = transactions st.
Proof.
  unfold update_worker_stats, User_try_save.
  destruct (User_findById st w); [|now intros [= <-]].
  destruct (is_nan _); [discriminate|].
  destruct (User_validate _); [now intros [= <-] | discriminate].
Qed.

(** The statistics are written after the job: whether or not the user
    can be saved, the jobs are those that the handler has saved. *)
Lemma rated_jobs (ok : Response) (isEmployer : bool) st1 w f :
  jobs (snd (if isEmployer
             then match update_worker_stats st1 w f with
                  | Some st2 => (ok, st2)
                  | None => (res 500 "Server error", st1)
                  end
             else (ok, st1)))
  = jobs st1.
Proof.
  destruct isEmployer; [|reflexivity].
  destruct (update_worker_stats st1 w f) as [st2|] eqn:E; [|reflexivity].
  exact (update_worker_stats_jobs _ _ _ _ E).
Qed.

Lemma rated_transactions (ok : Response) (isEmployer : bool) st1 w f :
  transactions (snd (if isEmployer
                     then match update_worker_stats st1 w f with
                          | Some st2 => (ok, st2)
                          | None => (res 500 "Server error", st1)
                          end
                     else (ok, st1)))
  = transactions st1.
Proof.
  destruct isEmployer; [|reflexivity].
  destruct (update_worker_stats st1 w f) as [st2|] eqn:E; [|reflexivity].
  exact (update_worker_stats_transactions _ _ _ _ E).
Qed.

(** The three rating handlers save the job with another [completion] and
    nothing else changed. *)
Lemma rating_jobs_saved st st' :
  (exists actor jobId rating review now,
      st' = snd (post_rating st actor jobId rating review now) \/
      st' = snd (put_rating st actor jobId rating review now) \/
      st' = snd (delete_rating st actor jobId)) ->
  jobs st' = jobs st \/
  exists job c,
    Job_findById st (Job._id job) = Some job /\
    jobs st' = jobs (Job_save st (Job.set_completion c job)).
Proof.
  intros (actor & jobId & rating & review & now & [->|[->| ->]]).
  - unfold post_rating.
    destruct (Job_findById st jobId) as [job|] eqn:Hj; cbn [snd]; auto.
    rewrite <- (Job_findById_id _ _ _ Hj) in Hj.
    destruct (negb _); cbn [snd]; auto.
    destruct (Job.selectedWorker job) as [w|]; cbn [snd]; auto.
    destruct (negb (Job.employer job =? actor)%nat && negb (w =? actor)%nat);
      cbn [snd]; auto.
    destruct (truthy _); cbn [snd]; auto.
    right. exists job. cbv zeta. rewrite rated_jobs.
    destruct (Job.employer job =? actor)%nat; eexists; (split; [exact Hj|]);
      reflexivity.
  - unfold put_rating.
    destruct (Job_findById st jobId) as [job|] eqn:Hj; cbn [snd]; auto.
    rewrite <- (Job_findById_id _ _ _ Hj) in Hj.
    destruct (Job.selectedWorker job) as [w|]; cbn [snd]; auto.
    destruct (negb (Job.employer job =? actor)%nat && negb (w =? actor)%nat);
      cbn [snd]; auto.
    destruct (negb (truthy _)); cbn [snd]; auto.
    right. exists job. cbv zeta. rewrite rated_jobs.
    destruct (Job.employer job =? actor)%nat; eexists; (split; [exact Hj|]);
      reflexivity.
  - unfold delete_rating.
    destruct (Job_findById st jobId) as [job|] eqn:Hj; cbn [snd]; auto.
    rewrite <- (Job_findById_id _ _ _ Hj) in Hj.
    destruct (Job.selectedWorker job) as [w|]; cbn [snd]; auto.
    destruct (negb (Job.employer job =? actor)%nat && negb (w =? actor)%nat);
      cbn [snd]; auto.
    destruct (negb (truthy _)); cbn [snd]; auto.
    right. exists job. cbv zeta. rewrite rated_jobs.
    destruct (Job.employer job =? actor)%nat; eexists; (split; [exact Hj|]);
      reflexivity.
Qed.

Lemma post_withdraw_jobs st actor amount paymentMethodId newId :
  jobs (snd (fst (post_withdraw st actor amount paymentMethodId newId)))
  = jobs st.
Proof.
  unfold post_withdraw.
  destruct (User_findById st actor) as [user|]; auto.
  destruct (_ <? _); auto.
  destruct (User.paymentMethods_id user paymentMethodId); auto.
  match goal with
  | |- context [createTransaction ?s ?i ?d] =>
      destruct (createTransaction_cases s i d) as [H|[H|(st' & H & _ & Hj)]];
      rewrite H
  end; auto.
Qed.

Lemma process_jobs st now this :
  jobs (fst (process st now this)) = jobs st.
Proof.
  unfold process, Transaction_try_save.
  destruct (update_user_balance st _) as [st1|] eqn:E; [|reflexivity].
  apply update_user_balance_jobs in E.
  now destruct (Transaction_validate _).
Qed.

Lemma fail_jobs st now this reason :
  jobs (fst (fail st now this reason)) = jobs st.
Proof.
  unfold fail, Transaction_try_save. now destruct (Transaction_validate _).
Qed.

Lemma withdraw_settlement_jobs st now transaction :
  jobs (withdraw_settlement st now transaction) = jobs st.
Proof.
  unfold withdraw_settlement.
  pose proof (process_jobs st now transaction) as H.
  destruct (process st now transaction) as [st1 [x|]]; cbn [fst] in H; auto.
  now rewrite fail_jobs.
Qed.

Lemma api_step_jobs_moved st req : jobs_moved st (api_step st req).
Proof.
  destruct req; cbn [api_step].
  - destruct (handle_jobs_saved st req) as [H|H]; [now left | right; now left].
  - unfold delete_job.
    destruct (Job_findById st id) as [job|] eqn:Hj; cbn [snd]; [|now left].
    destruct (negb (Job.employer job =? actor)%nat); cbn [snd]; [now left|].
    destruct (Job.Status_eqb (Job.status job) Job.active) eqn:Es;
      cbn [negb snd]; [|now left].
    apply Job_Status_eqb_eq in Es.
    right. right. exists id, job. auto.
  - destruct (rating_jobs_saved st
                (snd (post_rating st actor jobId rating review now)))
      as [H|(job & c & Hj & H)]; [eauto 10 | now left |].
    right. left. exists job, (Job.set_completion c job).
    repeat split; auto. right. left. split; reflexivity.
  - destruct (rating_jobs_saved st
                (snd (put_rating st actor jobId rating review now)))
      as [H|(job & c & Hj & H)]; [eauto 10 | now left |].
    right. left. exists job, (Job.set_completion c job).
    repeat split; auto. right. left. split; reflexivity.
  - destruct (rating_jobs_saved st (snd (delete_rating st actor jobId)))
      as [H|(job & c & Hj & H)];
      [exists actor, jobId, 0, None, 0; auto | now left |].
    right. left. exists job, (Job.set_completion c job).
    repeat split; auto. right. left. split; reflexivity.
  - left. apply post_withdraw_jobs.
  - left. apply withdraw_settlement_jobs.
Qed.

(** One request leaves a job that is not [active] in the store, with its
    selected worker, and with its status unless it completes the job. *)
Lemma api_step_frozen st req id j :
  Job_findById st id = Some j -> Job.status j <> Job.active ->
  exists j',
    Job_findById (api_step st req) id = Some j' /\
    Job.selectedWorker j' = Job.selectedWorker j /\
    (Job.status j' = Job.status j \/
     (Job.status j = Job.in_progress /\ Job.status j' = Job.completed)).
Proof.
  intros Hj Hs.
  destruct (api_step_jobs_moved st req)
    as [H|[(job & job' & Hf & H & Hm)|(id0 & job0 & Hf & Ha & H)]].
  - exists j. rewrite (Job_findById_jobs _ st _ H). auto.
  - rewrite (Job_findById_jobs _ (Job_save st job') _ H).
    destruct (Nat.eq_dec (Job._id job') id) as [E|E].
    + subst id. assert (job = j) by congruence. subst job.
      exists job'. split; [eapply Job_findById_save; eauto|].
      destruct Hm as [Hm|[[H1 H2]|(H1 & H2 & H3)]]; auto; contradiction.
    + exists j. rewrite Job_findById_save_other by exact E. auto.
  - destruct (Nat.eq_dec id0 id) as [E|E].
    + subst id0. assert (job0 = j) by congruence. subst job0. contradiction.
    + exists j. split; auto.
      unfold Job_findById. rewrite H. rewrite find_remove_job_other by exact E.
      exact Hj.
Qed.

(** Once a job has left [active], no sequence of requests brings it back,
    removes it or changes its selected worker; its status stays, except
    that [in_progress] may become [completed].  In particular
    [completed], [cancelled] and [expired] are final, and a second accept
    never replaces the selected worker. *)
Theorem left_active_for_good st reqs id j :
  Job_findById st id = Some j -> Job.status j <> Job.active ->
  exists j',
    Job_findById (api_serve st reqs) id = Some j' /\
    Job.selectedWorker j' = Job.selectedWorker j /\
    (Job.status j' = Job.status j \/
     (Job.status j = Job.in_progress /\ Job.status j' = Job.completed)).
Proof.
  revert st j. induction reqs as [|req reqs IH]; intros st j Hj Hs; simpl.
  - exists j. auto.
  - destruct (api_step_frozen st req id j Hj Hs) as (j1 & H1 & Hw1 & Hs1).
    assert (Hn1 : Job.status j1 <> Job.active).
    { destruct Hs1 as [E|[_ E]]; rewrite E; auto. discriminate. }
    destruct (IH _ _ H1 Hn1) as (j' & H' & Hw' & Hs').
    exists j'. split; auto. split; [congruence|].
    destruct Hs1 as [E1|[E1 E2]], Hs' as [E'|[E3 E4]].
    + left. congruence.
    + right. split; congruence.
    + right. split; congruence.
    + congruence.
Qed.

End JobsFrozen.

Lemma left_active_for_good_witness :
  exists j',
    Job_findById
      (api_serve Sample.with_accepted
         [Lifecycle (PutApplication 1 1 10 accept 6);
          Lifecycle (PutJob 1 1 (body_status Job.active));
          DeleteJob 1 1;
          Lifecycle (CompleteJob 1 1 7 21)]) 1 = Some j' /\
    Job.selectedWorker j' = Some 2%nat.
Proof.
  destruct (left_active_for_good Sample.with_accepted
              [Lifecycle (PutApplication 1 1 10 accept 6);
               Lifecycle (PutJob 1 1 (body_status Job.active));
               DeleteJob 1 1;
               Lifecycle (CompleteJob 1 1 7 21)] 1 _ eq_refl)
    as (j' & H & Hw & _).
  - simpl. discriminate.
  - exists j'. split; [exact H | exact Hw].
Defined.


(** ** A job is paid at most once *)

Section PaidOnce.

Lemma entries_for_job_ext st st' id :
  transactions st = transactions st' ->
  entries_for_job st id = entries_for_job st' id.
Proof. unfold entries_for_job. now intros ->. Qed.

Lemma handle_job_stays st req id j :
  Job_findById st id = Some j ->
  exists j', Job_findById (snd (handle st req)) id = Some j'.
Proof.
  intros Hj.
  destruct (handle_jobs_saved st req) as [H|(job & job' & Hf & H & _)].
  - exists j. now rewrite (Job_findById_jobs _ st _ H).
  - rewrite (Job_findById_jobs _ (Job_save st job') _ H).
    destruct (Nat.eq_dec (Job._id job') id) as [E|E].
    + exists job'. subst id. eapply Job_findById_save; eauto.
    + exists j. now rewrite Job_findById_save_other.
Qed.

(** Only the completion of the job itself, from [in_progress], adds a
    ledger entry that refers to the job. *)
Lemma handle_entries st req id :
  entries_for_job (snd (handle st req)) id = entries_for_job st id \/
  exists job e job',
    Job_findById st id = Some job /\ Job.status job = Job.in_progress /\
    entries_for_job (snd (handle st req)) id = entries_for_job st id ++ [e] /\
    Transaction.type e = Transaction.earned /\
    Job_findById (snd (handle st req)) id = Some job' /\
    Job.status job' = Job.completed.
Proof.
  destruct req; simpl.
  - left. apply entries_for_job_ext. unfold post_application.
    destruct (Job_findById st jobId) as [job|]; auto.
    destruct (negb _); auto. now destruct (Job.apply _ _ _ _ _ _).
  - left. apply entries_for_job_ext. unfold put_application.
    destruct (Job_findById st jobId) as [job|]; auto.
    destruct (Job.applications_id job applicationId); auto.
    destruct action.
    + destruct (negb _); auto. destruct (negb _); auto.
      now destruct (Job.acceptApplication job applicationId).
    + now destruct (negb _).
    + now destruct (negb _).
  - left. apply entries_for_job_ext. unfold delete_application.
    destruct (Job_findById st jobId) as [job|]; auto.
    destruct (find _ _); auto. now destruct (negb _).
  - destruct (complete_job_effects st actor jobId now newId)
      as [H|(job & Hj & _ & Es & Hjobs & [Ht|Ht])].
    + left. now rewrite H.
    + left. now apply entries_for_job_ext.
    + assert (He : entries_for_job (snd (complete_job st actor jobId now newId)) id
                   = entries_for_job st id
                     ++ (if (jobId =? id)%nat
                         then [payment_entry newId jobId job] else [])).
      { unfold entries_for_job. rewrite Ht, filter_app. reflexivity. }
      destruct (Nat.eqb_spec jobId id) as [E|E].
      * subst id. right.
        pose proof (Job_findById_id _ _ _ Hj) as Hid.
        destruct Hjobs as [H|H].
        -- exists job, (payment_entry newId jobId job), (job_completed now job).
           split; [exact Hj|]. split; [exact Es|]. split; [exact He|].
           split; [reflexivity|]. split; [|reflexivity].
           rewrite (Job_findById_jobs _ _ _ H).
           eapply Job_findById_save; eauto.
        -- exists job, (payment_entry newId jobId job), (job_paid now newId job).
           split; [exact Hj|]. split; [exact Es|]. split; [exact He|].
           split; [reflexivity|]. split; [|reflexivity].
           rewrite (Job_findById_jobs _ _ _ H).
           eapply Job_findById_save; eauto.
      * left. now rewrite He, app_nil_r.
  - left. apply entries_for_job_ext. unfold put_job.
    destruct (Job_findById st id0) as [job|]; auto.
    destruct (negb _); auto. now destruct (negb _).
Qed.

Lemma handle_frozen st req id j :
  Job_findById st id = Some j -> Job.status j <> Job.active ->
  exists j',
    Job_findById (snd (handle st req)) id = Some j' /\
    (Job.status j' = Job.status j \/
     (Job.status j = Job.in_progress /\ Job.status j' = Job.completed)).
Proof.
  intros Hj Hs.
  destruct (api_step_frozen st (Lifecycle req) id j Hj Hs) as (j' & H & _ & H').
  exists j'. auto.
Qed.

(** Over any sequence of lifecycle requests a job gets at most one ledger
    entry, an [earned] one, and then it is [completed]. *)
Theorem job_paid_at_most_once st reqs id j :
  Job_findById st id = Some j ->
  entries_for_job (serve st reqs) id = entries_for_job st id \/
  exists e j',
    entries_for_job (serve st reqs) id = entries_for_job st id ++ [e] /\
    Transaction.type e = Transaction.earned /\
    Job_findById (serve st reqs) id = Some j' /\
    Job.status j' = Job.completed.
Proof.
  intros Hj.
  assert (Inv : forall reqs st1 j1,
            Job_findById st1 id = Some j1 ->
            (entries_for_job st1 id = entries_for_job st id \/
             (Job.status j1 = Job.completed /\
              exists e, entries_for_job st1 id = entries_for_job st id ++ [e] /\
                        Transaction.type e = Transaction.earned)) ->
            entries_for_job (serve st1 reqs) id = entries_for_job st id \/
            exists e j',
              entries_for_job (serve st1 reqs) id = entries_for_job st id ++ [e] /\
              Transaction.type e = Transaction.earned /\
              Job_findById (serve st1 reqs) id = Some j' /\
              Job.status j' = Job.completed).
  { clear reqs. induction reqs as [|req reqs IH]; intros st1 j1 H1 HI; simpl.
    - destruct HI as [HE|(Hc & e & HE & Hty)]; auto.
      right. exists e, j1. auto.
    - destruct (handle_job_stays st1 req id j1 H1) as (j2 & H2).
      apply (IH _ j2 H2).
      destruct (handle_entries st1 req id)
        as [He|(job & e & job' & Hf & Hp & He & Hty & Hf' & Hc')].
      + rewrite He. destruct HI as [HE|(Hc & e & HE & Hty)]; auto.
        right. split; eauto.
        assert (Hna : Job.status j1 <> Job.active) by (rewrite Hc; discriminate).
        destruct (handle_frozen st1 req id j1 H1 Hna) as (j3 & H3 & Hs3).
        assert (j3 = j2) by congruence. subst j3.
        destruct Hs3 as [E|[E _]]; congruence.
      + assert (job = j1) by congruence. subst job.
        assert (job' = j2) by congruence. subst job'.
        destruct HI as [HE|(Hc & _)]; [|congruence].
        right. split; auto. exists e. split; auto. now rewrite He, HE. }
  apply (Inv reqs st j Hj). now left.
Qed.

(** A job that is [completed], [cancelled] or [expired] never gets a
    ledger entry from the lifecycle requests: no second payment. *)
Theorem finished_job_is_not_paid st reqs id j :
  Job_findById st id = Some j ->
  Job.status j <> Job.active -> Job.status j <> Job.in_progress ->
  entries_for_job (serve st reqs) id = entries_for_job st id.
Proof.
  revert st j. induction reqs as [|req reqs IH]; intros st j Hj Ha Hp; simpl;
    auto.
  destruct (handle_frozen st req id j Hj Ha) as (j1 & H1 & Hs1).
  assert (E : Job.status j1 = Job.status j) by (destruct Hs1 as [E|[E _]]; congruence).
  rewrite (IH _ j1 H1) by congruence.
  destruct (handle_entries st req id) as [He|(job & _ & _ & Hf & Hq & _)]; auto.
  congruence.
Qed.

End PaidOnce.

Lemma job_paid_at_most_once_witness :
  exists e,
    entries_for_job
      (serve SampleLedger.in_progress
         [CompleteJob 1 1 9 21; CompleteJob 1 1 10 22]) 1
    = entries_for_job SampleLedger.in_progress 1 ++ [e].
Proof.
  destruct (job_paid_at_most_once SampleLedger.in_progress
              [CompleteJob 1 1 9 21; CompleteJob 1 1 10 22] 1 _ eq_refl)
    as [H|(e & _ & H & _)].
  - vm_compute in H. discriminate H.
  - exists e. exact H.
Defined.

Lemma finished_job_is_not_paid_witness :
  entries_for_job
    (serve (snd (complete_job SampleLedger.in_progress 1 1 9 21))
       [CompleteJob 1 1 10 22; PutJob 1 1 (body_status Job.in_progress);
        CompleteJob 1 1 11 23]) 1
  = entries_for_job (snd (complete_job SampleLedger.in_progress 1 1 9 21)) 1.
Proof.
  eapply finished_job_is_not_paid.
  - reflexivity.
  - simpl. discriminate.
  - simpl. discriminate.
Defined.

(** ** Who may do what *)

(** Accepting or rejecting an application, completing, updating or
    deleting a job has no effect on the store when the actor is not the
    employer of the job. *)
Theorem employer_only st req actor jobId job :
  employer_request req = Some (actor, jobId) ->
  Job_findById st jobId = Some job ->
  Job.employer job <> actor ->
  api_step st req = st.
Proof.
  intros Hr Hj Hne.
  assert (E : (Job.employer job =? actor)%nat = false)
    by now apply Nat.eqb_neq.
  destruct req as [req| | | | | |]; try discriminate Hr.
  - destruct req; try discriminate Hr; simpl in Hr.
    + destruct action; try discriminate Hr; injection Hr as -> ->;
        cbn [api_step handle]; unfold put_application; rewrite Hj;
        destruct (Job.applications_id job applicationId); auto;
        now rewrite E.
    + injection Hr as -> ->. cbn [api_step handle]. unfold complete_job.
      now rewrite Hj, E.
    + injection Hr as -> ->. cbn [api_step handle]. unfold put_job.
      now rewrite Hj, E.
  - simpl in Hr. injection Hr as -> ->. cbn [api_step]. unfold delete_job.
    now rewrite Hj, E.
Qed.

Lemma employer_only_witness :
  api_step Sample.with_pending (Lifecycle (PutApplication 2 1 10 accept 5))
  = Sample.with_pending.
Proof.
  eapply employer_only.
  - reflexivity.
  - reflexivity.
  - simpl. discriminate.
Defined.

(** After a successful application, a second application by the same
    worker to the same job is refused with 400 and changes nothing. *)
Theorem apply_twice_is_refused
    st actor jobId message proposedPay now newId
    message' proposedPay' now' newId' :
  code (fst (post_application st actor jobId message proposedPay now newId))
  = 201%nat ->
  post_application
    (snd (post_application st actor jobId message proposedPay now newId))
    actor jobId message' proposedPay' now' newId'
  = (res 400 "Cannot apply for this job",
     snd (post_application st actor jobId message proposedPay now newId)).
Proof.
  unfold post_application at 1 3 4.
  destruct (Job_findById st jobId) as [job|] eqn:Hj; [|discriminate].
  unfold Job.apply.
  destruct (negb (Job.canApply now job actor)); [discriminate|].
  cbn [fst snd]. intros _.
  unfold post_application.
  erewrite Job_findById_save; eauto.
  2:{ simpl. eapply Job_findById_id; eauto. }
  match goal with
  | |- context [Job.canApply now' ?j actor] =>
      destruct (Job.canApply now' j actor) eqn:Ec
  end; [|reflexivity].
  apply canApply_true in Ec. destruct Ec as (_ & _ & _ & Hn).
  exfalso. apply Hn. simpl. rewrite map_app. apply in_or_app. right.
  simpl. now left.
Qed.

Lemma apply_twice_is_refused_witness :
  code (fst (post_application
               (snd (post_application Sample.fresh 2 1 None None 5 10))
               2 1 None None 6 11)) = 400%nat.
Proof.
  rewrite (apply_twice_is_refused Sample.fresh 2 1 None None 5 10
             None None 6 11 eq_refl).
  reflexivity.
Defined.

(** ** More on the ledger *)

Section LedgerMore.

Lemma User_findById_save_other st u id :
  User._id u <> id -> User_findById (User_save st u) id = User_findById st id.
Proof.
  unfold User_findById, User_save. simpl. intros Hne.
  induction (users st) as [|u0 l IH]; simpl; auto.
  destruct (Nat.eqb_spec (User._id u0) (User._id u)) as [E|E].
  - destruct (Nat.eqb_spec (User._id u) id) as [E1|E1]; [contradiction|].
    destruct (Nat.eqb_spec (User._id u0) id) as [E2|E2]; [congruence|].
    exact IH.
  - destruct (User._id u0 =? id)%nat; auto.
Qed.

Lemma update_user_balance_other st owner w st' :
  update_user_balance st owner = Some st' ->
  owner <> Some w ->
  User_findById st' w = User_findById st w.
Proof.
  unfold update_user_balance, User_try_save. intros H Hne.
  destruct owner as [o|]; [|now injection H as <-].
  destruct (User_findById st o) as [user|] eqn:Hu; [|now injection H as <-].
  destruct (User_validate _); [|discriminate].
  injection H as <-.
  apply User_findById_save_other. simpl.
  rewrite (User_findById_id _ _ _ Hu). congruence.
Qed.

Lemma sum_amounts_app l1 l2 :
  sum_amounts (l1 ++ l2) = sum_amounts l1 + sum_amounts l2.
Proof.
  unfold sum_amounts. induction l1 as [|x l IH]; simpl; auto. lia.
Qed.

(** A new entry that passes validation changes the sum of completed
    entries of its owner by its amount when it is created [completed], and
    of nobody else; an entry that is refused changes nothing; the wallet
    of every other user is left as it was. *)
Theorem createTransaction_touches_owner_only st newId data w :
  let st' := fst (createTransaction st newId data) in
  getUserBalance st' w
  = getUserBalance st w
    + (if Transaction_validate (Transaction.new newId data)
          && (option_eqb (Transaction.d_user data) w
              && Transaction.Status_eqb (Transaction.d_status data)
                   Transaction.completed)
       then Transaction.d_amount data else 0) /\
  (Transaction.d_user data <> Some w ->
   User_findById st' w = User_findById st w).
Proof.
  intros st'. subst st'. unfold createTransaction, Transaction_try_insert.
  destruct (Transaction_validate (Transaction.new newId data)); cbn [fst andb].
  2:{ split; [lia | reflexivity]. }
  assert (Hsum : getUserBalance
                   (Transaction_insert st (Transaction.new newId data)) w
                 = getUserBalance st w
                   + (if option_eqb (Transaction.d_user data) w
                         && Transaction.Status_eqb (Transaction.d_status data)
                              Transaction.completed
                      then Transaction.d_amount data else 0)).
  { rewrite getUserBalance_insert. reflexivity. }
  destruct (update_user_balance _ (Transaction.d_user data)) as [st2|] eqn:E;
    cbn [fst].
  - split.
    + rewrite <- Hsum. apply getUserBalance_ext.
      exact (update_user_balance_transactions _ _ _ E).
    + intros Hne. now rewrite (update_user_balance_other _ _ _ _ E Hne).
  - split; [exact Hsum | reflexivity].
Qed.

(** Saving an entry over stored entries that count the same leaves every
    sum as it was. *)
Lemma sum_saved_same l x' w :
  (forall x, In x l -> Transaction._id x = Transaction._id x' ->
     completed_of w x = completed_of w x' /\
     Transaction.amount x = Transaction.amount x') ->
  sum_amounts (filter (completed_of w) (map (saved_over x') l))
  = sum_amounts (filter (completed_of w) l).
Proof.
  unfold sum_amounts.
  induction l as [|x l IH]; simpl; intros H; auto.
  destruct (Nat.eqb_spec (Transaction._id x) (Transaction._id x')) as [E|E].
  - assert (Es : saved_over x' x = x').
    { unfold saved_over. apply Nat.eqb_eq in E. now rewrite E. }
    destruct (H x (or_introl eq_refl) E) as [Hc Ha].
    rewrite Es, <- Hc. destruct (completed_of w x); simpl; rewrite IH; auto.
    now rewrite Ha.
  - assert (Es : saved_over x' x = x).
    { unfold saved_over. apply Nat.eqb_neq in E. now rewrite E. }
    rewrite Es. destruct (completed_of w x); simpl; rewrite IH; auto.
Qed.

(** [fail] on a stored entry that is not completed leaves every user and
    every sum of completed entries as they were. *)
Theorem fail_keeps_balances st now this reason w :
  NoDup (map Transaction._id (transactions st)) ->
  In this (transactions st) ->
  Transaction.status this <> Transaction.completed ->
  users (fst (fail st now this reason)) = users st /\
  getUserBalance (fst (fail st now this reason)) w = getUserBalance st w.
Proof.
  intros Hnd Hin Hs. unfold fail, Transaction_try_save.
  destruct (Transaction_validate _); cbn [fst]; [|split; reflexivity].
  split; [reflexivity|].
  unfold getUserBalance. cbn [Transaction_save transactions].
  apply sum_saved_same. intros x Hx Hid.
  assert (x = this).
  { clear - Hnd Hin Hx Hid. simpl in Hid.
    induction (transactions st) as [|y l IH]; [contradiction|].
    inversion Hnd as [|? ? Hy Hl]; subst.
    destruct Hx as [->|Hx], Hin as [->|Hin]; auto.
    - exfalso. apply Hy. rewrite Hid. now apply in_map.
    - exfalso. apply Hy. rewrite <- Hid. now apply in_map. }
  subst x. split; [|reflexivity].
  unfold completed_of. simpl.
  destruct (Transaction.status this); try contradiction;
    now rewrite !andb_false_r.
Qed.

(** [process] a second time on the document that a first [process] has
    returned.  When the completed entries of the owner, now with the
    entry, do not sum below 0, the second call repairs what the first one
    left: the cached balance is then the sum of the completed entries.
    When they do sum below 0 the second call throws and changes
    nothing. *)
Theorem process_twice_repairs st now now' this w u :
  Transaction_validate this = true ->
  Transaction.user this = Some w ->
  User_findById st w = Some u ->
  0 <= getUserBalance st w ->
  exists st1 this1,
    process st now this = (st1, Some this1) /\
    (0 <= getUserBalance st1 w ->
     exists st2 this2 u2,
       process st1 now' this1 = (st2, Some this2) /\
       User_findById st2 w = Some u2 /\
       Wallet.balance (User.wallet u2) = getUserBalance st2 w) /\
    (getUserBalance st1 w < 0 -> process st1 now' this1 = (st1, None)).
Proof.
  intros Hv Hw Hu Hsum.
  destruct (process_balance_before_save st now this w u Hv Hw Hu Hsum)
    as (st1a & u1 & E & Ht & _ & Hf1 & _).
  rewrite E in *. cbn [fst] in Hf1.
  set (this1 := Transaction.set_completed now this) in *.
  set (st1 := Transaction_save st1a this1) in *.
  exists st1, this1. split; [reflexivity|].
  assert (Hw1 : Transaction.user this1 = Some w) by exact Hw.
  assert (Hv1 : Transaction_validate this1 = true) by exact Hv.
  split; intros Hsum1.
  - destruct (process_balance_before_save st1 now' this1 w u1 Hv1 Hw1 Hf1 Hsum1)
      as (st2a & u2 & E2 & Ht2 & _ & Hf2 & Hb2).
    rewrite E2 in *. cbn [fst] in Hf2.
    eexists. eexists. exists u2. split; [reflexivity|]. split; [exact Hf2|].
    rewrite Hb2. unfold getUserBalance.
    cbn [Transaction_save transactions]. rewrite Ht2. symmetry.
    apply sum_saved_same. intros x Hx Hid.
    assert (x = this1).
    { unfold st1 in Hx. cbn [Transaction_save transactions] in Hx.
      apply in_map_iff in Hx. destruct Hx as (y & Hy & _).
      unfold saved_over in Hy.
      destruct (Nat.eqb_spec (Transaction._id y) (Transaction._id this1))
        as [E0|E0]; [now subst x|].
      subst y. exfalso. apply E0. exact Hid. }
    subst x. split; reflexivity.
  - exact (process_throws st1 now' this1 w u1 Hw1 Hf1 Hsum1).
Qed.

End LedgerMore.

Lemma fail_keeps_balances_witness :
  getUserBalance
    (fst (fail (snd (fst (post_withdraw SampleLedger.ledger 2 50 7 21))) 9
            (withdrawal_entry 2 50 "USD" (PaymentMethod.mk 7 "Bank") 21)
            "Processing failed")) 2
  = 250.
Proof.
  destruct (fail_keeps_balances
              (snd (fst (post_withdraw SampleLedger.ledger 2 50 7 21))) 9
              (withdrawal_entry 2 50 "USD" (PaymentMethod.mk 7 "Bank") 21)
              "Processing failed" 2) as [_ H].
  - simpl. repeat constructor; simpl; intuition discriminate.
  - simpl. right. left. reflexivity.
  - simpl. discriminate.
  - rewrite H. reflexivity.
Defined.

Lemma process_twice_repairs_witness :
  exists st1 this1 st2 this2 u2,
    process SampleLedger.requested_once 9 (SampleLedger.withdrawal 21)
    = (st1, Some this1) /\
    process st1 10 this1 = (st2, Some this2) /\
    User_findById st2 2 = Some u2 /\
    Wallet.balance (User.wallet u2) = 50.
Proof.
  destruct (process_twice_repairs SampleLedger.requested_once 9 10
              (SampleLedger.withdrawal 21) 2 _ eq_refl eq_refl eq_refl)
    as (st1 & this1 & E1 & Hok & _).
  - vm_compute. discriminate.
  - assert (Est : st1 = fst (process SampleLedger.requested_once 9
                                (SampleLedger.withdrawal 21)))
      by (now rewrite E1).
    destruct Hok as (st2 & this2 & u2 & E2 & Hf & Hb).
    + rewrite Est. vm_compute. discriminate.
    + exists st1, this1, st2, this2, u2. split; [exact E1|].
      split; [exact E2|]. split; [exact Hf|].
      rewrite Hb.
      assert (Est2 : st2 = fst (process st1 10 this1)) by (now rewrite E2).
      assert (Et1 : Some this1 = snd (process SampleLedger.requested_once 9
                                        (SampleLedger.withdrawal 21)))
        by (now rewrite E1).
      vm_compute in Et1. injection Et1 as ->.
      rewrite Est2, Est. reflexivity.
Defined.

Lemma createTransaction_touches_owner_only_witness :
  getUserBalance
    (fst (createTransaction SampleLedger.ledger 21
            (Transaction.mkData (Some 2%nat) Transaction.bonus 10 "USD" "Bonus"
               None None Transaction.completed))) 2 = 260 /\
  User_findById
    (fst (createTransaction SampleLedger.ledger 21
            (Transaction.mkData (Some 2%nat) Transaction.bonus 10 "USD" "Bonus"
               None None Transaction.completed))) 1
  = User_findById SampleLedger.ledger 1.
Proof.
  destruct (createTransaction_touches_owner_only SampleLedger.ledger 21
              (Transaction.mkData (Some 2%nat) Transaction.bonus 10 "USD" "Bonus"
                 None None Transaction.completed) 2) as [H _].
  destruct (createTransaction_touches_owner_only SampleLedger.ledger 21
              (Transaction.mkData (Some 2%nat) Transaction.bonus 10 "USD" "Bonus"
                 None None Transaction.completed) 1) as [_ H'].
  split.
  - rewrite H. reflexivity.
  - apply H'. simpl. discriminate.
Defined.

(** ** Pending withdrawals reserve nothing *)

Section RepeatWithdraw.

Lemma post_withdraw_step st actor amount paymentMethodId newId user paymentMethod :
  User_findById st actor = Some user ->
  amount <= Wallet.balance (User.wallet user) ->
  0 <= getUserBalance st actor ->
  User.paymentMethods_id user paymentMethodId = Some paymentMethod ->
  exists st1 user1,
    post_withdraw st actor amount paymentMethodId newId
    = (res 200 "Withdrawal initiated successfully", st1,
       Some (withdrawal_entry actor amount (Wallet.currency (User.wallet user))
               paymentMethod newId)) /\
    transactions st1
    = transactions st ++
      [withdrawal_entry actor amount (Wallet.currency (User.wallet user))
         paymentMethod newId] /\
    User_findById st1 actor = Some user1 /\
    Wallet.balance (User.wallet user1) = getUserBalance st actor /\
    Wallet.currency (User.wallet user1) = Wallet.currency (User.wallet user) /\
    User.paymentMethods user1 = User.paymentMethods user /\
    getUserBalance st1 actor = getUserBalance st actor.
Proof.
  intros Hu Hle Hsum Hpm.
  assert (Hpid : PaymentMethod._id paymentMethod = paymentMethodId).
  { unfold User.paymentMethods_id in Hpm. apply find_some in Hpm.
    destruct Hpm as [_ H]. now apply Nat.eqb_eq in H. }
  unfold post_withdraw. rewrite Hu.
  apply Z.ltb_ge in Hle. rewrite Hle, Hpm.
  set (data := Transaction.mkData _ _ _ _ _ _ _ _).
  assert (Etx : Transaction.new newId data
                = withdrawal_entry actor amount
                    (Wallet.currency (User.wallet user)) paymentMethod newId).
  { unfold data, Transaction.new, withdrawal_entry. simpl. now rewrite Hpid. }
  assert (Hd : Transaction.d_description data <> ""%string).
  { unfold data. simpl. discriminate. }
  assert (Hb : getUserBalance
                 (Transaction_insert st (Transaction.new newId data)) actor
               = getUserBalance st actor).
  { rewrite getUserBalance_insert. unfold completed_of. simpl.
    rewrite andb_false_r. lia. }
  destruct (createTransaction_valid st newId data actor user eq_refl Hd Hu)
    as [Hok _].
  rewrite Hb in Hok.
  destruct (Hok Hsum) as (st1 & user1 & E & Ht & _ & Hf & Hbal & Hc & Hp & _).
  rewrite E, Etx in *. exists st1, user1.
  split; [reflexivity|]. split; [exact Ht|]. split; [exact Hf|].
  split; [exact Hbal|]. split; [exact Hc|]. split; [exact Hp|].
  rewrite <- Hb. now apply getUserBalance_ext.
Qed.

(** The gate of a withdrawal is the cached balance, and a pending entry
    does not lower it: when one request is covered by the cached balance
    and by the completed entries (which do not sum below 0), the same
    request succeeds any number of times in a row, each time adding a
    pending entry, so the pending withdrawals can exceed the balance. *)
Theorem pending_withdrawals_reserve_nothing
    st actor amount paymentMethodId newIds user paymentMethod :
  User_findById st actor = Some user ->
  amount <= Wallet.balance (User.wallet user) ->
  amount <= getUserBalance st actor ->
  0 <= getUserBalance st actor ->
  User.paymentMethods_id user paymentMethodId = Some paymentMethod ->
  let st' := repeat_withdraw st actor amount paymentMethodId newIds in
  transactions st'
  = transactions st ++
    map (withdrawal_entry actor amount (Wallet.currency (User.wallet user))
           paymentMethod) newIds /\
  getUserBalance st' actor = getUserBalance st actor /\
  forall newId,
    code (fst (fst (post_withdraw st' actor amount paymentMethodId newId)))
    = 200%nat.
Proof.
  revert st user.
  induction newIds as [|newId newIds IH];
    intros st user Hu Hle Hsum Hpos Hpm; simpl.
  - split; [now rewrite app_nil_r|]. split; [reflexivity|].
    intros newId.
    destruct (post_withdraw_step st actor amount paymentMethodId newId
                user paymentMethod Hu Hle Hpos Hpm) as (st1 & u1 & H & _).
    now rewrite H.
  - destruct (post_withdraw_step st actor amount paymentMethodId newId
                user paymentMethod Hu Hle Hpos Hpm)
      as (st1 & u1 & H & Ht & Hu1 & Hb1 & Hc1 & Hp1 & Hs1).
    rewrite H. cbn [fst snd].
    assert (Hpm1 : User.paymentMethods_id u1 paymentMethodId = Some paymentMethod).
    { unfold User.paymentMethods_id in *. now rewrite Hp1. }
    destruct (IH st1 u1 Hu1) as (Ht' & Hs' & Hc'); auto; try lia.
    split; [|split; [congruence | exact Hc']].
    rewrite Ht', Ht, Hc1, <- app_assoc. reflexivity.
Qed.

End RepeatWithdraw.

Lemma pending_withdrawals_reserve_nothing_witness :
  List.length
    (transactions (repeat_withdraw SampleLedger.ledger 2 200 7 [21; 22; 23]%nat))
  = 4%nat /\
  code (fst (fst (post_withdraw
                    (repeat_withdraw SampleLedger.ledger 2 200 7 [21; 22; 23]%nat)
                    2 200 7 24))) = 200%nat.
Proof.
  destruct (pending_withdrawals_reserve_nothing SampleLedger.ledger 2 200 7
              [21; 22; 23]%nat _ (PaymentMethod.mk 7 "Bank") eq_refl)
    as (Ht & _ & Hc).
  - simpl; lia.
  - vm_compute. discriminate.
  - vm_compute. discriminate.
  - reflexivity.
  - split; [rewrite Ht; reflexivity | apply Hc].
Defined.

(** ** Ratings *)

Section Ratings.

Lemma update_worker_stats_other st w f u st' :
  update_worker_stats st w f = Some st' -> w <> u ->
  User_findById st' u = User_findById st u.
Proof.
  unfold update_worker_stats, User_try_save. intros H Hne.
  destruct (User_findById st w) as [worker|] eqn:Hw; [|now injection H as <-].
  destruct (is_nan _); [discriminate|].
  destruct (User_validate _); [|discriminate].
  injection H as <-. apply User_findById_save_other. simpl.
  now rewrite (User_findById_id _ _ _ Hw).
Qed.

(** Only the statistics of the selected worker are written, and only for
    the employer. *)
Lemma rated_users (ok : Response) (isEmployer : bool) st1 w f u :
  isEmployer = false \/ w <> u ->
  User_findById
    (snd (if isEmployer
          then match update_worker_stats st1 w f with
               | Some st2 => (ok, st2)
               | None => (res 500 "Server error", st1)
               end
          else (ok, st1))) u
  = User_findById st1 u.
Proof.
  intros [->|Hne]; [reflexivity|].
  destruct isEmployer; [|reflexivity].
  destruct (update_worker_stats st1 w f) as [st2|] eqn:E; [|reflexivity].
  exact (update_worker_stats_other _ _ _ _ _ E Hne).
Qed.

(** The job that a successful create request has saved. *)
Lemma post_rating_saved st actor jobId rating review now :
  code (fst (post_rating st actor jobId rating review now)) = 200%nat ->
  exists job w,
    Job_findById st jobId = Some job /\
    Job.status job = Job.completed /\
    Job.selectedWorker job = Some w /\
    ((Job.employer job =? actor)%nat = true \/ (w =? actor)%nat = true) /\
    Job_findById (snd (post_rating st actor jobId rating review now)) jobId
    = Some
        (if (Job.employer job =? actor)%nat
         then Job.set_completion
                (Completion.set_employerRating
                   (Rating.mk (Some rating) review (Some now))
                   (Job.completion job)) job
         else Job.set_completion
                (Completion.set_workerRating
                   (Rating.mk (Some rating) review (Some now))
                   (Job.completion job)) job).
Proof.
  unfold post_rating.
  destruct (Job_findById st jobId) as [job|] eqn:Hj; [|discriminate].
  pose proof (Job_findById_id _ _ _ Hj) as Hid.
  destruct (Job.Status_eqb (Job.status job) Job.completed) eqn:Es;
    [|discriminate].
  apply Job_Status_eqb_eq in Es. cbn [negb].
  destruct (Job.selectedWorker job) as [w|] eqn:Hw; [|discriminate].
  destruct (negb (Job.employer job =? actor)%nat && negb (w =? actor)%nat)
    eqn:Ep; [discriminate|].
  destruct (truthy _); [discriminate|].
  cbv zeta. intros _.
  exists job, w. split; [reflexivity|]. split; [exact Es|].
  split; [exact Hw|]. split.
  { destruct (Job.employer job =? actor)%nat; [now left|].
    destruct (w =? actor)%nat; [now right | discriminate]. }
  rewrite (Job_findById_jobs _ _ _ (rated_jobs _ _ _ _ _)).
  destruct (Job.employer job =? actor)%nat; eapply Job_findById_save; eauto.
Qed.

(** A party that has rated a job cannot rate it again: the second create
    request is refused with 400 and changes nothing. *)
Theorem rating_twice_is_refused
    st actor jobId rating review now rating' review' now' :
  rating <> 0 ->
  code (fst (post_rating st actor jobId rating review now)) = 200%nat ->
  post_rating (snd (post_rating st actor jobId rating review now))
    actor jobId rating' review' now'
  = (res 400 "You have already rated this job",
     snd (post_rating st actor jobId rating review now)).
Proof.
  intros Hr Hok.
  destruct (post_rating_saved _ _ _ _ _ _ Hok)
    as (job & w & Hj & Hs & Hw & Hparty & Hsaved).
  set (st1 := snd (post_rating st actor jobId rating review now)) in *.
  unfold post_rating at 1. rewrite Hsaved.
  assert (Ht : truthy (Some rating) = true).
  { simpl. apply Z.eqb_neq in Hr. now rewrite Hr. }
  destruct (Job.employer job =? actor)%nat eqn:Ee; simpl.
  - rewrite Hs, Hw, Ee. simpl. apply Z.eqb_neq in Hr. now rewrite Hr.
  - rewrite Hs, Hw, Ee. simpl.
    destruct Hparty as [H|H]; [discriminate|]. rewrite H. simpl.
    apply Z.eqb_neq in Hr. now rewrite Hr.
Qed.

(** A rating request leaves the stored record of a user as it was,
    unless the user is the selected worker of the job and the actor is
    the employer of the job. *)
Theorem ratings_write_selected_worker_only
    st actor jobId rating review now u :
  (forall job, Job_findById st jobId = Some job ->
     Job.selectedWorker job <> Some u \/ Job.employer job <> actor) ->
  User_findById (snd (post_rating st actor jobId rating review now)) u
  = User_findById st u /\
  User_findById (snd (put_rating st actor jobId rating review now)) u
  = User_findById st u /\
  User_findById (snd (delete_rating st actor jobId)) u = User_findById st u.
Proof.
  intros H. unfold post_rating, put_rating, delete_rating.
  destruct (Job_findById st jobId) as [job|] eqn:Hj; auto.
  specialize (H job eq_refl).
  destruct (Job.selectedWorker job) as [w|] eqn:Hw.
  2:{ repeat split; auto. now destruct (negb _). }
  assert (Hcase : (Job.employer job =? actor)%nat = false \/ w <> u).
  { destruct H as [H|H].
    - right. congruence.
    - left. now apply Nat.eqb_neq. }
  repeat split.
  - destruct (negb (Job.Status_eqb _ _)); auto.
    destruct (negb (Job.employer job =? actor)%nat && negb (w =? actor)%nat);
      auto.
    destruct (truthy _); auto. cbv zeta.
    now rewrite rated_users.
  - destruct (negb (Job.employer job =? actor)%nat && negb (w =? actor)%nat);
      auto.
    destruct (negb (truthy _)); auto. cbv zeta.
    now rewrite rated_users.
  - destruct (negb (Job.employer job =? actor)%nat && negb (w =? actor)%nat);
      auto.
    destruct (negb (truthy _)); auto. cbv zeta.
    now rewrite rated_users.
Qed.

(** Creating a rating and deleting it again gives back the job document
    as it was, when the party's rating sub-document was empty before.
    The delete request passes every check; it is answered 200, or 500
    when the statistics of the worker, written after the job, cannot be
    saved, which can only happen to the employer. *)
Theorem rating_post_delete_roundtrip st actor jobId rating review now job :
  Job_findById st jobId = Some job ->
  rating <> 0 ->
  (if (Job.employer job =? actor)%nat
   then Completion.employerRating (Job.completion job)
   else Completion.workerRating (Job.completion job)) = Rating.empty ->
  code (fst (post_rating st actor jobId rating review now)) = 200%nat ->
  let st1 := snd (post_rating st actor jobId rating review now) in
  Job_findById (snd (delete_rating st1 actor jobId)) jobId = Some job /\
  (code (fst (delete_rating st1 actor jobId)) = 200%nat \/
   code (fst (delete_rating st1 actor jobId)) = 500%nat) /\
  ((Job.employer job =? actor)%nat = false ->
   code (fst (delete_rating st1 actor jobId)) = 200%nat).
Proof.
  intros Hj Hr Hempty Hok st1.
  destruct (post_rating_saved _ _ _ _ _ _ Hok)
    as (job0 & w & Hj0 & Hs & Hw & Hparty & Hsaved).
  assert (job0 = job) by congruence. subst job0. fold st1 in Hsaved.
  pose proof (Job_findById_id _ _ _ Hj) as Hid.
  apply Z.eqb_neq in Hr.
  unfold delete_rating. rewrite Hsaved.
  destruct job as [i t e n p s a sw c pay k x].
  destruct c as [sa ca wr er]. simpl in *. subst sw.
  destruct (e =? actor)%nat eqn:Ee; simpl; rewrite Ee; simpl.
  - rewrite Hr. simpl. subst er.
    match goal with
    | |- context [update_worker_stats ?s ?v ?f] =>
        destruct (update_worker_stats s v f) as [st2|] eqn:E
    end; cbn [fst snd code].
    + split; [|split; [now left | discriminate]].
      rewrite (Job_findById_jobs _ _ _ (update_worker_stats_jobs _ _ _ _ E)).
      erewrite Job_findById_save; [|exact Hsaved|exact Hid]. reflexivity.
    + split; [|split; [now right | discriminate]].
      erewrite Job_findById_save; [|exact Hsaved|exact Hid]. reflexivity.
  - destruct Hparty as [H|H]; [discriminate|]. rewrite H. simpl.
    rewrite Hr. simpl. subst wr.
    split; [|split; [now left | reflexivity]].
    erewrite Job_findById_save; [|exact Hsaved|exact Hid]. reflexivity.
Qed.

End Ratings.

Lemma rating_twice_is_refused_witness :
  code (fst (post_rating SampleRatings.both_rated 1 1 4 None 12)) = 400%nat.
Proof.
  unfold SampleRatings.both_rated.
  rewrite (rating_twice_is_refused SampleRatings.worker_rated 1 1 5 None 11
             4 None 12).
  - reflexivity.
  - discriminate.
  - reflexivity.
Defined.

Lemma ratings_write_selected_worker_only_witness :
  User_findById (snd (post_rating SampleRatings.completed 2 1 2 None 10)) 2
  = User_findById SampleRatings.completed 2.
Proof.
  apply (ratings_write_selected_worker_only SampleRatings.completed 2 1 2 None 10 2).
  intros job Hj. injection Hj as <-. right. simpl. discriminate.
Defined.

Lemma rating_post_delete_roundtrip_witness :
  Job_findById
    (snd (delete_rating (snd (post_rating SampleRatings.completed 1 1 5 None 10))
            1 1)) 1
  = Job_findById SampleRatings.completed 1.
Proof.
  destruct (rating_post_delete_roundtrip SampleRatings.completed 1 1 5 None 10
              _ eq_refl) as [H _].
  - discriminate.
  - reflexivity.
  - reflexivity.
  - exact H.
Defined.

(** ** Payment methods *)

Section PaymentMethods.

Variable toString : ObjectId -> string.
Variable castObjectId : string -> option ObjectId.

(** A user without payment methods never gets one: the add handler fails
    on the empty array, and update and delete find nothing. *)
Theorem no_first_payment_method reqs :
  serve_methods toString castObjectId [] reqs = [].
Proof.
  induction reqs as [|req reqs IH]; simpl; auto.
  destruct req; simpl.
  - exact IH.
  - unfold put_payment_method, paymentMethods_id.
    destruct (castObjectId id); exact IH.
  - unfold delete_payment_method, paymentMethods_id.
    destruct (castObjectId id); exact IH.
Qed.

Lemma defaults_all_false l :
  defaults (map (Method.set_isDefault false) l) = 0%nat.
Proof. unfold defaults. induction l as [|m l IH]; simpl; auto. Qed.

Lemma defaults_update_true i l :
  (defaults (Method.update i (Method.set_isDefault true) l)
   <= S (defaults l))%nat.
Proof.
  unfold defaults. induction l as [|m l IH]; simpl; auto.
  destruct (Method._id m =? i)%nat; simpl.
  - destruct (Method.isDefault m); simpl; lia.
  - destruct (Method.isDefault m); simpl; lia.
Qed.

Lemma defaults_update_false i l :
  (defaults (Method.update i (Method.set_isDefault false) l) <= defaults l)%nat.
Proof.
  unfold defaults. induction l as [|m l IH]; simpl; auto.
  destruct (Method._id m =? i)%nat; simpl.
  - destruct (Method.isDefault m); simpl; lia.
  - destruct (Method.isDefault m); simpl; lia.
Qed.

Lemma defaults_update_name i n l :
  defaults (Method.update i (Method.set_name n) l) = defaults l.
Proof.
  unfold defaults. induction l as [|m l IH]; simpl; auto.
  destruct (Method._id m =? i)%nat; simpl.
  - now destruct (Method.isDefault m).
  - destruct (Method.isDefault m); simpl; lia.
Qed.

Lemma defaults_filter p l : (defaults (filter p l) <= defaults l)%nat.
Proof.
  unfold defaults. induction l as [|m l IH]; simpl; auto.
  destruct (p m); simpl; destruct (Method.isDefault m); simpl; lia.
Qed.

Lemma defaults_none l :
  existsb Method.isDefault l = false -> defaults l = 0%nat.
Proof.
  unfold defaults. induction l as [|m l IH]; simpl; auto.
  destruct (Method.isDefault m); simpl; [discriminate | exact IH].
Qed.

Lemma defaults_app l1 l2 : defaults (l1 ++ l2) = (defaults l1 + defaults l2)%nat.
Proof. unfold defaults. now rewrite filter_app, length_app. Qed.

Lemma handle_method_defaults ms req :
  (defaults ms <= 1)%nat ->
  (defaults (snd (handle_method toString castObjectId ms req)) <= 1)%nat.
Proof.
  intros H. destruct req; simpl.
  - unfold add_payment_method.
    destruct (List.length ms =? 0)%nat; cbn [snd]; auto.
    rewrite defaults_app.
    destruct (truthy_flag isDefault); simpl.
    + rewrite defaults_all_false. unfold defaults. simpl. lia.
    + unfold defaults in *. simpl. lia.
  - unfold put_payment_method, paymentMethods_id, paymentMethods_update.
    destruct (castObjectId id) as [i|]; cbn [snd]; auto.
    destruct (Method.id ms i); cbn [snd]; auto.
    assert (H1 : (defaults match name with
                            | Some n => Method.update i (Method.set_name n) ms
                            | None => ms
                            end <= 1)%nat).
    { destruct name; auto. now rewrite defaults_update_name. }
    destruct isDefault as [[|]|]; auto.
    + eapply Nat.le_trans; [apply defaults_update_true|].
      now rewrite defaults_all_false.
    + eapply Nat.le_trans; [apply defaults_update_false|]. exact H1.
  - unfold delete_payment_method.
    destruct (paymentMethods_id castObjectId ms id) as [pm|]; cbn [snd]; auto.
    destruct (Method.isDefault pm && (1 <? List.length ms)%nat); cbn [snd]; auto.
    set (ms1 := filter _ ms).
    assert (H1 : (defaults ms1 <= 1)%nat).
    { eapply Nat.le_trans; [apply defaults_filter | exact H]. }
    destruct (0 <? List.length ms1)%nat; simpl; auto.
    destruct (existsb Method.isDefault ms1) eqn:E; simpl; auto.
    apply defaults_none in E.
    destruct ms1 as [|m l]; simpl; auto.
    unfold defaults in *. simpl in *.
    destruct (Method.isDefault m); simpl in *; lia.
Qed.

(** No sequence of add, update and delete requests leaves a user with two
    default payment methods. *)
Theorem at_most_one_default ms reqs :
  (defaults ms <= 1)%nat ->
  (defaults (serve_methods toString castObjectId ms reqs) <= 1)%nat.
Proof.
  revert ms. induction reqs as [|req reqs IH]; intros ms H; simpl; auto.
  apply IH. now apply handle_method_defaults.
Qed.

Lemma map_id_filter (p : ObjectId -> bool) l :
  map Method._id (filter (fun m => p (Method._id m)) l)
  = filter p (map Method._id l).
Proof.
  induction l as [|m l IH]; simpl; auto.
  destruct (p (Method._id m)); simpl; now rewrite IH.
Qed.

Lemma map_id_set_first_default l :
  map Method._id (set_first_default l) = map Method._id l.
Proof. now destruct l. Qed.

(** A successful delete leaves the methods whose [_id], printed, differs
    from the path parameter as a string, and what is left, if anything,
    contains a default method.  When the parameter is the printed [_id]
    of a method, no method with that [_id] is left; a parameter that
    casts to the [_id] of a method without being its printed form (the
    digits in upper case) is answered 200 all the same and removes
    nothing. *)
Theorem delete_keeps_a_default ms id :
  code (fst (delete_payment_method toString castObjectId ms id)) = 200%nat ->
  let ms' := snd (delete_payment_method toString castObjectId ms id) in
  map Method._id ms'
  = filter (fun i => negb (String.eqb (toString i) id)) (map Method._id ms) /\
  (ms' <> [] -> existsb Method.isDefault ms' = true) /\
  (forall i, id = toString i -> Method.id ms' i = None) /\
  ((forall m, In m ms -> toString (Method._id m) <> id) ->
   map Method._id ms' = map Method._id ms).
Proof.
  unfold delete_payment_method.
  destruct (paymentMethods_id castObjectId ms id) as [pm|]; [|discriminate].
  destruct (Method.isDefault pm && (1 <? List.length ms)%nat); [discriminate|].
  intros _. cbn [snd]. set (ms1 := filter _ ms).
  set (ms2 := if (0 <? List.length ms1)%nat
                 && negb (existsb Method.isDefault ms1)
              then set_first_default ms1 else ms1).
  assert (Hids : map Method._id ms2
                 = filter (fun i => negb (String.eqb (toString i) id))
                     (map Method._id ms)).
  { transitivity (map Method._id ms1).
    - unfold ms2. destruct (_ && _); auto. apply map_id_set_first_default.
    - unfold ms1.
      apply (map_id_filter (fun i => negb (String.eqb (toString i) id))). }
  split; [exact Hids|]. split; [|split].
  - unfold ms2. clearbody ms1. destruct ms1 as [|m l]; simpl.
    + intros H. now contradiction H.
    + intros _. destruct (Method.isDefault m) eqn:Em; simpl.
      * now rewrite Em.
      * destruct (existsb Method.isDefault l) eqn:El; simpl.
        -- now rewrite Em, El.
        -- reflexivity.
  - intros i ->. unfold Method.id.
    destruct (find (fun m => (Method._id m =? i)%nat) ms2) as [m|] eqn:Hf; auto.
    apply find_some in Hf. destruct Hf as [Hin He].
    apply Nat.eqb_eq in He.
    assert (Hi : In i (map Method._id ms2)).
    { rewrite <- He. now apply in_map. }
    rewrite Hids in Hi. apply filter_In in Hi. destruct Hi as [_ Hi].
    rewrite String.eqb_refl in Hi. discriminate.
  - intros Hno. rewrite Hids.
    clear - Hno. induction ms as [|m l IH]; simpl; auto.
    destruct (String.eqb_spec (toString (Method._id m)) id) as [E|E]; simpl.
    + exfalso. apply (Hno m); [now left | exact E].
    + f_equal. apply IH. intros m' Hin. apply Hno. now right.
Qed.

(** Setting a method as default through the update handler makes it the
    one default method. *)
Theorem put_default_is_unique ms id name :
  code (fst (put_payment_method castObjectId ms id name (Some true)))
  = 200%nat ->
  let ms' := snd (put_payment_method castObjectId ms id name (Some true)) in
  defaults ms' = 1%nat /\
  exists m,
    paymentMethods_id castObjectId ms' id = Some m /\
    Method.isDefault m = true.
Proof.
  unfold put_payment_method, paymentMethods_id, paymentMethods_update.
  destruct (castObjectId id) as [i|]; [|discriminate].
  destruct (Method.id ms i) as [pm|] eqn:Hf; [|discriminate].
  intros _. cbn [snd].
  set (ms1 := match name with Some n => _ | None => ms end).
  assert (Hf1 : exists pm1, Method.id ms1 i = Some pm1).
  { unfold ms1. destruct name as [n|]; eauto.
    exists (Method.set_name n pm). unfold Method.id in *.
    clear ms1. induction ms as [|m l IH]; simpl in *; [discriminate|].
    destruct (Method._id m =? i)%nat eqn:E; simpl.
    - rewrite E. now injection Hf as <-.
    - rewrite E. auto. }
  destruct Hf1 as (pm1 & Hf1). clear Hf.
  assert (Hall : forall l,
             (exists x, Method.id l i = Some x) ->
             defaults (Method.update i (Method.set_isDefault true)
                         (map (Method.set_isDefault false) l)) = 1%nat /\
             exists m,
               Method.id (Method.update i (Method.set_isDefault true)
                            (map (Method.set_isDefault false) l)) i = Some m /\
               Method.isDefault m = true).
  { clear. unfold Method.id. induction l as [|m l IH]; simpl.
    - intros (x & H). discriminate.
    - intros (x & H). destruct (Method._id m =? i)%nat eqn:E; simpl.
      + rewrite E. split; [|eauto].
        unfold defaults. simpl. f_equal. apply defaults_all_false.
      + rewrite E. destruct (IH (ex_intro _ x H)) as [H1 H2]. split; auto. }
  apply Hall. eauto.
Qed.

End PaymentMethods.

(** The instance of the examples reads back what it prints. *)
Lemma lower_hex d :
  lower (HexadecimalString.NilEmpty.string_of_uint d)
  = HexadecimalString.NilEmpty.string_of_uint d.
Proof.
  induction d; simpl; [reflexivity | rewrite IHd; reflexivity ..].
Qed.

Lemma hex_cast_toString i : hex_castObjectId (hex_toString i) = Some i.
Proof.
  unfold hex_castObjectId, hex_toString.
  rewrite lower_hex, HexadecimalString.NilEmpty.usu. simpl.
  now rewrite HexadecimalNat.Unsigned.of_to.
Qed.

Lemma at_most_one_default_witness :
  (defaults
     (serve_methods hex_toString hex_castObjectId
        [Method.mk 7 Method.bank "Bank" "1234" true None]
        [AddMethod Method.card "Visa" "4242" None (Some true) 8;
         PutMethod "7" None (Some true);
         DeleteMethod "8"]) <= 1)%nat.
Proof.
  apply at_most_one_default. unfold defaults. simpl. lia.
Defined.

(** Of two methods with the [_id]s a and 8, [DELETE .../a] removes the
    first and makes the other one default; [DELETE .../A] finds the first,
    answers 200 and removes nothing. *)
Lemma delete_keeps_a_default_witness :
  let ms := [Method.mk 10 Method.bank "Bank" "1234" false None;
             Method.mk 8 Method.card "Visa" "4242" false None] in
  (map Method._id
     (snd (delete_payment_method hex_toString hex_castObjectId ms "a"))
   = [8%nat] /\
   existsb Method.isDefault
     (snd (delete_payment_method hex_toString hex_castObjectId ms "a"))
   = true) /\
  (code (fst (delete_payment_method hex_toString hex_castObjectId ms "A"))
   = 200%nat /\
   map Method._id
     (snd (delete_payment_method hex_toString hex_castObjectId ms "A"))
   = [10%nat; 8%nat]).
Proof.
  intros ms. split.
  - destruct (delete_keeps_a_default hex_toString hex_castObjectId ms "a"
                eq_refl) as (H1 & H2 & _).
    split; [exact H1|]. apply H2. simpl. discriminate.
  - split; [reflexivity|].
    destruct (delete_keeps_a_default hex_toString hex_castObjectId ms "A"
                eq_refl) as (H1 & _).
    exact H1.
Defined.

Lemma put_default_is_unique_witness :
  defaults
    (snd (put_payment_method hex_castObjectId
            [Method.mk 7 Method.bank "Bank" "1234" true None;
             Method.mk 8 Method.card "Visa" "4242" false None]
            "8" None (Some true))) = 1%nat.
Proof.
  apply (put_default_is_unique hex_castObjectId
           [Method.mk 7 Method.bank "Bank" "1234" true None;
            Method.mk 8 Method.card "Visa" "4242" false None] "8" None eq_refl).
Defined.

(** ** Routers *)

Section Routers.

Ltac split_ifs :=
  repeat match goal with
         | |- context [if ?c then _ else _] => destruct c
         | |- context [match ?c with Some _ => _ | None => _ end] => destruct c
         end.

(** No request is ever answered by the clear-all handler of the
    notifications router: [DELETE /:id] is registered before
    [DELETE /clear-all] and matches every one-segment path.  Every other
    notification route is selected at its own path. *)
Theorem clear_all_is_shadowed :
  (forall method path params,
     dispatch notification_routes method path
     <> Some (NotificationClearAll, params)) /\
  dispatch notification_routes DELETE ["clear-all"%string]
  = Some (NotificationDelete, [("id", "clear-all")]%string) /\
  dispatch notification_routes GET [] = Some (NotificationList, []) /\
  dispatch notification_routes PUT ["n1"; "read"]%string
  = Some (NotificationRead, [("id", "n1")]%string) /\
  dispatch notification_routes PUT ["read-all"%string]
  = Some (NotificationReadAll, []) /\
  dispatch notification_routes GET ["unread-count"%string]
  = Some (NotificationUnreadCount, []).
Proof.
  split; [|repeat split].
  intros method path params.
  destruct method; destruct path as [|a [|b [|c r]]]; simpl;
    try congruence;
    repeat match goal with
           | |- context [String.eqb ?x ""] =>
               destruct (String.eqb_spec x ""); [subst; simpl|]
           end;
    split_ifs; simpl; congruence.
Qed.

(** No request is ever answered by the jobs listing of the users router:
    [GET /:id] is registered before [GET /jobs].  [GET /profile], which
    is registered before it, is selected at its own path. *)
Theorem user_jobs_is_shadowed :
  (forall method path params,
     dispatch user_routes method path <> Some (UserJobs, params)) /\
  dispatch user_routes GET ["jobs"%string]
  = Some (UserById, [("id", "jobs")]%string) /\
  dispatch user_routes GET ["profile"%string] = Some (UserProfile, []).
Proof.
  split; [|repeat split].
  intros method path params.
  destruct method; destruct path as [|a [|b [|c r]]]; simpl;
    try congruence;
    repeat match goal with
           | |- context [String.eqb ?x ""] =>
               destruct (String.eqb_spec x ""); [subst; simpl|]
           end;
    split_ifs; simpl; congruence.
Qed.

End Routers.

(** ** Notifications *)

Section Notifications.

Lemma createNotification_made_here ns userId type title message data now rnd :
  Forall made_here ns ->
  Forall made_here
    (fst (createNotification ns userId type title message data now rnd)) /\
  made_here (snd (createNotification ns userId type title message data now rnd)).
Proof.
  intros H. unfold createNotification. cbn [fst snd].
  assert (Hn : made_here
                 (Notification.mk
                    ("notif_" ++ DecimalString.NilZero.string_of_int (Z.to_int now)
                     ++ "_" ++ rnd)%string
                    userId type title message data false None now)).
  { unfold made_here. simpl. repeat rewrite Ascii.eqb_refl.
    now destruct (_ ++ _)%string. }
  split; auto. apply Forall_app. split; auto.
Qed.

Lemma made_here_not_clear_all ns actor :
  Forall made_here ns -> find (is_own actor "clear-all") ns = None.
Proof.
  induction 1 as [|n l Hn _ IH]; simpl; auto.
  unfold is_own at 1.
  destruct (String.eqb_spec (Notification.id n) "clear-all") as [E|E];
    simpl; auto.
  unfold made_here in Hn. rewrite E in Hn. discriminate Hn.
Qed.

(** [DELETE /api/notifications/clear-all] clears nothing: on
    notifications made by [createNotification] it is answered by the
    delete-by-id handler with 404, and every notification stays. *)
Theorem delete_clear_all_clears_nothing ns actor now :
  Forall made_here ns ->
  notifications_api ns actor DELETE ["clear-all"%string] now
  = (res 404 "Notification not found", ns).
Proof.
  intros H. unfold notifications_api. simpl.
  unfold delete_notification. now rewrite made_here_not_clear_all.
Qed.

Lemma update_found_others {A} (p q : A -> bool) f l :
  (forall x, p x = true -> q x = false) ->
  (forall x, p x = true -> q (f x) = false) ->
  filter q (update_found p f l) = filter q l.
Proof.
  intros H1 H2. induction l as [|x l IH]; simpl; auto.
  destruct (p x) eqn:E; simpl.
  - now rewrite (H1 x E), (H2 x E).
  - now rewrite IH.
Qed.

Lemma remove_found_others {A} (p q : A -> bool) l :
  (forall x, p x = true -> q x = false) ->
  filter q (remove_found p l) = filter q l.
Proof.
  intros H1. induction l as [|x l IH]; simpl; auto.
  destruct (p x) eqn:E; simpl.
  - now rewrite (H1 x E).
  - now rewrite IH.
Qed.

Lemma is_own_other actor u id n :
  u <> actor -> is_own actor id n = true ->
  (Notification.userId n =? u)%nat = false.
Proof.
  unfold is_own. intros Hne H. apply andb_prop in H. destruct H as [_ H].
  apply Nat.eqb_eq in H. apply Nat.eqb_neq. congruence.
Qed.

(** Whatever a user sends to the notifications router, the notifications
    of every other user stay as they are, in their order. *)
Theorem notifications_are_private ns actor method path now u :
  u <> actor ->
  filter (fun n => Notification.userId n =? u)%nat
    (snd (notifications_api ns actor method path now))
  = filter (fun n => Notification.userId n =? u)%nat ns.
Proof.
  intros Hne. unfold notifications_api.
  destruct (dispatch notification_routes method path) as [[h params]|]; auto.
  destruct h; auto.
  - destruct params as [|[k id] r]; auto. unfold mark_read.
    destruct (find _ ns); auto. cbn [snd].
    apply update_found_others; intros x Hx.
    + eapply is_own_other; eauto.
    + simpl. eapply is_own_other; eauto.
  - unfold read_all. cbn [snd].
    induction ns as [|n l IH]; simpl; auto.
    destruct (Nat.eqb_spec (Notification.userId n) actor) as [E|E]; simpl.
    + destruct (Nat.eqb_spec (Notification.userId n) u) as [E'|E'];
        [congruence | exact IH].
    + destruct (Notification.userId n =? u)%nat; now rewrite IH.
  - destruct params as [|[k id] r]; auto. unfold delete_notification.
    destruct (find _ ns); auto. cbn [snd].
    apply remove_found_others; intros x Hx. eapply is_own_other; eauto.
  - unfold clear_all. cbn [snd].
    induction ns as [|n l IH]; simpl; auto.
    destruct (Nat.eqb_spec (Notification.userId n) actor) as [E|E]; simpl.
    + destruct (Nat.eqb_spec (Notification.userId n) u) as [E'|E'];
        [congruence | exact IH].
    + destruct (Notification.userId n =? u)%nat; now rewrite IH.
Qed.

(** After read-all the user has no unread notification, and the unread
    count of every other user is what it was. *)
Theorem read_all_leaves_nothing_unread ns actor now u :
  unread_count (snd (read_all ns actor now)) actor = 0%nat /\
  (u <> actor ->
   unread_count (snd (read_all ns actor now)) u = unread_count ns u).
Proof.
  unfold read_all, unread_count. cbn [snd]. split.
  - induction ns as [|n l IH]; simpl; auto.
    destruct (Nat.eqb_spec (Notification.userId n) actor) as [E|E]; simpl.
    + apply Nat.eqb_eq in E. rewrite E. simpl. exact IH.
    + apply Nat.eqb_neq in E. rewrite E. simpl. exact IH.
  - intros Hne. induction ns as [|n l IH]; simpl; auto.
    destruct (Nat.eqb_spec (Notification.userId n) actor) as [E|E]; simpl.
    + destruct (Nat.eqb_spec (Notification.userId n) u) as [E'|E'];
        [congruence | exact IH].
    + destruct ((Notification.userId n =? u)%nat && negb (Notification.read n));
        simpl; now rewrite IH.
Qed.

End Notifications.

Lemma delete_clear_all_clears_nothing_witness :
  notifications_api
    (fst (createNotification [] 2 "job" "Accepted" "You got the job" "" 1700 "k3x9"))
    2 DELETE ["clear-all"%string] 1800
  = (res 404 "Notification not found",
     fst (createNotification [] 2 "job" "Accepted" "You got the job" "" 1700 "k3x9")).
Proof.
  apply delete_clear_all_clears_nothing.
  apply createNotification_made_here. constructor.
Defined.

Lemma notifications_are_private_witness :
  filter (fun n => Notification.userId n =? 2)%nat
    (snd (notifications_api
            (fst (createNotification [] 2 "job" "Accepted" "You got the job" ""
                    1700 "k3x9"))
            3 PUT ["read-all"%string] 1800))
  = fst (createNotification [] 2 "job" "Accepted" "You got the job" "" 1700 "k3x9").
Proof.
  rewrite notifications_are_private.
  - reflexivity.
  - discriminate.
Defined.

Lemma read_all_leaves_nothing_unread_witness :
  unread_count
    (snd (read_all
            (fst (createNotification [] 2 "job" "Accepted" "You got the job" ""
                    1700 "k3x9")) 3 1800)) 2 = 1%nat.
Proof.
  rewrite (proj2 (read_all_leaves_nothing_unread _ 3 1800 2)).
  - reflexivity.
  - discriminate.
Defined.

(** ** Listing and paging *)

Section Listing.

Context {A : Type} (key : A -> Z).

Lemma insert_desc_perm x l : Permutation (insert_desc key x l) (x :: l).
Proof.
  induction l as [|y l IH]; simpl; auto.
  destruct (key y <=? key x); auto.
  rewrite IH. apply perm_swap.
Qed.

Lemma sort_desc_perm l : Permutation (sort_desc key l) l.
Proof.
  induction l as [|x l IH]; simpl; auto.
  rewrite insert_desc_perm. now constructor.
Qed.

Lemma insert_desc_sorted x l :
  StronglySorted (fun a b => key b <= key a) l ->
  StronglySorted (fun a b => key b <= key a) (insert_desc key x l).
Proof.
  induction 1 as [|y l Hs IH Hy]; simpl.
  - repeat constructor.
  - destruct (Z.leb_spec (key y) (key x)) as [Hle|Hlt].
    + constructor; [now constructor|].
      constructor; auto.
      rewrite Forall_forall in *. intros z Hz. specialize (Hy z Hz). lia.
    + constructor; auto.
      rewrite Forall_forall in *. intros z Hz.
      apply (Permutation_in _ (insert_desc_perm x l)) in Hz.
      destruct Hz as [<-|Hz]; [lia | auto].
Qed.

Lemma sort_desc_sorted l :
  StronglySorted (fun a b => key b <= key a) (sort_desc key l).
Proof.
  induction l as [|x l IH]; simpl; [constructor|].
  now apply insert_desc_sorted.
Qed.

End Listing.

Section Paging.

Context {A : Type}.

Lemma firstn_add (a b : nat) (l : list A) :
  firstn (a + b) l = firstn a l ++ firstn b (skipn a l).
Proof.
  revert l. induction a as [|a IH]; intros l; simpl; auto.
  destruct l as [|x l]; simpl.
  - now rewrite firstn_nil.
  - now rewrite IH.
Qed.

(** The slice of page [i + 1] when the limit is [L]. *)
Lemma js_slice_page (i L : nat) (l : list A) :
  js_slice (Z.of_nat (i * L)) (Z.of_nat (i * L) + Z.of_nat L) l
  = firstn L (skipn (i * L) l).
Proof.
  unfold js_slice, clamp.
  destruct (Z.ltb_spec (Z.of_nat (i * L)) 0) as [H|_]; [lia|].
  destruct (Z.ltb_spec (Z.of_nat (i * L) + Z.of_nat L) 0) as [H|_]; [lia|].
  rewrite <- Nat2Z.inj_add, !Nat2Z.id.
  set (a := (i * L)%nat). set (len := List.length l).
  destruct (Nat.le_gt_cases len a) as [Hge|Hlt].
  - rewrite (Nat.min_r a len) by lia.
    rewrite (skipn_all2 l) by (fold len; lia).
    rewrite (skipn_all2 l) by (fold len; lia).
    now rewrite !firstn_nil.
  - rewrite (Nat.min_l a len) by lia.
    destruct (Nat.le_gt_cases (a + L) len) as [H|H].
    + rewrite (Nat.min_l (a + L) len) by lia. f_equal. lia.
    + rewrite (Nat.min_r (a + L) len) by lia.
      rewrite !firstn_all2; auto; rewrite length_skipn; fold len; lia.
Qed.

Lemma pages_concat (L n : nat) (l : list A) :
  concat (map (fun p => firstn L (skipn ((p - 1) * L) l)) (seq 1 n))
  = firstn (n * L) l.
Proof.
  induction n as [|n IH]; [reflexivity|].
  rewrite seq_S, map_app, concat_app, IH. simpl.
  rewrite app_nil_r, Nat.sub_0_r.
  replace (L + n * L)%nat with (n * L + L)%nat by lia.
  now rewrite firstn_add.
Qed.

End Paging.

Section NotificationListing.

Lemma filter_twice {A} (p q : A -> bool) l :
  filter q (filter p l) = filter (fun x => p x && q x) l.
Proof.
  induction l as [|x l IH]; simpl; auto.
  destruct (p x); simpl; [destruct (q x)|]; now rewrite IH.
Qed.

(** The list that the notification listing pages through holds the
    user's own notifications (the unread ones when asked so), each once
    and nothing else, the newest first. *)
Theorem notification_listing_sorted ns actor unreadOnly :
  Permutation (user_notifications ns actor unreadOnly)
    (filter (fun n => (Notification.userId n =? actor)%nat
                      && (negb unreadOnly || negb (Notification.read n)))
       ns) /\
  StronglySorted
    (fun a b => Notification.createdAt b <= Notification.createdAt a)
    (user_notifications ns actor unreadOnly).
Proof.
  unfold user_notifications. split; [|apply sort_desc_sorted].
  rewrite sort_desc_perm.
  destruct unreadOnly; simpl.
  - rewrite filter_twice. apply Permutation_refl'. reflexivity.
  - apply Permutation_refl'. apply filter_ext. intros n.
    now rewrite andb_true_r.
Qed.

(** When [Number(limit)] and [parseInt(limit)] are the same positive
    integer, the pages 1 to [pages] of the notification listing, one
    after the other, are the whole list, and no page is longer than the
    limit. *)
Theorem notification_pages_cover ns actor limit unreadOnly :
  0 < limit ->
  exists pages,
    snd (get_notifications ns actor (mkPaging 1 limit limit) unreadOnly)
    = Some (Z.of_nat pages) /\
    concat
      (map (fun p =>
              fst (fst (get_notifications ns actor
                          (mkPaging (Z.of_nat p) limit limit) unreadOnly)))
         (seq 1 pages))
    = user_notifications ns actor unreadOnly /\
    forall page,
      Z.of_nat
        (List.length
           (fst (fst (get_notifications ns actor (mkPaging page limit limit)
                        unreadOnly))))
      <= limit.
Proof.
  intros Hl. unfold get_notifications.
  cbn [fst snd Number_page Number_limit parseInt_limit].
  set (l := user_notifications ns actor unreadOnly).
  set (total := List.length l).
  set (k := - (- Z.of_nat total / limit)).
  assert (Hk0 : 0 <= k).
  { unfold k. assert (- Z.of_nat total / limit <= 0); [|lia].
    apply Z.div_le_upper_bound; lia. }
  assert (Hk : Z.of_nat total <= k * limit).
  { unfold k. pose proof (Z.mul_div_le (- Z.of_nat total) limit Hl). lia. }
  exists (Z.to_nat k). split; [|split].
  - unfold ceil_div. destruct (Z.eqb_spec limit 0); [lia|].
    now rewrite Z2Nat.id.
  - set (L := Z.to_nat limit).
    assert (HL : limit = Z.of_nat L) by (unfold L; lia).
    transitivity
      (concat (map (fun p => firstn L (skipn ((p - 1) * L) l))
                 (seq 1 (Z.to_nat k)))).
    + f_equal. apply map_ext_in. intros p Hp. apply in_seq in Hp.
      rewrite <- (js_slice_page (p - 1) L l).
      assert (Hs : (Z.of_nat p - 1) * limit = Z.of_nat ((p - 1) * L)).
      { rewrite Nat2Z.inj_mul, Nat2Z.inj_sub by lia. now rewrite HL. }
      rewrite Hs. now rewrite <- HL.
    + rewrite pages_concat. apply firstn_all2. fold total. nia.
  - intros page. unfold js_slice.
    rewrite length_firstn. unfold clamp.
    fold total.
    destruct (Z.ltb_spec ((page - 1) * limit) 0),
             (Z.ltb_spec ((page - 1) * limit + limit) 0); lia.
Qed.

End NotificationListing.

(** [GET /api/notifications?page=1&limit=20] *)
Lemma notification_pages_cover_witness :
  paging_of_query (Some "1"%string) (Some "20"%string)
  = Some (mkPaging 1 20 20) /\
  exists pages,
    snd (get_notifications
           (fst (createNotification [] 2 "job" "Accepted" "You got the job" ""
                   1700 "k3x9")) 2 (mkPaging 1 20 20) false)
    = Some (Z.of_nat pages).
Proof.
  split; [reflexivity|].
  destruct (notification_pages_cover
              (fst (createNotification [] 2 "job" "Accepted" "You got the job" ""
                      1700 "k3x9")) 2 20 false) as (pages & H & _).
  - lia.
  - exists pages. exact H.
Defined.

(** [GET /api/notifications?limit=1e1]: [Number] reads 10 and [parseInt]
    reads 1.  Of three notifications the first page holds one, and
    [pages] is 1: the other two are on no page. *)
Lemma notification_pages_1e1 :
  let ns :=
    [Notification.mk "n1" 2 "job" "A" "a" "" false None 30;
     Notification.mk "n2" 2 "job" "B" "b" "" false None 20;
     Notification.mk "n3" 2 "job" "C" "c" "" false None 10] in
  let out := get_notifications ns 2 (mkPaging 1 10 1) false in
  map Notification.id (fst (fst out)) = ["n1"%string] /\
  snd (fst out) = 3%nat /\ snd out = Some 1.
Proof.
  repeat split.
Qed.

(** ** Presence *)

Section PresenceProps.

Lemma Map_get_set_same {V} k (v : V) m : Map_get k (Map_set k v m) = Some v.
Proof.
  unfold Map_get. induction m as [|[k' v'] m IH]; simpl.
  - now rewrite Nat.eqb_refl.
  - destruct (k' =? k)%nat eqn:E; simpl.
    + now rewrite Nat.eqb_refl.
    + rewrite E. exact IH.
Qed.

Lemma Map_get_set_other {V} k k' (v : V) m :
  k' <> k -> Map_get k' (Map_set k v m) = Map_get k' m.
Proof.
  intros Hne. unfold Map_get. induction m as [|[k0 v0] m IH]; simpl.
  - apply Nat.eqb_neq in Hne. rewrite Nat.eqb_sym in Hne. now rewrite Hne.
  - destruct (Nat.eqb_spec k0 k) as [E|E]; simpl.
    + subst k0. apply Nat.eqb_neq in Hne. rewrite Nat.eqb_sym in Hne.
      now rewrite Hne.
    + destruct (k0 =? k')%nat; auto.
Qed.

Lemma Map_get_delete_same {V} k (m : list (ObjectId * V)) :
  Map_get k (Map_delete k m) = None.
Proof.
  unfold Map_get, Map_delete. induction m as [|[k0 v0] m IH]; simpl; auto.
  destruct (k0 =? k)%nat eqn:E; simpl; auto. now rewrite E.
Qed.

Lemma Map_get_delete_other {V} k k' (m : list (ObjectId * V)) :
  k' <> k -> Map_get k' (Map_delete k m) = Map_get k' m.
Proof.
  intros Hne. unfold Map_get, Map_delete.
  induction m as [|[k0 v0] m IH]; simpl; auto.
  destruct (Nat.eqb_spec k0 k) as [E|E]; simpl.
  - subst k0. apply Nat.eqb_neq in Hne. rewrite Nat.eqb_sym in Hne.
    now rewrite Hne.
  - destruct (k0 =? k')%nat; auto.
Qed.

(** In every state the module can reach, the open sockets have distinct
    ids and an event for a user is only ever sent to a socket of that
    user that is still open. *)
Theorem events_go_to_open_sockets p :
  presence_reachable p ->
  NoDup (map fst (live p)) /\
  forall u s, emitToUser p u = Some s -> In (s, u) (live p).
Proof.
  induction 1 as [|p socket user _ [Hnd IH] Hfresh
                  |p socket user _ [Hnd IH] Hin]; simpl.
  - split; [constructor | discriminate].
  - split.
    + rewrite map_app. simpl.
      apply NoDup_rev in Hnd. rewrite <- (rev_involutive (map fst (live p) ++ _)).
      apply NoDup_rev. rewrite rev_app_distr. simpl. constructor; auto.
      now rewrite <- in_rev.
    + intros u s. unfold emitToUser. cbn [connectedUsers on_connection].
      destruct (Nat.eq_dec u user) as [->|Hne].
      * rewrite Map_get_set_same. intros [= <-].
        apply in_or_app. right. now left.
      * rewrite Map_get_set_other by exact Hne. intros Hs.
        apply in_or_app. left. now apply IH.
  - split.
    + clear - Hnd. induction (live p) as [|[s u] l IHl]; simpl; auto.
      simpl in Hnd. inversion Hnd as [|? ? Hs Hl]; subst.
      destruct (s =? socket)%nat; simpl; auto.
      constructor; auto. intros Hc. apply Hs.
      apply in_map_iff in Hc. destruct Hc as (e & He & Hc).
      apply filter_In in Hc. apply in_map_iff. exists e. tauto.
    + intros u s. unfold emitToUser. cbn [connectedUsers on_disconnect].
      destruct (Nat.eq_dec u user) as [->|Hne].
      * rewrite Map_get_delete_same. discriminate.
      * rewrite Map_get_delete_other by exact Hne. intros Hs.
        apply IH in Hs. apply filter_In. split; auto. simpl.
        destruct (Nat.eqb_spec s socket) as [E|E]; auto. subst s.
        exfalso. apply Hne.
        clear - Hnd Hs Hin. induction (live p) as [|[s0 u0] l IHl];
          [contradiction|].
        simpl in Hnd. inversion Hnd as [|? ? Hn Hl]; subst.
        destruct Hs as [Hs|Hs], Hin as [Hi|Hi]; try congruence; auto.
        -- injection Hs as -> ->. exfalso. apply Hn.
           apply in_map_iff. exists (socket, user). auto.
        -- injection Hi as -> ->. exfalso. apply Hn.
           apply in_map_iff. exists (socket, u). auto.
Qed.

(** When a user has two open sockets and one of them disconnects, the
    user's entry is gone: events for the user are not sent any more,
    although the other socket is still open. *)
Theorem second_session_loses_events p s1 s2 u :
  presence_reachable p ->
  In (s1, u) (live p) -> In (s2, u) (live p) -> s1 <> s2 ->
  emitToUser (on_disconnect p s1 u) u = None /\
  In (s2, u) (live (on_disconnect p s1 u)).
Proof.
  intros _ H1 H2 Hne. split.
  - unfold emitToUser. simpl. apply Map_get_delete_same.
  - simpl. apply filter_In. split; auto. simpl.
    apply Nat.eqb_neq in Hne. rewrite Nat.eqb_sym in Hne. now rewrite Hne.
Qed.

End PresenceProps.

Lemma events_go_to_open_sockets_witness :
  In (11%nat, 2%nat)
    (live (on_connection (on_connection (mkPresence [] []) 10 2) 11 2)).
Proof.
  apply (events_go_to_open_sockets
           (on_connection (on_connection (mkPresence [] []) 10 2) 11 2)).
  - apply presence_connect; [apply presence_connect; [constructor|]|];
      simpl; intuition discriminate.
  - reflexivity.
Defined.

Lemma second_session_loses_events_witness :
  emitToUser
    (on_disconnect (on_connection (on_connection (mkPresence [] []) 10 2) 11 2)
       10 2) 2 = None.
Proof.
  apply (second_session_loses_events
           (on_connection (on_connection (mkPresence [] []) 10 2) 11 2)
           10 11 2).
  - apply presence_connect; [apply presence_connect; [constructor|]|];
      simpl; intuition discriminate.
  - simpl. auto.
  - simpl. auto.
  - discriminate.
Defined.

(** ** Authentication and account deletion *)

Section AuthProps.

Variable verify : string -> Verified.

(** A user that any of the three paths accepts is a stored, active
    account. *)
Lemma accepted_is_active accounts token u :
  auth verify accounts token = Next u \/
  optionalAuth verify accounts token = Some u \/
  socket_auth verify accounts token = Some u ->
  In u accounts /\ Account.isActive u = true.
Proof.
  unfold auth, optionalAuth, socket_auth.
  destruct token as [t|]; [|intros [H|[H|H]]; discriminate].
  destruct (String.eqb t ""); [intros [H|[H|H]]; discriminate|].
  destruct (verify t); try (intros [H|[H|H]]; discriminate).
  destruct (Account_findById accounts userId) as [user|] eqn:Hf;
    [|intros [H|[H|H]]; discriminate].
  unfold Account_findById in Hf. apply find_some in Hf. destruct Hf as [Hin _].
  destruct (Account.isActive user) eqn:Ha, (Account.isBanned user); simpl;
    intros [H|[H|H]]; try discriminate; injection H as <-; auto.
Qed.

(** The three authentication paths accept the same tokens, as the same
    user: [auth] calls [next()] with a user exactly when [optionalAuth]
    attaches that user and exactly when the socket handshake accepts
    it. *)
Theorem auth_paths_agree accounts token u :
  (auth verify accounts token = Next u <->
   optionalAuth verify accounts token = Some u) /\
  (auth verify accounts token = Next u <->
   socket_auth verify accounts token = Some u).
Proof.
  unfold auth, optionalAuth, socket_auth.
  destruct token as [t|]; [|split; split; discriminate].
  destruct (String.eqb t ""); [split; split; discriminate|].
  destruct (verify t); try (split; split; discriminate).
  destruct (Account_findById accounts userId) as [user|];
    [|split; split; discriminate].
  destruct (Account.isActive user), (Account.isBanned user); simpl;
    split; split; intros H; congruence.
Qed.


(** After a successful account deletion no token authenticates as the
    deleted account, on any of the three paths. *)
Theorem deleted_account_is_locked_out accounts jobs reqUser now token u :
  code (fst (delete_account accounts jobs reqUser now)) = 200%nat ->
  let accounts' := snd (delete_account accounts jobs reqUser now) in
  (auth verify accounts' token = Next u \/
   optionalAuth verify accounts' token = Some u \/
   socket_auth verify accounts' token = Some u) ->
  Account._id u <> Account._id reqUser.
Proof.
  intros Hok accounts' H.
  apply accepted_is_active in H. destruct H as [Hin Hact].
  unfold accounts', delete_account in Hin, Hok.
  destruct (0 <? _)%nat; [discriminate|]. cbn [snd] in Hin.
  apply in_map_iff in Hin. destruct Hin as (u0 & Hu0 & _).
  destruct (Nat.eqb_spec (Account._id u0) (Account._id reqUser)) as [E|E].
  - subst u. simpl in Hact. discriminate.
  - subst u. exact E.
Qed.

End AuthProps.

Section AccountDeletion.

(** An account cannot be deleted exactly when some job that is [active]
    or [in_progress] has it as employer or as selected worker; the
    accounts are then left as they are. *)
Theorem engaged_account_is_kept accounts jobs reqUser now :
  (code (fst (delete_account accounts jobs reqUser now)) = 400%nat <->
   exists j, In j jobs /\
     (Job.status j = Job.active \/ Job.status j = Job.in_progress) /\
     (Job.employer j = Account._id reqUser \/
      Job.selectedWorker j = Some (Account._id reqUser))) /\
  (code (fst (delete_account accounts jobs reqUser now)) = 400%nat ->
   snd (delete_account accounts jobs reqUser now) = accounts).
Proof.
  unfold delete_account.
  set (id := Account._id reqUser).
  assert (Heng : forall j, engages id j = true <->
            (Job.status j = Job.active \/ Job.status j = Job.in_progress) /\
            (Job.employer j = id \/ Job.selectedWorker j = Some id)).
  { intros j. unfold engages.
    rewrite <- andb_orb_distrib_l, andb_true_iff, !orb_true_iff.
    rewrite !Job_Status_eqb_eq, Nat.eqb_eq.
    assert (Ho : option_eqb (Job.selectedWorker j) id = true <->
                 Job.selectedWorker j = Some id).
    { unfold option_eqb. destruct (Job.selectedWorker j) as [w|].
      - rewrite Nat.eqb_eq. split; congruence.
      - split; discriminate. }
    rewrite Ho. tauto. }
  destruct (filter (engages id) jobs) as [|j l] eqn:Hf; simpl.
  - split; [|discriminate]. split; [discriminate|].
    intros (j & Hin & Hj). exfalso.
    assert (In j (filter (engages id) jobs)).
    { apply filter_In. split; auto. now apply Heng. }
    rewrite Hf in H. contradiction.
  - split; [|reflexivity]. split; [|reflexivity]. intros _.
    assert (Hin : In j (filter (engages id) jobs)) by (rewrite Hf; now left).
    apply filter_In in Hin. destruct Hin as [Hin He].
    exists j. split; auto. now apply Heng.
Qed.

End AccountDeletion.

Lemma deleted_account_is_locked_out_witness :
  Account._id (Account.mk 3 "c@x.org" None true false false) <> 2%nat.
Proof.
  apply (deleted_account_is_locked_out
           (fun _ => Decoded 3)
           [Account.mk 2 "b@x.org" None true false false;
            Account.mk 3 "c@x.org" None true false false]
           [] (Account.mk 2 "b@x.org" None true false false) 1700
           (Some "token"%string)
           (Account.mk 3 "c@x.org" None true false false) eq_refl).
  left. reflexivity.
Defined.

Lemma engaged_account_is_kept_witness :
  snd (delete_account [Account.mk 2 "b@x.org" None true false false]
         (jobs Sample.with_accepted)
         (Account.mk 2 "b@x.org" None true false false) 1700)
  = [Account.mk 2 "b@x.org" None true false false].
Proof.
  apply engaged_account_is_kept. reflexivity.
Defined.

(** ** The applications of a user *)

Section MyApplications.

Variable createdAt : Job.t -> Date.

(** Every item of the listing of a user's applications carries an
    application of that user, taken from the job of the item, and never
    the application of somebody else. *)
Theorem my_applications_are_own st actor status page limit items total :
  my_applications createdAt st actor status page limit = Some (items, total) ->
  forall summary application,
    In (summary, application) items ->
    exists job app,
      In job (jobs st) /\ Job._id job = s_id summary /\
      application = Some app /\
      In app (Job.applications job) /\
      Application.worker app = actor.
Proof.
  unfold my_applications.
  destruct ((page =? 0)%nat && negb (limit =? 0)%nat); [discriminate|].
  intros [= <- _] summary application Hin.
  apply in_map_iff in Hin. destruct Hin as (job & Heq & Hin).
  injection Heq as <- <-.
  assert (Hm : In job (filter (my_filter actor status) (jobs st))).
  { apply (Permutation_in _ (sort_desc_perm createdAt _)).
    assert (Hs : In job (skipn ((page - 1) * limit)
                           (sort_desc createdAt
                              (filter (my_filter actor status) (jobs st))))).
    { destruct (limit =? 0)%nat; auto.
      rewrite <- (firstn_skipn limit). apply in_or_app. now left. }
    rewrite <- (firstn_skipn ((page - 1) * limit)).
    apply in_or_app. now right. }
  apply filter_In in Hm. destruct Hm as [Hjob Hf].
  unfold my_filter in Hf. apply andb_prop in Hf. destruct Hf as [Hex _].
  destruct (find (fun app => (Application.worker app =? actor)%nat)
              (Job.applications job)) as [app|] eqn:Hfind.
  - apply find_some in Hfind. destruct Hfind as [Ha Hw].
    exists job, app. apply Nat.eqb_eq in Hw. auto.
  - exfalso. apply existsb_exists in Hex. destruct Hex as (a & Ha & Hw).
    apply (find_none _ _ Hfind) in Ha. congruence.
Qed.

End MyApplications.

Lemma my_applications_are_own_witness :
  exists items total,
    my_applications (fun _ => 0) Sample.with_pending 2 None 1 20
    = Some (items, total) /\
    forall summary application,
      In (summary, application) items ->
      exists job app,
        In job (jobs Sample.with_pending) /\ Job._id job = s_id summary /\
        application = Some app /\
        In app (Job.applications job) /\
        Application.worker app = 2%nat.
Proof.
  eexists. eexists. split; [reflexivity|].
  eapply (my_applications_are_own (fun _ => 0) Sample.with_pending 2 None 1 20).
  reflexivity.
Defined.

(** ** The balance after a new entry *)

(** [createTransaction] saves the entry before it recomputes.  For an
    entry with a description, of an owner who has an account, the store
    holds the old entries followed by the new one in every case.  When
    the completed entries of the owner then do not sum below 0, the entry
    is returned and the cached wallet balance of the owner is that sum;
    when they sum below 0, the user document is refused: the call throws,
    the entry stays, and no user has changed, so the cached balance keeps
    its old value. *)
Theorem createTransaction_balance st newId data w u :
  Transaction.d_user data = Some w ->
  Transaction.d_description data <> ""%string ->
  User_findById st w = Some u ->
  let out := createTransaction st newId data in
  transactions (fst out) = transactions st ++ [Transaction.new newId data] /\
  (0 <= getUserBalance (fst out) w ->
   snd out = Some (Transaction.new newId data) /\
   exists u',
     User_findById (fst out) w = Some u' /\
     Wallet.balance (User.wallet u') = getUserBalance (fst out) w) /\
  (getUserBalance (fst out) w < 0 ->
   snd out = None /\ users (fst out) = users st).
Proof.
  intros Hd Hdesc Hu out. subst out.
  destruct (createTransaction_valid st newId data w u Hd Hdesc Hu)
    as [Hok Hthrow].
  set (st1 := Transaction_insert st (Transaction.new newId data)) in *.
  destruct (Z.le_gt_cases 0 (getUserBalance st1 w)) as [Hb|Hb].
  - destruct (Hok Hb) as (st' & u' & E & Ht & _ & Hf & Hbal & _).
    rewrite E. cbn [fst snd].
    assert (Hsum : getUserBalance st' w = getUserBalance st1 w)
      by now apply getUserBalance_ext.
    split; [exact Ht|]. split.
    + intros _. split; [reflexivity|]. exists u'. split; [exact Hf|].
      now rewrite Hsum.
    + rewrite Hsum. lia.
  - rewrite (Hthrow Hb). cbn [fst snd].
    split; [reflexivity|]. split.
    + lia.
    + intros _. split; reflexivity.
Qed.

Lemma createTransaction_balance_witness :
  exists u',
    User_findById
      (fst (createTransaction SampleLedger.ledger 21
              (Transaction.mkData (Some 2%nat) Transaction.bonus 10 "USD" "Bonus"
                 None None Transaction.completed))) 2 = Some u' /\
    Wallet.balance (User.wallet u') = 260.
Proof.
  destruct (createTransaction_balance SampleLedger.ledger 21
              (Transaction.mkData (Some 2%nat) Transaction.bonus 10 "USD" "Bonus"
                 None None Transaction.completed) 2 (Sample.user 2 250)
              eq_refl)
    as (_ & Hok & _).
  - discriminate.
  - reflexivity.
  - destruct Hok as (_ & u' & Hf & Hb).
    + vm_compute. discriminate.
    + exists u'. split; [exact Hf|]. rewrite Hb. reflexivity.
Defined.
